(** * Energy Sankey visualisation: a shallow embedding of the numeric core

    The development follows the TypeScript sources service by service:
    [ConfigurationService] (constants and catalogs), [DataValidationService]
    and [DataService] (the validated, sorted record sequence),
    [SummaryService] (totals, maxima, box tops), [GraphService] (the four
    geometry passes), [AnimationService] (playback state machine) and the
    [Sankey] facade (public API and [destroy]).

    JavaScript numbers that carry energy quantities and pixel coordinates are
    modelled as exact rationals [Q]; years, indices and timer handles as
    integers.  Code that can throw returns a [result]. *)

From Stdlib Require Import ZArith QArith Qabs Qminmax Qround DecimalString String
  List Sorted Permutation Bool Lia Lqa.
Import ListNotations.

Set Implicit Arguments.

(* ------------------------------------------------------------------ *)
(** ** Exceptions and the result monad *)

Inductive Exn : Type :=
| DataValidationError (msg field : string)
| TypeError (what : string)
| Error (msg : string).

Inductive result (A : Type) : Type :=
| Ok (a : A)
| Throw (e : Exn).

Arguments Ok {A} a.
Arguments Throw {A} e.

Definition bind {A B} (m : result A) (k : A -> result B) : result B :=
  match m with
  | Ok a => k a
  | Throw e => Throw e
  end.

Definition isOk {A} (r : result A) : bool :=
  match r with
  | Ok _ => true
  | Throw _ => false
  end.

Notation "x <- m ;; k" := (bind m (fun x => k))
  (at level 61, m at next level, right associativity).

(** [mapM f l] runs [f] on the elements from left to right and stops at the
    first exception, as a [for] loop whose body may throw. *)
Fixpoint mapM {A B} (f : A -> result B) (l : list A) : result (list B) :=
  match l with
  | [] => Ok []
  | a :: l' => b <- f a ;; bs <- mapM f l' ;; Ok (b :: bs)
  end.

(* ------------------------------------------------------------------ *)
(** ** JavaScript array helpers *)

(** [Array.prototype.indexOf]: first position holding [x], or [-1]. *)
Fixpoint indexOf_from {A} (eqb : A -> A -> bool) (x : A) (l : list A) (i : Z) : Z :=
  match l with
  | [] => (-1)%Z
  | y :: l' => if eqb y x then i else indexOf_from eqb x l' (i + 1)%Z
  end.

Definition indexOf {A} (eqb : A -> A -> bool) (x : A) (l : list A) : Z :=
  indexOf_from eqb x l 0%Z.

(** [arr[i]] for an integer index: [None] stands for [undefined]. *)
Definition at_index {A} (l : list A) (i : Z) : option A :=
  if (i <? 0)%Z then None else nth_error l (Z.to_nat i).

(** [Array.prototype.sort] with a comparator; [lt a b] is "the comparator
    returns a negative number on [(a, b)]".  The sort is stable: an element is
    placed in front of the first element it is strictly smaller than. *)
Fixpoint insert_by {A} (lt : A -> A -> bool) (x : A) (l : list A) : list A :=
  match l with
  | [] => [x]
  | y :: l' => if lt x y then x :: y :: l' else y :: insert_by lt x l'
  end.

Definition js_sort {A} (lt : A -> A -> bool) (l : list A) : list A :=
  fold_left (fun acc x => insert_by lt x acc) l [].

(** In-place update of the object stored at position [i]. *)
Fixpoint update_at {A} (i : nat) (f : A -> A) (l : list A) : list A :=
  match l, i with
  | [], _ => []
  | x :: l', O => f x :: l'
  | x :: l', S i' => x :: update_at i' f l'
  end.


Definition Qlt_bool (x y : Q) : bool := negb (Qle_bool y x).

(* ------------------------------------------------------------------ *)
(** ** ConfigurationService: catalogs and constants *)

(** Sector ("box") names, in the order of [BOXES]. *)
Module Box.
Inductive t : Type := elec | res | ag | indus | trans | heat.

Definition eqb (a b : t) : bool :=
  match a, b with
  | elec, elec | res, res | ag, ag | indus, indus | trans, trans
  | heat, heat => true
  | _, _ => false
  end.
End Box.

(** Fuel names: the eleven entries of [FUELS], and the [waste] tag that
    names the waste-heat breakdown of a record and the waste strokes. *)
Module Fuel.
Inductive t : Type :=
| elec | heat | solar | nuclear | hydro | wind | geo | gas | coal | bio
| petro | waste.

Definition eqb (a b : t) : bool :=
  match a, b with
  | elec, elec | heat, heat | solar, solar | nuclear, nuclear
  | hydro, hydro | wind, wind | geo, geo | gas, gas | coal, coal
  | bio, bio | petro, petro | waste, waste => true
  | _, _ => false
  end.
End Fuel.

(** [fuelName === boxName]: the two catalogs share the names [elec] and
    [heat]. *)
Definition same_name (f : Fuel.t) (b : Box.t) : bool :=
  match f, b with
  | Fuel.elec, Box.elec | Fuel.heat, Box.heat => true
  | _, _ => false
  end.

Module ConfigurationService.

Definition HEIGHT : Q := 620.
Definition BOX_WIDTH : Q := 120.
Definition BOX_HEIGHT : Q := 30.
Definition LEFT_X : Q := 10.
Definition TOP_Y : Q := 100.
Definition SCALE : Q := 2 # 100.
Definition ELEC_BOX_X : Q := 300.
Definition ELEC_BOX_Y : Q := 120.
Definition HEAT_BOX_X : Q := 750.
Definition HEAT_BOX_Y : Q := 200.
Definition LEFT_GAP : Q := 30.
Definition RIGHT_GAP : Q := LEFT_GAP * (21 # 10).
Definition BLEED : Q := 1 # 2.
Definition PATH_GAP : Q := 20.
Definition ELEC_GAP : Q := 19.

Definition FUELS : list Fuel.t :=
  [Fuel.elec; Fuel.heat; Fuel.solar; Fuel.nuclear; Fuel.hydro; Fuel.wind;
   Fuel.geo; Fuel.gas; Fuel.coal; Fuel.bio; Fuel.petro].

Definition BOXES : list Box.t :=
  [Box.elec; Box.res; Box.ag; Box.indus; Box.trans; Box.heat].

Definition BOX_NAMES : list Box.t := BOXES.
Definition FUEL_NAMES : list Fuel.t := FUELS.

Definition BOXES_DEFAULT_FLOW_PATHS_ORDER (b : Box.t) : Z :=
  match b with
  | Box.elec => 1 | Box.res => 2 | Box.ag => 3 | Box.indus => 4
  | Box.trans => 5 | Box.heat => 6
  end.

Definition HEAT_BOX_FIRST_FLOW_PATHS_ORDER (b : Box.t) : Z :=
  match b with
  | Box.elec => 1 | Box.heat => 2 | Box.res => 3 | Box.ag => 4
  | Box.indus => 5 | Box.trans => 6
  end.

Definition FLOW_PATHS_ORDER (f : Fuel.t) : Box.t -> Z :=
  match f with
  | Fuel.gas | Fuel.coal | Fuel.petro => HEAT_BOX_FIRST_FLOW_PATHS_ORDER
  | _ => BOXES_DEFAULT_FLOW_PATHS_ORDER
  end.

(** The part of the configuration that is not a literal of the class:
    [hasHeatData] is set by data validation; [WIDTH] is read from the
    container; [SR3] and [HSR3] are the square root of three and its half,
    which are not rational; [ELECTRICITY_BOX_X], [ELECTRICITY_BOX_Y],
    [LEFT_Y] and [ELECTRICITY_GAP] are read by [GraphService] although the
    configuration class declares none of them, so that in the running code
    the reads yield [undefined] and the coordinates computed from them are
    not numbers.  All of them are taken as parameters of the geometry; what
    is proved below about graphs concerns the strokes' fuel, box, value and
    width, which do not depend on them. *)
Record t : Type := {
  hasHeatData : bool;
  WIDTH : Q;
  SR3 : Q;
  HSR3 : Q;
  ELECTRICITY_BOX_X : Q;
  ELECTRICITY_BOX_Y : Q;
  LEFT_Y : Q;
  ELECTRICITY_GAP : Q
}.

End ConfigurationService.

(* ------------------------------------------------------------------ *)
(** ** Data model (types/index.ts) *)

(** [EnergySectorBreakdown].  The interface is open ([[key: string]: number]);
    the only key outside the six sectors that the code ever touches is
    [total], which is kept as an optional property. *)
Record EnergySectorBreakdown : Type := {
  sb_elec : Q;
  sb_res : Q;
  sb_ag : Q;
  sb_indus : Q;
  sb_trans : Q;
  sb_heat : Q;
  sb_total : option Q
}.

(** [fuelObj[boxName]] *)
Definition sb_get (o : EnergySectorBreakdown) (b : Box.t) : Q :=
  match b with
  | Box.elec => sb_elec o | Box.res => sb_res o | Box.ag => sb_ag o
  | Box.indus => sb_indus o | Box.trans => sb_trans o | Box.heat => sb_heat o
  end.

(** [fuelObj.total = v] *)
Definition sb_set_total (o : EnergySectorBreakdown) (v : Q) : EnergySectorBreakdown :=
  {| sb_elec := sb_elec o; sb_res := sb_res o; sb_ag := sb_ag o;
     sb_indus := sb_indus o; sb_trans := sb_trans o; sb_heat := sb_heat o;
     sb_total := Some v |}.

(** [EnergyDataPoint].  The [heat] key is optional in the data files: its
    presence is what validation tests with ["heat" in point]. *)
Record EnergyDataPoint : Type := {
  year : Z;
  milestone : option string;
  dp_elec : EnergySectorBreakdown;
  dp_waste : EnergySectorBreakdown;
  dp_solar : EnergySectorBreakdown;
  dp_nuclear : EnergySectorBreakdown;
  dp_hydro : EnergySectorBreakdown;
  dp_wind : EnergySectorBreakdown;
  dp_geo : EnergySectorBreakdown;
  dp_gas : EnergySectorBreakdown;
  dp_coal : EnergySectorBreakdown;
  dp_bio : EnergySectorBreakdown;
  dp_petro : EnergySectorBreakdown;
  dp_heat : option EnergySectorBreakdown
}.

(** [yearData[fuelName]]; [None] is [undefined]. *)
Definition dp_get (p : EnergyDataPoint) (f : Fuel.t) : option EnergySectorBreakdown :=
  match f with
  | Fuel.elec => Some (dp_elec p) | Fuel.waste => Some (dp_waste p)
  | Fuel.solar => Some (dp_solar p) | Fuel.nuclear => Some (dp_nuclear p)
  | Fuel.hydro => Some (dp_hydro p) | Fuel.wind => Some (dp_wind p)
  | Fuel.geo => Some (dp_geo p) | Fuel.gas => Some (dp_gas p)
  | Fuel.coal => Some (dp_coal p) | Fuel.bio => Some (dp_bio p)
  | Fuel.petro => Some (dp_petro p) | Fuel.heat => dp_heat p
  end.

(** Replace the breakdown object stored under [f] (used to write back a
    mutated breakdown; the record itself is the same object). *)
Definition dp_put (p : EnergyDataPoint) (f : Fuel.t) (o : EnergySectorBreakdown)
  : EnergyDataPoint :=
  let pick g old := if Fuel.eqb f g then o else old in
  {| year := year p; milestone := milestone p;
     dp_elec := pick Fuel.elec (dp_elec p);
     dp_waste := pick Fuel.waste (dp_waste p);
     dp_solar := pick Fuel.solar (dp_solar p);
     dp_nuclear := pick Fuel.nuclear (dp_nuclear p);
     dp_hydro := pick Fuel.hydro (dp_hydro p);
     dp_wind := pick Fuel.wind (dp_wind p);
     dp_geo := pick Fuel.geo (dp_geo p);
     dp_gas := pick Fuel.gas (dp_gas p);
     dp_coal := pick Fuel.coal (dp_coal p);
     dp_bio := pick Fuel.bio (dp_bio p);
     dp_petro := pick Fuel.petro (dp_petro p);
     dp_heat := if Fuel.eqb f Fuel.heat then Some o else dp_heat p |}.

(* ------------------------------------------------------------------ *)
(** ** DataValidationService *)

Module DataValidationService.

(** The loop body of [validateData] for the point at index [i].  The
    checks that every required breakdown is an object with numeric sector
    entries are discharged by the types of [EnergyDataPoint]; what remains
    is the year test [!point.year] and the detection of the [heat] key.
    Returns the updated [hasHeatData] flag. *)
Definition validatePoint (hasHeatData : bool) (i : nat) (point : EnergyDataPoint)
  : result bool :=
  if (year point =? 0)%Z
  then Throw (DataValidationError
                ("Invalid year at index "
                 ++ NilZero.string_of_uint (Nat.to_uint i))%string
                "year")
  else Ok (match dp_heat point with Some _ => true | None => hasHeatData end).

Fixpoint validatePoints (hasHeatData : bool) (i : nat) (data : list EnergyDataPoint)
  : result bool :=
  match data with
  | [] => Ok hasHeatData
  | point :: rest =>
      h <- validatePoint hasHeatData i point ;;
      validatePoints h (S i) rest
  end.

(** [validateData]: throws on an empty array or an invalid point; on
    success yields the value it leaves in [configurationService.hasHeatData]
    (the flag starts [false]).  Years are not compared with each other. *)
Definition validateData (data : list EnergyDataPoint) : result bool :=
  match data with
  | [] => Throw (DataValidationError "Data array cannot be empty" "data")
  | _ => validatePoints false 0 data
  end.

End DataValidationService.

(* ------------------------------------------------------------------ *)
(** ** DataService *)

Module DataService.

Record t : Type := {
  data : list EnergyDataPoint;
  years : list Z;
  yearsLength : Z;
  firstYear : Z;
  lastYear : Z
}.

(** The comparator [(a, b) => a.year - b.year] is negative iff
    [a.year < b.year]. *)
Definition byYear (a b : EnergyDataPoint) : bool := (year a <? year b)%Z.

(** The constructor: validate, sort a copy by year, derive the year index.
    [years[0]] and [years[length - 1]] exist because validation rejects the
    empty array; the default of [nth] is never used.  The second component
    is the [hasHeatData] flag that validation leaves in the configuration. *)
Definition new (energyData : list EnergyDataPoint) : result (t * bool) :=
  hasHeat <- DataValidationService.validateData energyData ;;
  let sortedData := js_sort byYear energyData in
  let ys := map year sortedData in
  Ok ({| data := sortedData;
         years := ys;
         yearsLength := Z.of_nat (length ys);
         firstYear := nth 0 ys 0%Z;
         lastYear := nth (length ys - 1) ys 0%Z |}, hasHeat).

Definition getYearIndex (ds : t) (y : Z) : Z := indexOf Z.eqb y (years ds).

Definition hasYear (ds : t) (y : Z) : bool :=
  existsb (Z.eqb y) (years ds).

Definition getYearDataByIndex (ds : t) (index : Z) : option EnergyDataPoint :=
  if ((index <? 0) || (index >=? Z.of_nat (length (data ds))))%Z
  then None
  else at_index (data ds) index.

Definition isValidYear (ds : t) (y : Z) : bool :=
  ((y >=? firstYear ds) && (y <=? lastYear ds))%Z && hasYear ds y.

Definition getYearData (ds : t) (y : Z) : option EnergyDataPoint :=
  find (fun d => (year d =? y)%Z) (data ds).

(** *** Navigation *)

Definition getYearRange (ds : t) : Z * Z := (firstYear ds, lastYear ds).

Definition getDataCount (ds : t) : Z := Z.of_nat (length (data ds)).

(** [getNextYear]: [None] is [null]. *)
Definition getNextYear (ds : t) (currentYear : Z) : option Z :=
  let currentIndex := getYearIndex ds currentYear in
  if ((currentIndex =? -1) || (currentIndex =? yearsLength ds - 1))%Z then None
  else at_index (years ds) (currentIndex + 1).

Definition getPreviousYear (ds : t) (currentYear : Z) : option Z :=
  let currentIndex := getYearIndex ds currentYear in
  if (currentIndex <=? 0)%Z then None
  else at_index (years ds) (currentIndex - 1).

(** *** Sums read from the records *)

(** A number is truthy unless it is zero. *)
Definition truthy (v : Q) : bool := negb (Qeq_bool v 0).

(** [v || 0] *)
Definition orZero (v : Q) : Q := if truthy v then v else 0%Q.

(** The [fuel] and [sector] arguments are strings in the source; a name
    outside the catalogs finds no breakdown (or no entry) and yields [0]. *)
Definition getTotalForYear (ds : t) (y : Z) (fuel : Fuel.t) (sector : Box.t) : Q :=
  match getYearData ds y with
  | None => 0%Q
  | Some yearData =>
      match dp_get yearData fuel with
      | None => 0%Q
      | Some fuelData => orZero (sb_get fuelData sector)
      end
  end.

Definition getYearTotalForFuel (ds : t) (y : Z) (fuel : Fuel.t) : Q :=
  match getYearData ds y with
  | None => 0%Q
  | Some yearData =>
      match dp_get yearData fuel with
      | None => 0%Q
      | Some fuelData =>
          (orZero (sb_elec fuelData) + orZero (sb_res fuelData)
           + orZero (sb_ag fuelData) + orZero (sb_indus fuelData)
           + orZero (sb_trans fuelData))%Q
      end
  end.

(** *** Milestones *)

(** A string is truthy unless it is empty; a missing milestone is
    [undefined]. *)
Definition hasMilestone (d : EnergyDataPoint) : bool :=
  match milestone d with
  | Some EmptyString => false
  | Some _ => true
  | None => false
  end.

Definition getMilestoneForYear (ds : t) (y : Z) : option string :=
  match getYearData ds y with
  | Some yearData => milestone yearData
  | None => None
  end.

Definition getYearsWithMilestones (ds : t) : list Z :=
  map year (filter hasMilestone (data ds)).

(** *** Statistics *)

(** The loop of [getDataStatistics]:
    [for (i = 1; i < yearsLength; i++) totalGap += years[i] - years[i - 1]]. *)
Definition totalGap (ds : t) : Z :=
  fold_left
    (fun totalGap i =>
       (totalGap + (nth i (years ds) 0 - nth (i - 1) (years ds) 0))%Z)
    (seq 1 (Z.to_nat (yearsLength ds) - 1)) 0%Z.

(** The quotient is exact here, where the code returns it rounded to a
    double; only comparisons of the quotient with 0 and 1, which that
    rounding preserves, are drawn from it below. *)
Definition averageYearGap (ds : t) : Q :=
  if (yearsLength ds >? 1)%Z
  then (inject_Z (totalGap ds) / inject_Z (yearsLength ds - 1))%Q
  else 0%Q.

(** The fields of [getDataStatistics] that do not depend on the order in
    which the host enumerates object keys ([fuelsCount] and [sectorsCount]
    come from [Object.keys] of the first record). *)
Record Statistics : Type := {
  totalDataPoints : Z;
  yearRange : Z * Z;
  st_averageYearGap : Q;
  milestonesCount : Z
}.

Definition getDataStatistics (ds : t) : Statistics :=
  {| totalDataPoints := Z.of_nat (length (data ds));
     yearRange := (firstYear ds, lastYear ds);
     st_averageYearGap := averageYearGap ds;
     milestonesCount := Z.of_nat (length (getYearsWithMilestones ds)) |}.

End DataService.

(* ------------------------------------------------------------------ *)
(** ** SummaryService: totals, maxima and box tops *)

Module SummaryService.
Import ConfigurationService.
Local Open Scope Q_scope.

(** Property names of a [YearTotals] object that are addressed dynamically
    ([total[boxName]], [total[fuelName]]).  The fuels [elec] and [heat]
    share their property with the sectors of the same name. *)
Inductive Key : Type :=
| KBox (b : Box.t)
| KFuel (f : Fuel.t).

Definition key_of_box (b : Box.t) : Key := KBox b.

Definition key_of_fuel (f : Fuel.t) : Key :=
  match f with
  | Fuel.elec => KBox Box.elec
  | Fuel.heat => KBox Box.heat
  | _ => KFuel f
  end.

Definition Key_eqb (a b : Key) : bool :=
  match a, b with
  | KBox x, KBox y => Box.eqb x y
  | KFuel x, KFuel y => Fuel.eqb x y
  | _, _ => false
  end.

(** [YearTotals]: the numeric properties addressed by name live in [vals]
    (the [waste] total is [vals (KFuel Fuel.waste)]); [has_heat] records
    whether the optional [heat] property was created. *)
Record YearTotals : Type := {
  t_year : Z;
  vals : Key -> Q;
  fuel_height : Q;
  has_heat : bool;
  t_milestone : option string
}.

Definition tget (t : YearTotals) (k : Key) : Q := vals t k.

(** [total[k] += v] *)
Definition tadd (t : YearTotals) (k : Key) (v : Q) : YearTotals :=
  {| t_year := t_year t;
     vals := fun k' => if Key_eqb k k' then vals t k + v else vals t k';
     fuel_height := fuel_height t;
     has_heat := has_heat t;
     t_milestone := t_milestone t |}.

Definition tset (t : YearTotals) (k : Key) (v : Q) : YearTotals :=
  {| t_year := t_year t;
     vals := fun k' => if Key_eqb k k' then v else vals t k';
     fuel_height := fuel_height t;
     has_heat := has_heat t;
     t_milestone := t_milestone t |}.

Definition add_fuel_height (t : YearTotals) (v : Q) : YearTotals :=
  {| t_year := t_year t;
     vals := vals t;
     fuel_height := fuel_height t + v;
     has_heat := has_heat t;
     t_milestone := t_milestone t |}.

Definition set_milestone (t : YearTotals) (m : option string) : YearTotals :=
  {| t_year := t_year t;
     vals := vals t;
     fuel_height := fuel_height t;
     has_heat := has_heat t;
     t_milestone := m |}.

(** The freshly created [total] object of one year. *)
Definition initTotal (hasHeat : bool) (yearData : EnergyDataPoint) : YearTotals :=
  {| t_year := year yearData;
     vals := fun _ => 0;
     fuel_height := 0;
     has_heat := hasHeat;
     t_milestone := None |}.

(** Level 3, one iteration of the sectors loop for fuel number [j].
    Reading [yearData.heat[boxName]] when the record has no [heat] key is a
    [TypeError]. *)
Definition sectorStep (hasHeat : bool) (yearData : EnergyDataPoint)
    (j : nat) (fuelName : Fuel.t) (fuelObj : EnergySectorBreakdown)
    (total : YearTotals) (boxName : Box.t) : result YearTotals :=
  if negb hasHeat && Box.eqb boxName Box.heat then Ok total
  else
    let total := tadd total (key_of_box boxName) (sb_get fuelObj boxName) in
    let total := tadd total (key_of_fuel fuelName) (sb_get fuelObj boxName) in
    let total :=
      if Nat.eqb j 2 && negb (Box.eqb boxName Box.elec)
      then
        let total := tadd total (key_of_box boxName)
                          (sb_get (dp_elec yearData) boxName) in
        tadd total (key_of_box boxName) (sb_get (dp_waste yearData) boxName)
      else total in
    if Nat.eqb j 2 && negb (Box.eqb boxName Box.heat) && hasHeat
    then
      match dp_heat yearData with
      | Some h => Ok (tadd total (key_of_box boxName) (sb_get h boxName))
      | None => Throw (TypeError "yearData.heat is undefined")
      end
    else Ok total.

Fixpoint sectorsLoop (hasHeat : bool) (yearData : EnergyDataPoint)
    (j : nat) (fuelName : Fuel.t) (fuelObj : EnergySectorBreakdown)
    (boxes : list Box.t) (total : YearTotals) : result YearTotals :=
  match boxes with
  | [] => Ok total
  | boxName :: rest =>
      total' <- sectorStep hasHeat yearData j fuelName fuelObj total boxName ;;
      sectorsLoop hasHeat yearData j fuelName fuelObj rest total'
  end.

(** Level 2, one iteration of the fuels loop. *)
Definition fuelStep (hasHeat : bool) (yearData : EnergyDataPoint)
    (total : YearTotals) (j : nat) (fuelName : Fuel.t) : result YearTotals :=
  match dp_get yearData fuelName with
  | None =>
      if negb hasHeat && Fuel.eqb fuelName Fuel.heat then Ok total
      else Throw (TypeError "fuelObj is undefined")
  | Some fuelObj =>
      if negb hasHeat && Fuel.eqb fuelName Fuel.heat then Ok total
      else
        total' <- sectorsLoop hasHeat yearData j fuelName fuelObj BOX_NAMES total ;;
        Ok (add_fuel_height total'
              (tget total' (key_of_fuel fuelName) * SCALE + LEFT_GAP))
  end.

(** [for (let j = start; j < FUELS.length; ++j)] over the tail [fuels] of
    the catalog that starts at position [j]. *)
Fixpoint fuelsLoop (hasHeat : bool) (yearData : EnergyDataPoint)
    (j : nat) (fuels : list Fuel.t) (total : YearTotals) : result YearTotals :=
  match fuels with
  | [] => Ok total
  | fuelName :: rest =>
      total' <- fuelStep hasHeat yearData total j fuelName ;;
      fuelsLoop hasHeat yearData (S j) rest total'
  end.

(** Level 1, the body of the years loop: the [YearTotals] of one record.
    (The same loop fills the flow counters and label positions and the
    [yearSums] table; they do not feed back into the totals and are left
    out.) *)
Definition yearTotals (hasHeat : bool) (yearData : EnergyDataPoint)
  : result YearTotals :=
  total <- fuelsLoop hasHeat yearData 2 (skipn 2 FUELS)
                     (initTotal hasHeat yearData) ;;
  let w := dp_waste yearData in
  let total := tset total (KFuel Fuel.waste)
                    (sb_res w + sb_ag w + sb_indus w + sb_trans w) in
  let total := if hasHeat
               then tadd total (KFuel Fuel.waste) (sb_heat w)
               else total in
  Ok (set_milestone total (milestone yearData)).

Definition buildTotals (hasHeat : bool) (data : list EnergyDataPoint)
  : result (list YearTotals) :=
  mapM (yearTotals hasHeat) data.

(** [Math.max(...xs)].  On the empty list JavaScript answers [-Infinity],
    which is not a rational: [None]. *)
Definition math_max (xs : list Q) : option Q :=
  match xs with
  | [] => None
  | x :: rest => Some (fold_left Qmax rest x)
  end.

(** [yearTotal[boxName] as number]; [undefined] for the [heat] property of
    a totals object that has none. *)
Definition total_of_box (t : YearTotals) (b : Box.t) : option Q :=
  match b with
  | Box.heat => if has_heat t then Some (tget t (KBox b)) else None
  | _ => Some (tget t (KBox b))
  end.

Fixpoint all_defined (xs : list (option Q)) : option (list Q) :=
  match xs with
  | [] => Some []
  | Some x :: rest =>
      match all_defined rest with
      | Some r => Some (x :: r)
      | None => None
      end
  | None :: _ => None
  end.

(** [BoxMaxes]: [None] marks an entry that is not a finite number
    ([NaN] when an operand is [undefined], [-Infinity] on no data). *)
Definition BoxMaxes : Type := Box.t -> option Q.

Definition buildMaxes (totals : list YearTotals) : BoxMaxes :=
  fun boxName =>
    match all_defined (map (fun yearTotal => total_of_box yearTotal boxName) totals) with
    | Some xs => math_max xs
    | None => None
    end.

Record BoxTops : Type := {
  bt_res : Q;
  bt_heat : Q;
  bt_ag : Q;
  bt_indus : Q;
  bt_trans : Q
}.

(** [boxTops[boxName]].  The object has no [elec] entry; that lookup does
    not occur (the electricity box is handled before it). *)
Definition bt_get (bt : BoxTops) (b : Box.t) : Q :=
  match b with
  | Box.res => bt_res bt | Box.heat => bt_heat bt | Box.ag => bt_ag bt
  | Box.indus => bt_indus bt | Box.trans => bt_trans bt
  | Box.elec => 0
  end.

(** A number that must be finite for the arithmetic to stay in [Q].
    JavaScript would carry on with [NaN] or [-Infinity]; the embedding stops
    here instead.  On a constructed data service this does not happen
    (lemma [buildSummary_total]). *)
Definition finite (o : option Q) : result Q :=
  match o with
  | Some q => Ok q
  | None => Throw (Error "non-finite number")
  end.

Definition buildBoxTops (maxes : BoxMaxes) : result BoxTops :=
  m_res <- finite (maxes Box.res) ;;
  m_ag <- finite (maxes Box.ag) ;;
  m_indus <- finite (maxes Box.indus) ;;
  let res := ELEC_BOX_Y + 50 in
  let heat := HEAT_BOX_Y + 50 in
  let ag := res + m_res * SCALE + RIGHT_GAP in
  let indus := ag + m_ag * SCALE + RIGHT_GAP in
  let trans := indus + m_indus * SCALE + RIGHT_GAP in
  Ok {| bt_res := res; bt_heat := heat; bt_ag := ag;
        bt_indus := indus; bt_trans := trans |}.

Record SummaryData : Type := {
  totals : list YearTotals;
  maxes : BoxMaxes;
  boxTops : BoxTops
}.

Definition buildSummary (hasHeat : bool) (ds : DataService.t)
  : result SummaryData :=
  ts <- buildTotals hasHeat (DataService.data ds) ;;
  let mx := buildMaxes ts in
  bt <- buildBoxTops mx ;;
  Ok {| totals := ts; maxes := mx; boxTops := bt |}.

(** *** Label positions, flow counters and year sums

    The loop of [buildTotals] that fills the totals also fills, per year,
    a [YearLabels] and a [YearFlows] object and one entry of [yearSums].
    [yearRow] is that loop body with all four results; its totals are the
    ones of [yearTotals]. *)

(** [YearLabels]: label positions, addressed by name like the totals. *)
Record YearLabels : Type := {
  l_year : Z;
  l_vals : Key -> Q;
  l_has_heat : bool
}.

Definition lget (l : YearLabels) (k : Key) : Q := l_vals l k.

(** [label[k] = v] *)
Definition lset (l : YearLabels) (k : Key) (v : Q) : YearLabels :=
  {| l_year := l_year l;
     l_vals := fun k' => if Key_eqb k k' then v else l_vals l k';
     l_has_heat := l_has_heat l |}.

(** [YearFlows]: the number of positive flows into each sector. *)
Record YearFlows : Type := {
  f_year : Z;
  f_vals : Box.t -> Z;
  f_has_heat : bool
}.

Definition fget (f : YearFlows) (b : Box.t) : Z := f_vals f b.

(** [flow[b]++] *)
Definition fincr (f : YearFlows) (b : Box.t) : YearFlows :=
  {| f_year := f_year f;
     f_vals := fun b' => if Box.eqb b b' then (f_vals f b + 1)%Z else f_vals f b';
     f_has_heat := f_has_heat f |}.

Definition initLabel (hasHeat : bool) (yearData : EnergyDataPoint) : YearLabels :=
  {| l_year := year yearData;
     l_vals := fun k =>
       match k with
       | KBox Box.elec => ELEC_BOX_Y
       | KBox Box.heat => if hasHeat then HEAT_BOX_Y else 0
       | _ => 0
       end;
     l_has_heat := hasHeat |}.

Definition initFlow (hasHeat : bool) (yearData : EnergyDataPoint) : YearFlows :=
  {| f_year := year yearData; f_vals := fun _ => 0%Z; f_has_heat := hasHeat |}.

(** Level 3 with the flow counter: the counter is bumped first, then the
    totals are updated as in [sectorStep]. *)
Definition sectorStepAll (hasHeat : bool) (yearData : EnergyDataPoint)
    (j : nat) (fuelName : Fuel.t) (fuelObj : EnergySectorBreakdown)
    (s : YearTotals * YearFlows) (boxName : Box.t)
  : result (YearTotals * YearFlows) :=
  if negb hasHeat && Box.eqb boxName Box.heat then Ok s
  else
    let flow := if Qlt_bool 0 (sb_get fuelObj boxName)
                then fincr (snd s) boxName
                else snd s in
    total <- sectorStep hasHeat yearData j fuelName fuelObj (fst s) boxName ;;
    Ok (total, flow).

Fixpoint sectorsLoopAll (hasHeat : bool) (yearData : EnergyDataPoint)
    (j : nat) (fuelName : Fuel.t) (fuelObj : EnergySectorBreakdown)
    (boxes : list Box.t) (s : YearTotals * YearFlows)
  : result (YearTotals * YearFlows) :=
  match boxes with
  | [] => Ok s
  | boxName :: rest =>
      s' <- sectorStepAll hasHeat yearData j fuelName fuelObj s boxName ;;
      sectorsLoopAll hasHeat yearData j fuelName fuelObj rest s'
  end.

(** Level 2 with the labels: after the sectors loop the label of the fuel
    is placed at the height stacked so far, the electricity (and heat)
    label is refreshed, and only then the stack grows. *)
Definition fuelStepAll (hasHeat : bool) (yearData : EnergyDataPoint)
    (s : YearTotals * YearFlows * YearLabels) (j : nat) (fuelName : Fuel.t)
  : result (YearTotals * YearFlows * YearLabels) :=
  let '(total, flow, label) := s in
  match dp_get yearData fuelName with
  | None =>
      if negb hasHeat && Fuel.eqb fuelName Fuel.heat then Ok s
      else Throw (TypeError "fuelObj is undefined")
  | Some fuelObj =>
      if negb hasHeat && Fuel.eqb fuelName Fuel.heat then Ok s
      else
        tf <- sectorsLoopAll hasHeat yearData j fuelName fuelObj BOX_NAMES
                (total, flow) ;;
        let total := fst tf in
        let label := lset label (key_of_fuel fuelName)
                          (TOP_Y + fuel_height total - 5) in
        let label := lset label (KBox Box.elec)
                          (ELEC_BOX_Y - tget total (KBox Box.elec) * SCALE) in
        let label :=
          if hasHeat
          then lset label (KBox Box.heat)
                    (HEAT_BOX_Y - tget total (KBox Box.heat) * SCALE)
          else label in
        Ok (add_fuel_height total
              (tget total (key_of_fuel fuelName) * SCALE + LEFT_GAP),
            snd tf, label)
  end.

Fixpoint fuelsLoopAll (hasHeat : bool) (yearData : EnergyDataPoint)
    (j : nat) (fuels : list Fuel.t) (s : YearTotals * YearFlows * YearLabels)
  : result (YearTotals * YearFlows * YearLabels) :=
  match fuels with
  | [] => Ok s
  | fuelName :: rest =>
      s' <- fuelStepAll hasHeat yearData s j fuelName ;;
      fuelsLoopAll hasHeat yearData (S j) rest s'
  end.

(** What one iteration of the years loop pushes and stores. *)
Record YearRow : Type := {
  r_total : YearTotals;
  r_flow : YearFlows;
  r_label : YearLabels;
  (** the value stored in [yearSums[yearData.year]] *)
  r_sum : Q
}.

Definition yearRow (hasHeat : bool) (yearData : EnergyDataPoint)
  : result YearRow :=
  s <- fuelsLoopAll hasHeat yearData 2 (skipn 2 FUELS)
         (initTotal hasHeat yearData, initFlow hasHeat yearData,
          initLabel hasHeat yearData) ;;
  let '(total, flow, label) := s in
  let w := dp_waste yearData in
  let total := tset total (KFuel Fuel.waste)
                    (sb_res w + sb_ag w + sb_indus w + sb_trans w) in
  let total := if hasHeat
               then tadd total (KFuel Fuel.waste) (sb_heat w)
               else total in
  let total := set_milestone total (milestone yearData) in
  Ok {| r_total := total; r_flow := flow; r_label := label;
        r_sum := tget total (KFuel Fuel.bio) + tget total (KFuel Fuel.coal)
                 + tget total (KFuel Fuel.gas) + tget total (KFuel Fuel.geo)
                 + tget total (KFuel Fuel.hydro) + tget total (KFuel Fuel.nuclear)
                 + tget total (KFuel Fuel.petro) + tget total (KFuel Fuel.solar)
                 + tget total (KFuel Fuel.wind) |}.

Definition buildRows (hasHeat : bool) (data : list EnergyDataPoint)
  : result (list YearRow) :=
  mapM (yearRow hasHeat) data.

(** [yearSums]: an object keyed by year; a later record of the same year
    overwrites the entry. *)
Definition yearSums (rows : list YearRow) : Z -> option Q :=
  fold_left
    (fun table r =>
       fun y => if (t_year (r_total r) =? y)%Z then Some (r_sum r) else table y)
    rows (fun _ => None).

End SummaryService.

(* ------------------------------------------------------------------ *)
(** ** GraphService: the four geometry passes *)

Module GraphService.
Import ConfigurationService.
Import SummaryService.
Local Open Scope Q_scope.

Record GraphPoint : Type := { x : Q; y : Q }.

Record GraphStroke : Type := {
  fuel : Fuel.t;
  box : Box.t;
  value : Q;
  stroke : Q;
  a : GraphPoint;
  b : GraphPoint;
  c : GraphPoint;
  d : GraphPoint;
  cc : GraphPoint
}.

(** [offsets.y] *)
Definition OffestY : Type := Box.t -> Q.

Definition oset (o : OffestY) (k : Box.t) (v : Q) : OffestY :=
  fun k' => if Box.eqb k k' then v else o k'.

Record GraphData : Type := {
  gd_year : Z;
  graph : list GraphStroke;
  gd_totals : YearTotals;
  offsets_y : OffestY
}.

(** *** Field updates of a stroke object *)

Definition with_fuel (g : GraphStroke) (f : Fuel.t) : GraphStroke :=
  {| fuel := f; box := box g; value := value g; stroke := stroke g;
     a := a g; b := b g; c := c g; d := d g; cc := cc g |}.

Definition with_value (g : GraphStroke) (v : Q) : GraphStroke :=
  {| fuel := fuel g; box := box g; value := v; stroke := stroke g;
     a := a g; b := b g; c := c g; d := d g; cc := cc g |}.

Definition with_stroke (g : GraphStroke) (s : Q) : GraphStroke :=
  {| fuel := fuel g; box := box g; value := value g; stroke := s;
     a := a g; b := b g; c := c g; d := d g; cc := cc g |}.

Definition with_a (g : GraphStroke) (p : GraphPoint) : GraphStroke :=
  {| fuel := fuel g; box := box g; value := value g; stroke := stroke g;
     a := p; b := b g; c := c g; d := d g; cc := cc g |}.

Definition with_b (g : GraphStroke) (p : GraphPoint) : GraphStroke :=
  {| fuel := fuel g; box := box g; value := value g; stroke := stroke g;
     a := a g; b := p; c := c g; d := d g; cc := cc g |}.

Definition with_c (g : GraphStroke) (p : GraphPoint) : GraphStroke :=
  {| fuel := fuel g; box := box g; value := value g; stroke := stroke g;
     a := a g; b := b g; c := p; d := d g; cc := cc g |}.

Definition with_d (g : GraphStroke) (p : GraphPoint) : GraphStroke :=
  {| fuel := fuel g; box := box g; value := value g; stroke := stroke g;
     a := a g; b := b g; c := c g; d := p; cc := cc g |}.

Definition with_cc (g : GraphStroke) (p : GraphPoint) : GraphStroke :=
  {| fuel := fuel g; box := box g; value := value g; stroke := stroke g;
     a := a g; b := b g; c := c g; d := d g; cc := p |}.

Definition set_x (p : GraphPoint) (v : Q) : GraphPoint := {| x := v; y := y p |}.
Definition set_y (p : GraphPoint) (v : Q) : GraphPoint := {| x := x p; y := v |}.

Definition origin : GraphPoint := {| x := 0; y := 0 |}.

(** *** Pass 1: [calculateGraphY] *)

(** Mutable locals of the body of the years loop, together with the record
    [data[i]], whose breakdown objects the loop writes to. *)
Record YState : Type := {
  ys_graph : list GraphStroke;
  leftY : Q;
  elecY : Q;
  heatY : Q;
  ys_offsets : OffestY;
  ys_point : EnergyDataPoint
}.

Section Pass1.
Variable cfg : ConfigurationService.t.
Variable boxTops0 : BoxTops.
(** [totals]: the totals object found for the current year. *)
Variable totals0 : YearTotals.
(** [wasteObj] *)
Variable wasteObj : EnergySectorBreakdown.

Let hasHeat := hasHeatData cfg.
Let ELEC_BOX_X' := ELECTRICITY_BOX_X cfg.
Let ELEC_BOX_Y' := ELECTRICITY_BOX_Y cfg.
Let FUELS_length : Q := inject_Z (Z.of_nat (length FUELS)).

(** The waste-heat clone of the stroke [g] just pushed for an
    electricity flow into [lastBox]; returns the clone, the advanced
    [elecY] and the advanced offsets.  [JSON.parse(JSON.stringify(g))] is a
    deep copy: the clone starts as a separate object with the fields of [g]. *)
Definition wasteClone (g : GraphStroke) (fuelName : Fuel.t) (lastBox : Box.t)
    (elecY0 : Q) (offs : OffestY) : GraphStroke * Q * OffestY :=
  let cloned := g in
  let recompute :=
    let halfStroke := sb_get wasteObj lastBox * SCALE / 2 in
    let elecY1 := elecY0 + halfStroke * 2 in
    let cloned := with_stroke cloned (halfStroke * 2) in
    let offs := oset offs lastBox (offs lastBox + halfStroke * 2) in
    let cloned := with_value cloned (sb_get wasteObj lastBox) in
    (cloned, elecY1, offs) in
  if Fuel.eqb fuelName Fuel.elec && Box.eqb lastBox Box.res then recompute
  else if Fuel.eqb fuelName Fuel.elec && Box.eqb lastBox Box.ag then recompute
  else if Fuel.eqb fuelName Fuel.elec && Box.eqb lastBox Box.indus then recompute
  else if Fuel.eqb fuelName Fuel.elec && Box.eqb lastBox Box.trans then recompute
  else if Fuel.eqb fuelName Fuel.elec && Box.eqb lastBox Box.heat && hasHeat
       then recompute
  else (cloned, elecY0, offs).

(** Level 3: one iteration of the sectors loop. *)
Definition boxStep (j : nat) (fuelName : Fuel.t) (fuelObj : EnergySectorBreakdown)
    (st : YState) (boxName : Box.t) : YState :=
  if same_name fuelName boxName then st
  else if negb hasHeat && Box.eqb boxName Box.heat then st
  else
    let halfStroke := sb_get fuelObj boxName * SCALE / 2 in
    let g_value := sb_get fuelObj boxName in
    (* source anchor *)
    let '(g_a, leftY1, elecY1, heatY1) :=
      if Nat.eqb j 0 then
        let e := elecY st + halfStroke in
        ({| x := ELEC_BOX_X' + BOX_WIDTH; y := e |},
         leftY st, e + halfStroke, heatY st)
      else if Nat.eqb j 1 then
        let h := heatY st + halfStroke in
        ({| x := HEAT_BOX_X + BOX_WIDTH; y := h |},
         leftY st, elecY st, h + halfStroke)
      else
        let l := leftY st + halfStroke in
        ({| x := LEFT_X; y := l |}, l, elecY st, heatY st) in
    let offs1 := oset (ys_offsets st) boxName (ys_offsets st boxName + halfStroke) in
    let g_stroke := halfStroke * 2 in
    let g_b_y := y g_a in
    (* target anchor *)
    let '(g_b_x, g_c_x, g_d) :=
      if Box.eqb boxName Box.elec then
        let d_y := ELEC_BOX_Y' - tget totals0 (KBox Box.elec) * SCALE
                   + offs1 Box.elec in
        let c_x := ELEC_BOX_X' - 20
                   - (tget totals0 (KBox Box.elec) * SCALE - offs1 Box.elec)
                     / SR3 cfg
                   - (FUELS_length - inject_Z (Z.of_nat j)) * PATH_GAP in
        (c_x - Qabs (y g_a - d_y) / SR3 cfg, c_x,
         {| x := ELEC_BOX_X'; y := d_y |})
      else if Box.eqb boxName Box.heat then
        let d_y := HEAT_BOX_Y - tget totals0 (KBox Box.heat) * SCALE
                   + offs1 Box.heat in
        let c_x := HEAT_BOX_X - 20
                   - (tget totals0 (KBox Box.heat) * SCALE - offs1 Box.heat)
                     / SR3 cfg
                   - (FUELS_length - inject_Z (Z.of_nat j)) * PATH_GAP in
        (c_x - Qabs (y g_a - d_y) / SR3 cfg, c_x,
         {| x := HEAT_BOX_X; y := d_y |})
      else
        (0, 0,
         {| x := WIDTH cfg - BOX_WIDTH;
            y := bt_get boxTops0 boxName + offs1 boxName |}) in
    let g := {| fuel := fuelName; box := boxName;
                value := g_value; stroke := g_stroke;
                a := g_a;
                b := {| x := g_b_x; y := g_b_y |};
                c := {| x := g_c_x; y := y g_d |};
                d := g_d;
                cc := origin |} in
    let offs2 := oset offs1 boxName (offs1 boxName + halfStroke) in
    let leftY2 := if Nat.ltb 1 j then leftY1 + halfStroke else leftY1 in
    let lastBox := boxName in
    let graph1 := ys_graph st ++ [g] in
    if Nat.eqb j 0 then
      let '(cloned, elecY2, offs3) := wasteClone g fuelName lastBox elecY1 offs2 in
      {| ys_graph := graph1 ++ [cloned]; leftY := leftY2; elecY := elecY2;
         heatY := heatY1; ys_offsets := offs3; ys_point := ys_point st |}
    else
      {| ys_graph := graph1; leftY := leftY2; elecY := elecY1;
         heatY := heatY1; ys_offsets := offs2; ys_point := ys_point st |}.

(** [[...BOX_NAMES].sort((a, b) => ORDER[fuelName][a] - ORDER[fuelName][b])] *)
Definition boxesFor (fuelName : Fuel.t) : list Box.t :=
  js_sort (fun p q => (FLOW_PATHS_ORDER fuelName p <? FLOW_PATHS_ORDER fuelName q)%Z)
          BOX_NAMES.

(** Level 2: one iteration of the fuels loop.  [fuelObj.total = 0] is a
    write to the breakdown object of the record; on a record without the
    [heat] key it is a [TypeError]. *)
Definition fuelStep (st : YState) (j : nat) (fuelName : Fuel.t) : result YState :=
  if negb hasHeat && Fuel.eqb fuelName Fuel.heat then Ok st
  else
    match dp_get (ys_point st) fuelName with
    | None => Throw (TypeError "fuelObj is undefined")
    | Some fuelObj0 =>
        let fuelObj := sb_set_total fuelObj0 0 in
        let st := {| ys_graph := ys_graph st; leftY := leftY st;
                     elecY := elecY st; heatY := heatY st;
                     ys_offsets := ys_offsets st;
                     ys_point := dp_put (ys_point st) fuelName fuelObj |} in
        let st := fold_left (boxStep j fuelName fuelObj) (boxesFor fuelName) st in
        Ok (if Nat.ltb 1 j
            then {| ys_graph := ys_graph st; leftY := leftY st + LEFT_GAP;
                    elecY := elecY st; heatY := heatY st;
                    ys_offsets := ys_offsets st; ys_point := ys_point st |}
            else st)
    end.

Fixpoint fuelsLoop (j : nat) (fuels : list Fuel.t) (st : YState) : result YState :=
  match fuels with
  | [] => Ok st
  | fuelName :: rest =>
      st' <- fuelStep st j fuelName ;;
      fuelsLoop (S j) rest st'
  end.
End Pass1.

(** Level 1: the body of the years loop for the record at index [i].
    Yields the [GraphData] pushed for the year and the record as the loop
    leaves it.  [heatY] is left [undefined] without heat data and is then
    never read (0 stands in for it).  A missing totals object would make the
    first property access on it a [TypeError]; the lookups are made up
    front. *)
Definition graphYear (cfg : ConfigurationService.t) (summary : SummaryData)
    (i : nat) (point : EnergyDataPoint) : result (GraphData * EnergyDataPoint) :=
  match nth_error (totals summary) i with
  | None => Throw (TypeError "summary.totals[i] is undefined")
  | Some totals_i =>
      let leftY0 := LEFT_Y cfg in
      let elecY0 := ELECTRICITY_BOX_Y cfg - tget totals_i (KBox Box.elec) * SCALE in
      let heatY0 := if hasHeatData cfg
                    then HEAT_BOX_Y - tget totals_i (KBox Box.heat) * SCALE
                    else 0 in
      let currentYear := year point in
      match find (fun t => (t_year t =? currentYear)%Z) (totals summary) with
      | None => Throw (TypeError "totals is undefined")
      | Some totals0 =>
          let wasteObj := dp_waste point in
          let st0 := {| ys_graph := []; leftY := leftY0; elecY := elecY0;
                        heatY := heatY0; ys_offsets := fun _ => 0;
                        ys_point := point |} in
          st <- fuelsLoop cfg (boxTops summary) totals0 wasteObj 0 FUELS st0 ;;
          Ok ({| gd_year := year point; graph := ys_graph st;
                 gd_totals := totals0; offsets_y := ys_offsets st |},
              ys_point st)
      end
  end.

Fixpoint graphYears (cfg : ConfigurationService.t) (summary : SummaryData)
    (i : nat) (data : list EnergyDataPoint)
  : result (list GraphData * list EnergyDataPoint) :=
  match data with
  | [] => Ok ([], [])
  | point :: rest =>
      r <- graphYear cfg summary i point ;;
      rs <- graphYears cfg summary (S i) rest ;;
      Ok (fst r :: fst rs, snd r :: snd rs)
  end.

(** [calculateGraphY]: the graphs, and the record sequence as the pass
    leaves it. *)
Definition calculateGraphY (cfg : ConfigurationService.t) (summary : SummaryData)
    (data : list EnergyDataPoint)
  : result (list GraphData * list EnergyDataPoint) :=
  graphYears cfg summary 0 data.


(** *** Selecting strokes of a graph

    [graph.filter(p).sort(cmp).forEach(f)] builds a new array that holds
    the same stroke objects; [f] then mutates them in place.  A selection
    is therefore a list of positions into the graph: the strokes are
    compared as they are when the selection is made, and each callback
    reads and writes the stroke stored at its position. *)

Definition numbered (graph : list GraphStroke) : list (nat * GraphStroke) :=
  combine (seq 0 (length graph)) graph.

Definition filtered (p : GraphStroke -> bool) (graph : list GraphStroke)
  : list (nat * GraphStroke) :=
  filter (fun e => p (snd e)) (numbered graph).

Definition sortedBy (cmp : GraphStroke -> GraphStroke -> Z)
    (sel : list (nat * GraphStroke)) : list (nat * GraphStroke) :=
  js_sort (fun e1 e2 => (cmp (snd e1) (snd e2) <? 0)%Z) sel.

(** [forEach((g, j) => ...)] over the selected positions, threading the
    state that the callback closes over. *)
Fixpoint forEach {St : Type} (f : St -> nat -> nat -> St)
    (sel : list nat) (j : nat) (s : St) : St :=
  match sel with
  | [] => s
  | pos :: rest => forEach f rest (S j) (f s pos j)
  end.

Definition box_index (g : GraphStroke) : Z := indexOf Box.eqb (box g) BOX_NAMES.
Definition fuel_index (g : GraphStroke) : Z := indexOf Fuel.eqb (fuel g) FUEL_NAMES.

Definition sortGraphUp (a b : GraphStroke) : Z :=
  if (box_index a <? box_index b)%Z then 1%Z
  else if (box_index a >? box_index b)%Z then (-1)%Z
  else if (fuel_index a <? fuel_index b)%Z then 1%Z
  else if (fuel_index a >? fuel_index b)%Z then (-1)%Z
  else 0%Z.

Definition sortGraphDown (a b : GraphStroke) : Z :=
  if (box_index a <? box_index b)%Z then (-1)%Z
  else if (box_index a >? box_index b)%Z then 1%Z
  else if (fuel_index a <? fuel_index b)%Z then (-1)%Z
  else if (fuel_index a >? fuel_index b)%Z then 1%Z
  else 0%Z.

(** [!['elec', 'heat'].includes(g.box)] *)
Definition notHub (g : GraphStroke) : bool :=
  negb (Box.eqb (box g) Box.elec || Box.eqb (box g) Box.heat).

Definition same_box (cur : option Box.t) (bx : Box.t) : bool :=
  match cur with
  | Some b0 => Box.eqb b0 bx
  | None => false
  end.

(** *** Pass 2: [calculateGraphXUps] and [calculateGraphXDowns] *)

(** State of one year's [forEach]: the graph, [offsets.y], [current_box]. *)
Definition XState : Type := (list GraphStroke * OffestY * option Box.t)%type.

Definition upStep (cfg : ConfigurationService.t) (totals0 : YearTotals)
    (s : XState) (pos j : nat) : XState :=
  let '(gr, offs, current_box) := s in
  match nth_error gr pos with
  | None => s
  | Some g =>
      let '(offs1, c_x) :=
        if negb (same_box current_box (box g)) then
          (oset offs (box g) (stroke g / 2),
           WIDTH cfg - BOX_WIDTH - 20 - stroke g / 2)
        else
          (offs,
           WIDTH cfg - BOX_WIDTH - 20
           - (tget totals0 (KBox (box g)) * SCALE - offs (box g)) / SR3 cfg
           - inject_Z (Z.of_nat j) * ELECTRICITY_GAP cfg * HSR3 cfg) in
      let g1 := with_c g (set_x (c g) c_x) in
      let g2 := with_b g1 (set_x (b g1) (x (c g1) - Qabs (y (a g1) - y (c g1)) / SR3 cfg)) in
      let g3 := with_cc g2
                  (set_x (cc g2)
                     (x (c g2) - Qabs (fuel_height totals0 - y (c g2)) / SR3 cfg)) in
      (update_at pos (fun _ => g3) gr, offs1, Some (box g))
  end.

Definition downStep (cfg : ConfigurationService.t)
    (s : XState) (pos j : nat) : XState :=
  let '(gr, offs, current_box) := s in
  match nth_error gr pos with
  | None => s
  | Some g =>
      let '(offs1, c_x) :=
        if negb (same_box current_box (box g)) then
          (oset offs (box g) (stroke g / 2),
           WIDTH cfg - BOX_WIDTH - 20 - stroke g / 2)
        else
          (offs,
           WIDTH cfg - BOX_WIDTH - 20
           - offs (box g) / SR3 cfg
           - inject_Z (Z.of_nat j) * ELECTRICITY_GAP cfg * HSR3 cfg) in
      let g1 := with_c g (set_x (c g) c_x) in
      let g2 := with_b g1 (set_x (b g1) (x (c g1) - Qabs (y (a g1) - y (c g1)) / SR3 cfg)) in
      let g3 := with_cc g2
                  (set_x (cc g2)
                     (x (c g2) - Qabs (ELECTRICITY_BOX_Y cfg - y (c g2)) / SR3 cfg)) in
      (update_at pos (fun _ => g3) gr, offs1, Some (box g))
  end.

Definition with_graph (gd : GraphData) (gr : list GraphStroke) (offs : OffestY)
  : GraphData :=
  {| gd_year := gd_year gd; graph := gr; gd_totals := gd_totals gd;
     offsets_y := offs |}.

Definition upsYear (cfg : ConfigurationService.t) (gd : GraphData) : GraphData :=
  let sel := sortedBy sortGraphUp
               (filtered (fun g => Qlt_bool (y (d g)) (y (a g)) && notHub g)
                         (graph gd)) in
  let '(gr, offs, _) :=
    forEach (upStep cfg (gd_totals gd)) (map fst sel) 0
            (graph gd, offsets_y gd, None) in
  with_graph gd gr offs.

Definition downsYear (cfg : ConfigurationService.t) (gd : GraphData) : GraphData :=
  let sel := sortedBy sortGraphDown
               (filtered (fun g => Qlt_bool (y (a g)) (y (d g)) && notHub g)
                         (graph gd)) in
  let '(gr, offs, _) :=
    forEach (downStep cfg) (map fst sel) 0
            (graph gd, offsets_y gd, None) in
  with_graph gd gr offs.

Definition calculateGraphXUps (cfg : ConfigurationService.t)
    (graphs : list GraphData) : list GraphData := map (upsYear cfg) graphs.

Definition calculateGraphXDowns (cfg : ConfigurationService.t)
    (graphs : list GraphData) : list GraphData := map (downsYear cfg) graphs.

Definition calculateGraphX (cfg : ConfigurationService.t)
    (graphs : list GraphData) : list GraphData :=
  calculateGraphXDowns cfg (calculateGraphXUps cfg graphs).

(** *** Pass 3: [spaceUpsAndDowns] *)

(** One callback of the first [forEach]: [prev] is the position of the
    stroke handled by the previous callback.  (The variable is declared
    outside the years loop, but every year's first callback assigns it
    before any other callback reads it.) *)
Definition spaceStep (cfg : ConfigurationService.t)
    (s : list GraphStroke * option nat) (pos j : nat)
  : list GraphStroke * option nat :=
  let '(gr, prev) := s in
  if Nat.eqb j 0 then (gr, Some pos)
  else
    match nth_error gr pos, prev with
    | Some g, Some ppos =>
        match nth_error gr ppos with
        | Some pg =>
            let pathGap := if Qeq_bool (stroke g) 0 then 0
                           else PATH_GAP * HSR3 cfg in
            let diff := pathGap - ((x (cc pg) - stroke pg / 2)
                                   - (x (cc g) + stroke g / 2)) in
            let g1 := with_cc g (set_x (cc g) (x (cc g) - diff)) in
            let g2 := with_c g1 (set_x (c g1) (x (c g1) - diff)) in
            let g3 := with_b g2 (set_x (b g2) (x (b g2) - diff)) in
            (update_at pos (fun _ => g3) gr, Some pos)
        | None => s
        end
    | _, _ => s
    end.

Definition anchorStep (cfg : ConfigurationService.t) (max_cc : Q)
    (gr : list GraphStroke) (pos j : nat) : list GraphStroke :=
  update_at pos
    (fun g =>
       let diff := max_cc - (WIDTH cfg - BOX_WIDTH - 50) in
       let g1 := with_c g (set_x (c g) (x (c g) - diff)) in
       with_b g1 (set_x (b g1) (x (b g1) - diff)))
    gr.

Definition spaceYear (cfg : ConfigurationService.t) (gd : GraphData)
  : result GraphData :=
  let gr1 := js_sort (fun p q => Qlt_bool (x (cc q) - x (cc p)) 0) (graph gd) in
  let sel := map fst (filtered notHub gr1) in
  let '(gr2, _) := forEach (spaceStep cfg) sel 0 (gr1, None) in
  max_cc <- finite (math_max (map (fun o => x (cc o)) gr2)) ;;
  let sel' := map fst (filtered notHub gr2) in
  let gr3 := forEach (anchorStep cfg max_cc) sel' 0 gr2 in
  Ok (with_graph gd gr3 (offsets_y gd)).

Definition spaceUpsAndDowns (cfg : ConfigurationService.t)
    (graphs : list GraphData) : result (list GraphData) :=
  mapM (spaceYear cfg) graphs.

(** *** Pass 4: [processWasteHeatFlows] *)

Definition wasteStep (s : list GraphStroke * option nat) (pos j : nat)
  : list GraphStroke * option nat :=
  let '(gr, prev_graph) := s in
  if negb (Nat.eqb (Nat.modulo j 2) 0) then
    match nth_error gr pos with
    | None => s
    | Some g =>
        let g1 := with_fuel g Fuel.waste in
        let g' :=
          match prev_graph with
          | Some ppos =>
              match nth_error gr ppos with
              | Some pg =>
                  let total_stroke := Qabs (stroke pg + stroke g1) in
                  let g2 := with_a g1 (set_y (a g1) (y (a pg) + total_stroke / 2)) in
                  let g3 := with_b g2 (set_y (b g2) (y (a g2))) in
                  let g4 := with_b g3 (set_x (b g3) (x (b pg) - total_stroke / (35 # 10))) in
                  let g5 := with_c g4 (set_x (c g4) (x (c pg) - total_stroke / (35 # 10))) in
                  let g6 := with_c g5 (set_y (c g5) (y (c pg) + total_stroke / 2)) in
                  with_d g6 (set_y (d g6) (y (c g6)))
              | None => g1
              end
          | None => g1
          end in
        (update_at pos (fun _ => g') gr, prev_graph)
    end
  else (gr, Some pos).

Definition wasteYear (gd : GraphData) : GraphData :=
  let sel := sortedBy sortGraphDown
               (filtered (fun g => Fuel.eqb (fuel g) Fuel.elec) (graph gd)) in
  let '(gr, _) := forEach wasteStep (map fst sel) 0 (graph gd, None) in
  with_graph gd gr (offsets_y gd).

Definition processWasteHeatFlows (graphs : list GraphData) : list GraphData :=
  map wasteYear graphs.

(** *** [buildGraphs]: the whole pipeline *)

Definition buildGraphs (cfg : ConfigurationService.t) (summary : SummaryData)
    (data : list EnergyDataPoint)
  : result (list GraphData * list EnergyDataPoint) :=
  r <- calculateGraphY cfg summary data ;;
  let graphs1 := calculateGraphX cfg (fst r) in
  graphs2 <- spaceUpsAndDowns cfg graphs1 ;;
  Ok (processWasteHeatFlows graphs2, snd r).

End GraphService.

(* ------------------------------------------------------------------ *)
(** ** AnimationService: the playback state machine *)

Module AnimationService.

Record AnimationState : Type := {
  currentYearIndex : Z;
  isAnimating : bool;
  animationTimer : option positive;
  speed : Q
}.

(** Events handed to [eventBus.emit]. *)
Inductive Event : Type :=
| YearChanged (year previousYear yearIndex : Z) (isAnimating : bool)
| AnimationStarted (currentYear : Z) (speed : Q)
| AnimationStopped (currentYear : Z) (speed : Q)
| SpeedChanged (speed : Q).

(** One-shot callbacks queued with [setTimeout]. *)
Inductive Callback : Type :=
| CallPlay.

(** The service state together with the part of the host it acts on: the
    handles of the running [setInterval] timers (each one calls
    [nextFrame]), the handle the host hands out next, the queued one-shot
    callbacks, the year last drawn by [setYear] and the emitted events. *)
Record World : Type := {
  state : AnimationState;
  intervals : list positive;
  nextHandle : positive;
  timeouts : list Callback;
  shownYear : option Z;
  emitted : list Event
}.

Definition with_state (w : World) (s : AnimationState) : World :=
  {| state := s; intervals := intervals w; nextHandle := nextHandle w;
     timeouts := timeouts w; shownYear := shownYear w; emitted := emitted w |}.

Definition emit (w : World) (e : Event) : World :=
  {| state := state w; intervals := intervals w; nextHandle := nextHandle w;
     timeouts := timeouts w; shownYear := shownYear w;
     emitted := emitted w ++ [e] |}.

Definition set_index (s : AnimationState) (i : Z) : AnimationState :=
  {| currentYearIndex := i; isAnimating := isAnimating s;
     animationTimer := animationTimer s; speed := speed s |}.

Section Service.
Variable dataService : DataService.t.
(** [options.loopAnimation] *)
Variable loopAnimation : bool.

(** [years[currentYearIndex] || firstYear] *)
Definition getCurrentYear (w : World) : Z :=
  match at_index (DataService.years dataService) (currentYearIndex (state w)) with
  | Some y => if (y =? 0)%Z then DataService.firstYear dataService else y
  | None => DataService.firstYear dataService
  end.

Definition isPlaying (w : World) : bool := isAnimating (state w).

Definition setYear (year : Z) (w : World) : World :=
  let yearIndex := DataService.getYearIndex dataService year in
  if (yearIndex =? -1)%Z then w
  else
    let previousYear := getCurrentYear w in
    let w1 := with_state w (set_index (state w) yearIndex) in
    let w2 := {| state := state w1; intervals := intervals w1;
                 nextHandle := nextHandle w1; timeouts := timeouts w1;
                 shownYear := Some year; emitted := emitted w1 |} in
    emit w2 (YearChanged year previousYear yearIndex (isAnimating (state w2))).

Definition play (w : World) : World :=
  if isAnimating (state w) then w
  else
    let h := nextHandle w in
    let s := {| currentYearIndex := currentYearIndex (state w);
                isAnimating := true;
                animationTimer := Some h;
                speed := speed (state w) |} in
    let w1 := {| state := s; intervals := h :: intervals w;
                 nextHandle := Pos.succ h; timeouts := timeouts w;
                 shownYear := shownYear w; emitted := emitted w |} in
    emit w1 (AnimationStarted (getCurrentYear w1) (speed s)).

Definition pause (w : World) : World :=
  if negb (isAnimating (state w)) then w
  else
    let w1 :=
      match animationTimer (state w) with
      | Some h =>
          {| state := {| currentYearIndex := currentYearIndex (state w);
                         isAnimating := false;
                         animationTimer := None;
                         speed := speed (state w) |};
             intervals := filter (fun h' => negb (Pos.eqb h' h)) (intervals w);
             nextHandle := nextHandle w; timeouts := timeouts w;
             shownYear := shownYear w; emitted := emitted w |}
      | None =>
          with_state w {| currentYearIndex := currentYearIndex (state w);
                          isAnimating := false;
                          animationTimer := None;
                          speed := speed (state w) |}
      end in
    emit w1 (AnimationStopped (getCurrentYear w1) (speed (state w1))).

Definition nextYear (w : World) : World :=
  if (currentYearIndex (state w) <? DataService.yearsLength dataService - 1)%Z
  then
    let w1 := with_state w (set_index (state w) (currentYearIndex (state w) + 1)) in
    match at_index (DataService.years dataService) (currentYearIndex (state w1)) with
    | Some y => setYear y w1
    | None => w1
    end
  else w.

Definition previousYear (w : World) : World :=
  if (currentYearIndex (state w) >? 0)%Z
  then
    let w1 := with_state w (set_index (state w) (currentYearIndex (state w) - 1)) in
    match at_index (DataService.years dataService) (currentYearIndex (state w1)) with
    | Some y => setYear y w1
    | None => w1
    end
  else w.

Definition nextFrame (w : World) : World :=
  if (currentYearIndex (state w) + 1 >=? DataService.yearsLength dataService)%Z
  then
    let w1 := with_state w (set_index (state w) 0) in
    if negb loopAnimation then pause w1
    else nextYear w1
  else nextYear w.

(** [setSpeed] either returns or throws; in both cases the caller is
    left with the world as the call made it. *)
Definition setSpeed (s : Q) (w : World) : World * option Exn :=
  if Qle_bool s 0 then (w, Some (Error "Animation speed must be positive"))
  else
    let w1 := with_state w {| currentYearIndex := currentYearIndex (state w);
                              isAnimating := isAnimating (state w);
                              animationTimer := animationTimer (state w);
                              speed := s |} in
    let w2 :=
      if isAnimating (state w1)
      then
        let w' := pause w1 in
        {| state := state w'; intervals := intervals w';
           nextHandle := nextHandle w'; timeouts := timeouts w' ++ [CallPlay];
           shownYear := shownYear w'; emitted := emitted w' |}
      else w1 in
    (emit w2 (SpeedChanged s), None).

Definition cleanup (w : World) : World :=
  let w1 := pause w in
  with_state w1 {| currentYearIndex := 0; isAnimating := false;
                   animationTimer := animationTimer (state w1);
                   speed := speed (state w1) |}.

(** The host fires the interval timer with handle [h]: its callback runs
    if the timer has not been cleared. *)
Definition tick (h : positive) (w : World) : World :=
  if existsb (Pos.eqb h) (intervals w) then nextFrame w else w.

(** The host runs a queued one-shot callback. *)
Definition runCallback (cb : Callback) (w : World) : World :=
  match cb with
  | CallPlay => play w
  end.

(** The service as [setupAnimation] leaves it. *)
Definition setupAnimation (speed0 : Q) : World :=
  setYear (DataService.firstYear dataService)
    {| state := {| currentYearIndex := 0; isAnimating := false;
                   animationTimer := None; speed := speed0 |};
       intervals := []; nextHandle := 1%positive; timeouts := [];
       shownYear := None; emitted := [] |}.

(** The host runs the oldest queued one-shot callback and drops it from
    the queue (all of them are queued with the same delay). *)
Definition runTimeout (w : World) : World :=
  match timeouts w with
  | [] => w
  | cb :: rest =>
      runCallback cb
        {| state := state w; intervals := intervals w;
           nextHandle := nextHandle w; timeouts := rest;
           shownYear := shownYear w; emitted := emitted w |}
  end.
End Service.

End AnimationService.

(* ------------------------------------------------------------------ *)
(** ** Sankey: the public facade *)

Module Sankey.

(** The orchestrator's own fields.  [animationService] and
    [dataServiceRef] tell whether [services.animationService] and
    [services.dataService] are set; [subscriptions] are the event-bus
    subscriptions the facade tracks and [busHandlers] those the bus holds. *)
Record Facade : Type := {
  initialized : bool;
  destroyed : bool;
  animationService : bool;
  dataServiceRef : bool;
  subscriptions : list nat;
  busHandlers : list nat;
  svg : bool;
  tooltip : bool;
  wasteHeatVisible : bool
}.

(** The facade and the animation service object it created.  The service
    object outlives the reference the facade holds to it: the interval
    callback keeps it reachable. *)
Record System : Type := {
  facade : Facade;
  world : AnimationService.World
}.

Section Api.
Variable dataService : DataService.t.
Variable loopAnimation : bool.
(** [options.data], the caller's array *)
Variable optionsData : list EnergyDataPoint.

Definition onService (f : AnimationService.World -> AnimationService.World)
    (sys : System) : System :=
  if negb (initialized (facade sys)) then sys
  else if animationService (facade sys)
       then {| facade := facade sys; world := f (world sys) |}
       else sys.

Definition play : System -> System :=
  onService (AnimationService.play dataService).

Definition pause : System -> System :=
  onService (AnimationService.pause dataService).

Definition setYear (year : Z) : System -> System :=
  onService (AnimationService.setYear dataService year).

Definition setSpeed (s : Q) (sys : System) : System * option Exn :=
  if negb (initialized (facade sys)) then (sys, None)
  else if animationService (facade sys)
       then
         let '(w, thrown) := AnimationService.setSpeed dataService s (world sys) in
         ({| facade := facade sys; world := w |}, thrown)
       else (sys, None).

Definition isPlaying (sys : System) : bool :=
  if negb (initialized (facade sys)) then false
  else animationService (facade sys)
       && AnimationService.isPlaying (world sys).

(** Falls back to the data service, then to [options.data[0]?.year || 1800]. *)
Definition getCurrentYear (sys : System) : Z :=
  if animationService (facade sys)
  then AnimationService.getCurrentYear dataService (world sys)
  else if dataServiceRef (facade sys)
  then DataService.firstYear dataService
  else match optionsData with
       | p :: _ => if (year p =? 0)%Z then 1800%Z else year p
       | [] => 1800%Z
       end.


(** [destroy]: unsubscribes and clears the bus, removes the DOM nodes,
    drops the service references and flips the two flags.  It makes no
    call into the services. *)
Definition destroy (sys : System) : System :=
  let f := facade sys in
  if destroyed f then sys
  else
    {| facade := {| initialized := false; destroyed := true;
                    animationService := false;
                    dataServiceRef := false;
                    subscriptions := [];
                    busHandlers := [];
                    svg := false; tooltip := false;
                    wasteHeatVisible := wasteHeatVisible f |};
       world := world sys |}.

(** The timer callback lives in the host, not in the facade. *)
Definition tick (h : positive) (sys : System) : System :=
  {| facade := facade sys;
     world := AnimationService.tick dataService loopAnimation h (world sys) |}.

(** The system right after a successful initialisation. *)
Definition ready (speed0 : Q) (showWasteHeat : bool) : System :=
  {| facade := {| initialized := true; destroyed := false;
                  animationService := true;
                  dataServiceRef := true;
                  subscriptions := [0%nat; 1%nat];
                  busHandlers := [0%nat; 1%nat];
                  svg := true; tooltip := true;
                  wasteHeatVisible := showWasteHeat |};
     world := AnimationService.setupAnimation dataService speed0 |}.
End Api.

End Sankey.

(* ------------------------------------------------------------------ *)
(** ** Service construction (the order of [Sankey.initialize]) *)

Module Services.

Record t : Type := {
  config : ConfigurationService.t;
  dataService : DataService.t;
  summary : SummaryService.SummaryData;
  graphs : list GraphService.GraphData;
  (** the record sequence as graph precomputation leaves it *)
  dataAfter : list EnergyDataPoint
}.

Definition with_hasHeatData (cfg : ConfigurationService.t) (h : bool)
  : ConfigurationService.t :=
  {| ConfigurationService.hasHeatData := h;
     ConfigurationService.WIDTH := ConfigurationService.WIDTH cfg;
     ConfigurationService.SR3 := ConfigurationService.SR3 cfg;
     ConfigurationService.HSR3 := ConfigurationService.HSR3 cfg;
     ConfigurationService.ELECTRICITY_BOX_X := ConfigurationService.ELECTRICITY_BOX_X cfg;
     ConfigurationService.ELECTRICITY_BOX_Y := ConfigurationService.ELECTRICITY_BOX_Y cfg;
     ConfigurationService.LEFT_Y := ConfigurationService.LEFT_Y cfg;
     ConfigurationService.ELECTRICITY_GAP := ConfigurationService.ELECTRICITY_GAP cfg |}.

(** Data service (which validates), then the summary, then the graphs. *)
Definition create (cfg0 : ConfigurationService.t) (energyData : list EnergyDataPoint)
  : result t :=
  r <- DataService.new energyData ;;
  let ds := fst r in
  let cfg := with_hasHeatData cfg0 (snd r) in
  sm <- SummaryService.buildSummary (snd r) ds ;;
  g <- GraphService.buildGraphs cfg sm (DataService.data ds) ;;
  Ok {| config := cfg; dataService := ds; summary := sm;
        graphs := fst g; dataAfter := snd g |}.

End Services.

(* ------------------------------------------------------------------ *)
(** ** EventBus: the subscription registry

    The registry and its statistics are modelled as the code updates them.
    Handlers are function objects: only their identity matters here, and a
    natural number stands for it.  The dispatch that [emit] defers to a
    microtask is recorded as scheduled; running the handlers is outside the
    model. *)

Module EventBus.
Local Open Scope Z_scope.

(** [SankeyEventType] *)
Inductive SankeyEventType : Type :=
| data_loaded | data_validated
| calculation_completed
| year_changing | year_changed | timeline_updated
| animation_started | animation_stopped | speed_changed
| rendering_started | rendering_completed
| interaction_hover | interaction_click | interaction_keypress
| interaction_slider | interaction_button
| system_initialized | system_ready | system_error
| dimensions_changed.

Definition type_eq_dec : forall a b : SankeyEventType, {a = b} + {a <> b}.
Proof. decide equality. Defined.

(** A JavaScript [Map], or an object used as one: the entries in
    insertion order.  [set] on a present key replaces its value in place, on
    an absent key it appends; [delete] removes the key. *)
Section Maps.
Context {K V : Type} (eq_dec : forall a b : K, {a = b} + {a <> b}).

Fixpoint lookup (k : K) (m : list (K * V)) : option V :=
  match m with
  | [] => None
  | (k', v) :: m' => if eq_dec k' k then Some v else lookup k m'
  end.

Fixpoint set (k : K) (v : V) (m : list (K * V)) : list (K * V) :=
  match m with
  | [] => [(k, v)]
  | (k', v') :: m' =>
      if eq_dec k' k then (k, v) :: m' else (k', v') :: set k v m'
  end.

Definition delete (k : K) (m : list (K * V)) : list (K * V) :=
  filter (fun e => if eq_dec (fst e) k then false else true) m.
End Maps.

(** A [Set] of handlers, in insertion order. *)
Definition set_add (h : nat) (s : list nat) : list nat :=
  if in_dec Nat.eq_dec h s then s else s ++ [h].

Definition set_delete (h : nat) (s : list nat) : list nat :=
  remove Nat.eq_dec h s.

Record EventSubscription : Type := {
  id : string;
  eventType : SankeyEventType;
  handler : nat;
  createdAt : Z
}.

Record Stats : Type := {
  totalSubscriptions : Z;
  subscriptionsByType : list (SankeyEventType * Z);
  totalEventsEmitted : Z;
  eventsByType : list (SankeyEventType * Z);
  averageHandlerTime : Q;
  errorCount : Z
}.

Record t : Type := {
  handlers : list (SankeyEventType * list nat);
  subscriptions : list (string * EventSubscription);
  stats : Stats;
  handlerTimes : list Q;
  (** the event types whose dispatch has been handed to the microtask
      queue *)
  scheduled : list SankeyEventType
}.

Definition MAX_HANDLER_TIMES : nat := 100.

(** [counts[k] || 0] *)
Definition countOr0 (counts : list (SankeyEventType * Z)) (k : SankeyEventType) : Z :=
  match lookup type_eq_dec k counts with
  | Some v => v
  | None => 0
  end.

Definition emptyStats : Stats :=
  {| totalSubscriptions := 0; subscriptionsByType := [];
     totalEventsEmitted := 0; eventsByType := [];
     averageHandlerTime := 0%Q; errorCount := 0 |}.

Definition new : t :=
  {| handlers := []; subscriptions := []; stats := emptyStats;
     handlerTimes := []; scheduled := [] |}.

(** [subscribe]: [newId] is the identifier [generateSubscriptionId]
    produces and [now] the value of [Date.now()]. *)
Definition subscribe (newId : string) (now : Z) (ty : SankeyEventType)
    (h : nat) (bus : t) : t * EventSubscription :=
  let hs0 :=
    match lookup type_eq_dec ty (handlers bus) with
    | Some _ => handlers bus
    | None => set type_eq_dec ty [] (handlers bus)
    end in
  let hs1 :=
    match lookup type_eq_dec ty hs0 with
    | Some s => set type_eq_dec ty (set_add h s) hs0
    | None => hs0
    end in
  let subscription :=
    {| id := newId; eventType := ty; handler := h; createdAt := now |} in
  let st := stats bus in
  ( {| handlers := hs1;
       subscriptions := set string_dec newId subscription (subscriptions bus);
       stats :=
         {| totalSubscriptions := totalSubscriptions st + 1;
            subscriptionsByType :=
              set type_eq_dec ty (countOr0 (subscriptionsByType st) ty + 1)
                  (subscriptionsByType st);
            totalEventsEmitted := totalEventsEmitted st;
            eventsByType := eventsByType st;
            averageHandlerTime := averageHandlerTime st;
            errorCount := errorCount st |};
       handlerTimes := handlerTimes bus;
       scheduled := scheduled bus |},
    subscription).

Definition unsubscribe (subscription : EventSubscription) (bus : t) : t :=
  let ty := eventType subscription in
  let hs :=
    match lookup type_eq_dec ty (handlers bus) with
    | Some s =>
        let s' := set_delete (handler subscription) s in
        match s' with
        | [] => delete type_eq_dec ty (handlers bus)
        | _ => set type_eq_dec ty s' (handlers bus)
        end
    | None => handlers bus
    end in
  let wasSubscribed :=
    match lookup string_dec (id subscription) (subscriptions bus) with
    | Some _ => true
    | None => false
    end in
  let st := stats bus in
  {| handlers := hs;
     subscriptions := delete string_dec (id subscription) (subscriptions bus);
     stats :=
       if wasSubscribed
       then
         {| totalSubscriptions := Z.max 0 (totalSubscriptions st - 1);
            subscriptionsByType :=
              set type_eq_dec ty
                  (Z.max 0 (countOr0 (subscriptionsByType st) ty - 1))
                  (subscriptionsByType st);
            totalEventsEmitted := totalEventsEmitted st;
            eventsByType := eventsByType st;
            averageHandlerTime := averageHandlerTime st;
            errorCount := errorCount st |}
       else st;
     handlerTimes := handlerTimes bus;
     scheduled := scheduled bus |}.

(** [clear]: the registry and the statistics are reset; dispatches already
    handed to the microtask queue are not recalled. *)
Definition clear (bus : t) : t :=
  {| handlers := []; subscriptions := []; stats := emptyStats;
     handlerTimes := []; scheduled := scheduled bus |}.

(** The synchronous part of [emit]. *)
Definition emit (ty : SankeyEventType) (bus : t) : t :=
  match lookup type_eq_dec ty (handlers bus) with
  | None | Some [] => bus
  | Some _ =>
      let st := stats bus in
      {| handlers := handlers bus;
         subscriptions := subscriptions bus;
         stats :=
           {| totalSubscriptions := totalSubscriptions st;
              subscriptionsByType := subscriptionsByType st;
              totalEventsEmitted := totalEventsEmitted st + 1;
              eventsByType :=
                set type_eq_dec ty (countOr0 (eventsByType st) ty + 1)
                    (eventsByType st);
              averageHandlerTime := averageHandlerTime st;
              errorCount := errorCount st |};
         handlerTimes := handlerTimes bus;
         scheduled := scheduled bus ++ [ty] |}
  end.

(** [recordHandlerTime]: push, then drop the oldest entry when the buffer
    has grown beyond [MAX_HANDLER_TIMES]. *)
Definition recordHandlerTime (time : Q) (bus : t) : t :=
  let pushed := handlerTimes bus ++ [time] in
  {| handlers := handlers bus;
     subscriptions := subscriptions bus;
     stats := stats bus;
     handlerTimes :=
       if Nat.ltb MAX_HANDLER_TIMES (length pushed) then tl pushed else pushed;
     scheduled := scheduled bus |}.

(** [Math.round(average * 1000) / 1000] of the mean of the buffer, in exact
    arithmetic.  The code computes the mean and the rounding in floating
    point, so its answer can differ from this one where the mean lies next
    to a rounding boundary; of [getStats], only the subscription counts are
    used below. *)
Definition calculateAverageHandlerTime (bus : t) : Q :=
  match handlerTimes bus with
  | [] => 0%Q
  | times =>
      let sum := fold_left Qplus times 0%Q in
      let average := (sum / inject_Z (Z.of_nat (length times)))%Q in
      (inject_Z (Qfloor (average * 1000 + (1 # 2))) / 1000)%Q
  end.

Definition getStats (bus : t) : Stats :=
  let st := stats bus in
  {| totalSubscriptions := totalSubscriptions st;
     subscriptionsByType := subscriptionsByType st;
     totalEventsEmitted := totalEventsEmitted st;
     eventsByType := eventsByType st;
     averageHandlerTime := calculateAverageHandlerTime bus;
     errorCount := errorCount st |}.

(** The buses a program can reach: subscription identifiers are fresh, and
    what is passed to [unsubscribe] is a subscription object that
    [subscribe] returned. *)
Inductive reachable : t -> Prop :=
| reach_new : reachable new
| reach_subscribe bus newId now ty h :
    reachable bus ->
    lookup string_dec newId (subscriptions bus) = None ->
    reachable (fst (subscribe newId now ty h bus))
| reach_unsubscribe bus subscription :
    reachable bus ->
    (forall stored,
        lookup string_dec (id subscription) (subscriptions bus) = Some stored ->
        stored = subscription) ->
    reachable (unsubscribe subscription bus)
| reach_clear bus : reachable bus -> reachable (clear bus)
| reach_emit bus ty : reachable bus -> reachable (emit ty bus)
| reach_record bus time : reachable bus -> reachable (recordHandlerTime time bus).

(** The number of subscription records of an event type. *)
Definition recordsOf (ty : SankeyEventType) (bus : t) : nat :=
  length (filter (fun e => if type_eq_dec (eventType (snd e)) ty then true else false)
                 (subscriptions bus)).

End EventBus.

(* ------------------------------------------------------------------ *)
(** ** Quantities the stated properties speak about *)

Module Props.
Import ConfigurationService SummaryService.
Local Open Scope Q_scope.

Definition Qsum (xs : list Q) : Q := fold_right Qplus 0 xs.

(** The sectors that take part when heat data is absent or present. *)
Definition activeBoxes (hasHeat : bool) : list Box.t :=
  if hasHeat then BOX_NAMES
  else filter (fun b => negb (Box.eqb b Box.heat)) BOX_NAMES.

Definition endUse : list Box.t := [Box.res; Box.ag; Box.indus; Box.trans].

(** The nine primary fuels (everything but electricity and heat). *)
Definition primaryFuels : list Fuel.t := skipn 2 FUELS.

Definition electricityOnly : list Fuel.t :=
  [Fuel.solar; Fuel.nuclear; Fuel.hydro; Fuel.wind; Fuel.geo].

Definition fossil : list Fuel.t := [Fuel.gas; Fuel.coal; Fuel.bio; Fuel.petro].

Definition sumOver (o : EnergySectorBreakdown) (boxes : list Box.t) : Q :=
  Qsum (map (sb_get o) boxes).

Definition sectorTotals (t : YearTotals) (boxes : list Box.t) : Q :=
  Qsum (map (fun b => tget t (KBox b)) boxes).

Definition fuelTotals (t : YearTotals) : Q :=
  Qsum (map (fun f => tget t (key_of_fuel f)) primaryFuels).

Definition wasteTotal (t : YearTotals) : Q := tget t (KFuel Fuel.waste).

(** Electricity delivered to the consuming sectors. *)
Definition electricityConsumption (hasHeat : bool) (p : EnergyDataPoint) : Q :=
  sumOver (dp_elec p)
          (filter (fun b => negb (Box.eqb b Box.elec)) (activeBoxes hasHeat)).

(** Heat delivered to the other sectors (heat datasets only). *)
Definition heatConsumption (hasHeat : bool) (p : EnergyDataPoint) : Q :=
  match hasHeat, dp_heat p with
  | true, Some h =>
      sumOver h (filter (fun b => negb (Box.eqb b Box.heat)) BOX_NAMES)
  | _, _ => 0
  end.

(** Conservation as the specification words it. *)
Definition conservation_as_stated (p : EnergyDataPoint) (t : YearTotals) : Prop :=
  sectorTotals t endUse
  == fuelTotals t + sumOver (dp_elec p) endUse + wasteTotal t.

Definition sb_nonneg (o : EnergySectorBreakdown) : Prop :=
  0 <= sb_elec o /\ 0 <= sb_res o /\ 0 <= sb_ag o /\ 0 <= sb_indus o
  /\ 0 <= sb_trans o /\ 0 <= sb_heat o.

(** Every energy quantity of the record is non-negative. *)
Definition dp_nonneg (p : EnergyDataPoint) : Prop :=
  (forall f o, dp_get p f = Some o -> sb_nonneg o).

Definition increasing (bt : BoxTops) : Prop :=
  bt_res bt < bt_ag bt /\ bt_ag bt < bt_indus bt /\ bt_indus bt < bt_trans bt.

(** The stroke-value law for one stroke. *)
Definition stroke_law (g : GraphService.GraphStroke) : Prop :=
  GraphService.stroke g == GraphService.value g * SCALE.

(** Per-fuel totals as the specification words them: electricity-only
    fuels summed over the five sectors, the other primary fuels over the
    four end-use sectors only. *)
Definition fuel_totals_as_stated (p : EnergyDataPoint) (t : YearTotals) : Prop :=
  (forall f o, In f electricityOnly -> dp_get p f = Some o ->
               tget t (key_of_fuel f) == sumOver o (Box.elec :: endUse))
  /\ (forall f o, In f fossil -> dp_get p f = Some o ->
                  tget t (key_of_fuel f) == sumOver o endUse).

(** What the last-year tick does, as the specification words it: with
    looping the first year is shown; without looping the engine stops, its
    timer is cleared and the year index stays where it was. *)
Definition last_tick_as_stated (ds : DataService.t) (loop : bool)
    (h : positive) (w : AnimationService.World) : Prop :=
  let w' := AnimationService.tick ds loop h w in
  if loop
  then AnimationService.getCurrentYear ds w' = DataService.firstYear ds
  else AnimationService.isPlaying w' = false
       /\ ~ In h (AnimationService.intervals w')
       /\ AnimationService.currentYearIndex (AnimationService.state w')
          = AnimationService.currentYearIndex (AnimationService.state w).

(** The record sequence is ordered by year. *)
Definition sortedYears (l : list EnergyDataPoint) : Prop :=
StronglySorted Z.le (map year l).

(** The law holds for every stroke of a graph that a pass is working on
    (the graph is the first component of the pass's loop state). *)
Definition xlaw (s : GraphService.XState) : Prop :=
Forall stroke_law (fst (fst s)).

Definition plaw (s : list GraphService.GraphStroke * option nat) : Prop :=
Forall stroke_law (fst s).

(** All-or-nothing heat data: when the configuration flag is set, every
    record carries the [heat] key. *)
Definition heat_uniform (hasHeat : bool) (data : list EnergyDataPoint) : Prop :=
hasHeat = true -> forall p, In p data -> dp_heat p <> None.

(** The record a year's pass-1 loop works on has the [heat] key whenever
    the configuration flag is set. *)
Definition heat_ready (cfg : ConfigurationService.t) (st : GraphService.YState) : Prop :=
ConfigurationService.hasHeatData cfg = true ->
dp_heat (GraphService.ys_point st) <> None.

(** Same energy values, sector by sector. *)
Definition same_energy (o o' : EnergySectorBreakdown) : Prop :=
  forall b, sb_get o' b = sb_get o b.

(** Two records agree on the year, the milestone and every
    (fuel, sector) energy value. *)
Definition same_values (p p' : EnergyDataPoint) : Prop :=
  year p' = year p
  /\ milestone p' = milestone p
  /\ forall f,
       match dp_get p f, dp_get p' f with
       | Some o, Some o' => same_energy o o'
       | None, None => True
       | _, _ => False
       end.

(** [fuelObj[boxName] > 0] for the entry of fuel [f] and sector [b]. *)
Definition positiveEntry (p : EnergyDataPoint) (b : Box.t) (f : Fuel.t) : bool :=
  match dp_get p f with
  | Some o => Qlt_bool 0 (sb_get o b)
  | None => false
  end.

(** *** Quantities of a drawn graph *)

(** The stroke width pass 1 computes for an energy value: twice the half
    stroke. *)
Definition strokeOf (v : Q) : Q := v * SCALE / 2 * 2.

(** What identifies a stroke apart from its coordinates. *)
Definition Sig : Type := (Fuel.t * Box.t * Q * Q)%type.

Definition sig_fuel (s : Sig) : Fuel.t := fst (fst (fst s)).

Definition fsig (g : GraphService.GraphStroke) : Sig :=
  (GraphService.fuel g, GraphService.box g, GraphService.value g,
   GraphService.stroke g).

(** The same with a waste stroke counted as the electricity stroke it was
    before pass 4 renamed it. *)
Definition coarse (g : GraphService.GraphStroke) : Sig :=
  (if Fuel.eqb (GraphService.fuel g) Fuel.waste then Fuel.elec
   else GraphService.fuel g,
   GraphService.box g, GraphService.value g, GraphService.stroke g).

(** The strokes of one fuel, in the order of its flow paths: one per
    sector other than the fuel's own box (and other than [heat] without heat
    data); an electricity stroke is followed by its waste-heat clone. *)
Definition expectedFor (hasHeat : bool) (p : EnergyDataPoint) (f : Fuel.t)
  : list Sig :=
  match dp_get p f with
  | None => []
  | Some o =>
      flat_map
        (fun bx =>
           if same_name f bx then []
           else if negb hasHeat && Box.eqb bx Box.heat then []
           else (f, bx, sb_get o bx, strokeOf (sb_get o bx))
                :: (if Fuel.eqb f Fuel.elec
                    then [(f, bx, sb_get (dp_waste p) bx,
                           strokeOf (sb_get (dp_waste p) bx))]
                    else []))
        (GraphService.boxesFor f)
  end.

Definition expectedStrokes (hasHeat : bool) (p : EnergyDataPoint) : list Sig :=
  flat_map (expectedFor hasHeat p)
           (filter (fun f => negb (negb hasHeat && Fuel.eqb f Fuel.heat)) FUELS).

(** *** The rolling window of handler times *)

(** Recording the listed times one after the other. *)
Definition recordAll (times : list Q) (bus : EventBus.t) : EventBus.t :=
  fold_left (fun b time => EventBus.recordHandlerTime time b) times bus.

(** The last [n] entries of a list. *)
Definition lastn {A : Type} (n : nat) (l : list A) : list A :=
  skipn (length l - n) l.

(** *** Histories of the animation service *)

(** What can happen to the animation service after set-up: a call of its
    public interface, the host firing the interval timer with some handle,
    or the host running the oldest queued one-shot callback. *)
Inductive Step : Type :=
| DoPlay
| DoPause
| DoSetYear (y : Z)
| DoNextYear
| DoPreviousYear
| DoSetSpeed (s : Q)
| DoCleanup
| Fire (h : positive)
| RunTimeout.

Definition step (ds : DataService.t) (loop : bool) (a : Step)
    (w : AnimationService.World) : AnimationService.World :=
  match a with
  | DoPlay => AnimationService.play ds w
  | DoPause => AnimationService.pause ds w
  | DoSetYear y => AnimationService.setYear ds y w
  | DoNextYear => AnimationService.nextYear ds w
  | DoPreviousYear => AnimationService.previousYear ds w
  | DoSetSpeed s => fst (AnimationService.setSpeed ds s w)
  | DoCleanup => AnimationService.cleanup ds w
  | Fire h => AnimationService.tick ds loop h w
  | RunTimeout => AnimationService.runTimeout ds w
  end.

Definition run (ds : DataService.t) (loop : bool) (history : list Step)
    (w : AnimationService.World) : AnimationService.World :=
  fold_left (fun w a => step ds loop a w) history w.

(** Timer discipline: while playing, exactly one interval timer is
    registered with the host and it is the one the state remembers; while
    stopped, none is. *)
Definition timer_ok (w : AnimationService.World) : Prop :=
  if AnimationService.isAnimating (AnimationService.state w)
  then exists h,
         AnimationService.animationTimer (AnimationService.state w) = Some h
         /\ AnimationService.intervals w = [h]
  else AnimationService.animationTimer (AnimationService.state w) = None
       /\ AnimationService.intervals w = [].

(** The year index addresses a record. *)
Definition index_ok (ds : DataService.t) (w : AnimationService.World) : Prop :=
  (0 <= AnimationService.currentYearIndex (AnimationService.state w)
   < DataService.yearsLength ds)%Z.

(** [k] firings of the interval timer [h] in a row. *)
Definition ticks (ds : DataService.t) (loop : bool) (h : positive) (k : nat)
    (w : AnimationService.World) : AnimationService.World :=
  Nat.iter k (AnimationService.tick ds loop h) w.

(** *** Histories of the facade *)




End Props.

(* ------------------------------------------------------------------ *)
(** ** Sample inputs *)

Module Samples.
Local Open Scope Q_scope.

Definition mkB (e r g i t : Q) : EnergySectorBreakdown :=
  {| sb_elec := e; sb_res := r; sb_ag := g; sb_indus := i; sb_trans := t;
     sb_heat := 0; sb_total := None |}.

Definition zeroB : EnergySectorBreakdown := mkB 0 0 0 0 0.

(** A record without the [heat] key. *)
Definition mkPoint (y : Z) (m : option string)
    (elec waste solar nuclear hydro wind geo gas coal bio petro : EnergySectorBreakdown)
  : EnergyDataPoint :=
  {| year := y; milestone := m; dp_elec := elec; dp_waste := waste;
     dp_solar := solar; dp_nuclear := nuclear; dp_hydro := hydro;
     dp_wind := wind; dp_geo := geo; dp_gas := gas; dp_coal := coal;
     dp_bio := bio; dp_petro := petro; dp_heat := None |}.

Definition zeroPoint (y : Z) : EnergyDataPoint :=
  mkPoint y None zeroB zeroB zeroB zeroB zeroB zeroB zeroB zeroB zeroB zeroB zeroB.

(** Two ordinary years, given out of order. *)
Definition p2001 : EnergyDataPoint :=
  mkPoint 2001 None
    (mkB 0 40 2 30 1) (mkB 0 80 4 60 2)
    (mkB 5 1 0 0 0) (mkB 90 0 0 0 0) (mkB 30 0 0 0 0) (mkB 7 0 0 0 0)
    (mkB 3 1 0 0 0) (mkB 60 50 1 80 7) (mkB 200 1 0 20 0)
    (mkB 6 5 1 20 2) (mkB 10 15 9 90 260).

Definition p2000 : EnergyDataPoint :=
  mkPoint 2000 (Some "turn of the century"%string)
    (mkB 0 38 2 31 1) (mkB 0 78 4 62 2)
    (mkB 4 1 0 0 0) (mkB 93 0 0 0 0) (mkB 28 0 0 0 0) (mkB 6 0 0 0 0)
    (mkB 3 1 0 0 0) (mkB 55 51 1 82 7) (mkB 210 1 0 22 0)
    (mkB 6 5 1 21 2) (mkB 11 16 9 92 255).

Definition twoYears : list EnergyDataPoint := [p2001; p2000].

Definition threeYears : list EnergyDataPoint := [p2001; zeroPoint 2002; p2000].

(** Two records that carry the same year. *)
Definition repeatedYear : list EnergyDataPoint :=
  [p2000; mkPoint 2000 (Some "second entry"%string)
            zeroB zeroB zeroB zeroB zeroB zeroB zeroB zeroB zeroB zeroB zeroB].

(** One year in which coal feeds one unit into electricity generation. *)
Definition coalToElec : EnergyDataPoint :=
  mkPoint 1990 None zeroB zeroB zeroB zeroB zeroB zeroB zeroB zeroB
          (mkB 1 0 0 0 0) zeroB zeroB.

(** One year in which gas feeds one unit into electricity generation. *)
Definition gasToElec : EnergyDataPoint :=
  mkPoint 1990 None zeroB zeroB zeroB zeroB zeroB zeroB zeroB
          (mkB 1 0 0 0 0) zeroB zeroB zeroB.

(** One year with a negative residential entry. *)
Definition negativeRes : EnergyDataPoint :=
  mkPoint 1990 None zeroB zeroB zeroB zeroB zeroB zeroB zeroB zeroB
          (mkB 0 (-4000) 0 0 0) zeroB zeroB.

(** A record with the [heat] key. *)
Definition withHeat : EnergyDataPoint :=
  {| year := 2010; milestone := None;
     dp_elec := {| sb_elec := 0; sb_res := 40; sb_ag := 2; sb_indus := 30;
                   sb_trans := 1; sb_heat := 3; sb_total := None |};
     dp_waste := {| sb_elec := 0; sb_res := 80; sb_ag := 4; sb_indus := 60;
                    sb_trans := 2; sb_heat := 5; sb_total := None |};
     dp_solar := mkB 5 1 0 0 0; dp_nuclear := mkB 90 0 0 0 0;
     dp_hydro := mkB 30 0 0 0 0; dp_wind := mkB 7 0 0 0 0;
     dp_geo := mkB 3 1 0 0 0;
     dp_gas := {| sb_elec := 60; sb_res := 50; sb_ag := 1; sb_indus := 80;
                  sb_trans := 7; sb_heat := 12; sb_total := None |};
     dp_coal := mkB 200 1 0 20 0; dp_bio := mkB 6 5 1 20 2;
     dp_petro := mkB 10 15 9 90 260;
     dp_heat := Some {| sb_elec := 0; sb_res := 9; sb_ag := 1; sb_indus := 4;
                        sb_trans := 0; sb_heat := 0; sb_total := None |} |}.

(** Configuration parameters: rational stand-ins for the irrational and
    host-dependent numbers. *)
Definition cfg : ConfigurationService.t :=
  {| ConfigurationService.hasHeatData := false;
     ConfigurationService.WIDTH := 1200;
     ConfigurationService.SR3 := 1732 # 1000;
     ConfigurationService.HSR3 := 866 # 1000;
     ConfigurationService.ELECTRICITY_BOX_X := 300;
     ConfigurationService.ELECTRICITY_BOX_Y := 120;
     ConfigurationService.LEFT_Y := 100;
     ConfigurationService.ELECTRICITY_GAP := 19 |}.

Definition idle : AnimationService.World :=
  {| AnimationService.state :=
       {| AnimationService.currentYearIndex := 0;
          AnimationService.isAnimating := false;
          AnimationService.animationTimer := None;
          AnimationService.speed := 200 |};
     AnimationService.intervals := [];
     AnimationService.nextHandle := 1%positive;
     AnimationService.timeouts := [];
     AnimationService.shownYear := None;
     AnimationService.emitted := [] |}.

(** The data service built from [threeYears] (years 2000, 2001, 2002). *)
Definition ds3 : DataService.t :=
  {| DataService.data := [p2000; p2001; zeroPoint 2002];
     DataService.years := [2000%Z; 2001%Z; 2002%Z];
     DataService.yearsLength := 3; DataService.firstYear := 2000;
     DataService.lastYear := 2002 |}.

(** The data service built from the single record [p2000]. *)
Definition ds1 : DataService.t :=
  {| DataService.data := [p2000]; DataService.years := [2000%Z];
     DataService.yearsLength := 1; DataService.firstYear := 2000;
     DataService.lastYear := 2000 |}.

(** Playing, and showing the last year: [setYear(2002)] then [play()]. *)
Definition playingAtEnd : AnimationService.World :=
  AnimationService.play ds3 (AnimationService.setYear ds3 2002 idle).

(** An initialised system on [threeYears], then [play()], then [destroy()]. *)
Definition sysReady : Sankey.System := Sankey.ready ds3 200 true.
Definition sysPlaying : Sankey.System := Sankey.play ds3 sysReady.
Definition sysDestroyed : Sankey.System := Sankey.destroy sysPlaying.

End Samples.

(* ================================================================== *)
(** * Properties *)

Unset Implicit Arguments.

Lemma mapM_Ok_Forall2 {A B} (f : A -> result B) l bs :
  mapM f l = Ok bs -> Forall2 (fun a b => f a = Ok b) l bs.
Proof.
  revert bs; induction l as [|a l IH]; intros bs H; simpl in H.
  - inversion H; constructor.
  - destruct (f a) as [b|e] eqn:Ha; simpl in H; [|discriminate].
    destruct (mapM f l) as [bs'|e] eqn:Hl; simpl in H; [|discriminate].
    inversion H; subst. constructor; auto.
Qed.

Lemma mapM_total {A B} (f : A -> result B) l :
  (forall a, In a l -> exists b, f a = Ok b) -> exists bs, mapM f l = Ok bs.
Proof.
  induction l as [|a l IH]; intros H; simpl.
  - now exists [].
  - destruct (H a (or_introl eq_refl)) as [b Hb]. rewrite Hb; simpl.
    destruct IH as [bs Hbs]; [intros; apply H; now right|].
    rewrite Hbs; simpl. now exists (b :: bs).
Qed.

Lemma insert_by_Forall {A} (P : A -> Prop) lt x l :
  P x -> Forall P l -> Forall P (insert_by lt x l).
Proof.
  intros Hx Hl; induction Hl as [|y l Hy Hl IH]; simpl.
  - auto.
  - destruct (lt x y); auto.
Qed.

Lemma js_sort_Forall_acc {A} (P : A -> Prop) lt l acc :
  Forall P l -> Forall P acc ->
  Forall P (fold_left (fun acc x => insert_by lt x acc) l acc).
Proof.
  intros Hl; revert acc; induction Hl as [|x l Hx Hl IH]; simpl; intros acc Hacc.
  - exact Hacc.
  - apply IH. now apply insert_by_Forall.
Qed.

Lemma js_sort_Forall {A} (P : A -> Prop) lt l :
  Forall P l -> Forall P (js_sort lt l).
Proof. intros H; unfold js_sort; now apply js_sort_Forall_acc. Qed.

Lemma insert_by_In {A} lt (x y : A) l :
  In y (insert_by lt x l) <-> y = x \/ In y l.
Proof.
  induction l as [|z l IH]; simpl.
  - intuition.
  - destruct (lt x z); simpl; rewrite ?IH; intuition.
Qed.

Lemma js_sort_In_acc {A} lt (y : A) l acc :
  In y (fold_left (fun acc x => insert_by lt x acc) l acc) <-> In y l \/ In y acc.
Proof.
  revert acc; induction l as [|x l IH]; simpl; intros acc.
  - intuition.
  - rewrite IH, insert_by_In. intuition.
Qed.

Lemma js_sort_In {A} lt (y : A) l : In y (js_sort lt l) <-> In y l.
Proof. unfold js_sort; rewrite js_sort_In_acc; simpl; intuition. Qed.

Lemma insert_by_length {A} lt (x : A) l :
  length (insert_by lt x l) = S (length l).
Proof.
  induction l as [|z l IH]; simpl; [reflexivity|].
  destruct (lt x z); simpl; congruence.
Qed.

Lemma js_sort_length {A} lt (l : list A) : length (js_sort lt l) = length l.
Proof.
  unfold js_sort.
  assert (H : forall acc,
    length (fold_left (fun acc x => insert_by lt x acc) l acc)
    = (length l + length acc)%nat).
  { induction l as [|x l IH]; simpl; intros acc; [reflexivity|].
    rewrite IH, insert_by_length; lia. }
  rewrite H; simpl; lia.
Qed.

Lemma update_at_Forall {A} (P : A -> Prop) i f l :
  (forall x, P x -> P (f x)) -> Forall P l -> Forall P (update_at i f l).
Proof.
  intros Hf Hl; revert i; induction Hl as [|x l Hx Hl IH]; intros i; simpl.
  - destruct i; constructor.
  - destruct i; constructor; auto.
Qed.

Lemma update_at_length {A} i f (l : list A) :
  length (update_at i f l) = length l.
Proof.
  revert i; induction l as [|x l IH]; intros [|i]; simpl; auto.
Qed.

(* ------------------------------------------------------------------ *)
(** ** Facts about [indexOf] and sorting by year *)

Lemma indexOf_from_absent (x : Z) l i :
  ~ In x l -> indexOf_from Z.eqb x l i = (-1)%Z.
Proof.
  revert i; induction l as [|y l IH]; intros i Hn; simpl; [reflexivity|].
  destruct (Z.eqb_spec y x) as [->|Hne].
  - exfalso; apply Hn; now left.
  - apply IH. intros Hin; apply Hn; now right.
Qed.

Lemma indexOf_from_present (x : Z) l i :
  In x l -> (i <= indexOf_from Z.eqb x l i < i + Z.of_nat (length l))%Z.
Proof.
  revert i; induction l as [|y l IH]; intros i Hin; simpl in *; [contradiction|].
  destruct (Z.eqb_spec y x) as [->|Hne]; [lia|].
  destruct Hin as [->|Hin]; [congruence|].
  specialize (IH (i + 1)%Z Hin). lia.
Qed.

(** In a list without repetition [indexOf] inverts positional access. *)
Lemma indexOf_from_nth (l : list Z) :
  NoDup l -> forall n i y, nth_error l n = Some y ->
  indexOf_from Z.eqb y l i = (i + Z.of_nat n)%Z.
Proof.
  induction 1 as [|x l Hx Hnd IH]; intros n i y Hn.
  - destruct n; discriminate.
  - destruct n as [|n]; simpl in *.
    + inversion Hn; subst. rewrite Z.eqb_refl. lia.
    + destruct (Z.eqb_spec x y) as [->|Hne].
      * exfalso; apply Hx. eapply nth_error_In; eauto.
      * rewrite (IH n (i + 1)%Z y Hn). lia.
Qed.

Lemma insert_byYear_sorted x l :
  Props.sortedYears l -> Props.sortedYears (insert_by DataService.byYear x l).
Proof.
  unfold Props.sortedYears; induction l as [|y l IH]; intros Hs; simpl.
  - repeat constructor.
  - unfold DataService.byYear at 1.
    inversion Hs as [|? ? Hs' Hall]; subst.
    destruct (Z.ltb_spec (year x) (year y)) as [Hlt|Hge]; simpl.
    + constructor; [exact Hs|]. constructor; [lia|].
      eapply Forall_impl; [|exact Hall]. simpl; intros; lia.
    + constructor; [now apply IH|].
      rewrite Forall_forall in *. intros z Hz.
      apply in_map_iff in Hz. destruct Hz as [p [<- Hp]].
      apply insert_by_In in Hp. destruct Hp as [->|Hp]; [lia|].
      apply Hall. now apply in_map.
Qed.

Lemma js_sort_byYear_sorted l : Props.sortedYears (js_sort DataService.byYear l).
Proof.
  unfold js_sort.
  assert (H : forall acc, Props.sortedYears acc ->
    Props.sortedYears (fold_left (fun acc x => insert_by DataService.byYear x acc) l acc)).
  { induction l as [|x l IH]; simpl; intros acc Hacc; [exact Hacc|].
    apply IH. now apply insert_byYear_sorted. }
  apply H. constructor.
Qed.

Lemma sorted_first_le (ys : list Z) y :
  StronglySorted Z.le ys -> In y ys -> (nth 0 ys 0 <= y)%Z.
Proof.
  intros Hs Hin. destruct ys as [|z ys]; [contradiction|]. simpl.
  inversion Hs as [|? ? _ Hall]; subst.
  destruct Hin as [->|Hin]; [lia|].
  rewrite Forall_forall in Hall. now apply Hall.
Qed.

Lemma sorted_last_ge (ys : list Z) y :
  StronglySorted Z.le ys -> In y ys -> (y <= nth (length ys - 1) ys 0)%Z.
Proof.
  induction 1 as [|z ys Hs IH Hall]; intros Hin; [contradiction|].
  destruct ys as [|z' ys'].
  - destruct Hin as [->|[]]. simpl. lia.
  - assert (Hlast : nth (length (z :: z' :: ys') - 1) (z :: z' :: ys') 0%Z
                    = nth (length (z' :: ys') - 1) (z' :: ys') 0%Z).
    { simpl. now rewrite Nat.sub_0_r. }
    rewrite Hlast.
    destruct Hin as [->|Hin].
    + rewrite Forall_forall in Hall.
      apply Hall. apply nth_In. simpl; lia.
    + now apply IH.
Qed.

(** What the constructor establishes. *)
Lemma new_inv energyData ds hasHeat :
  DataService.new energyData = Ok (ds, hasHeat) ->
  DataService.data ds = js_sort DataService.byYear energyData
  /\ DataService.years ds = map year (DataService.data ds)
  /\ DataService.yearsLength ds = Z.of_nat (length (DataService.years ds))
  /\ DataService.firstYear ds = nth 0 (DataService.years ds) 0%Z
  /\ DataService.lastYear ds
     = nth (length (DataService.years ds) - 1) (DataService.years ds) 0%Z
  /\ DataValidationService.validateData energyData = Ok hasHeat.
Proof.
  unfold DataService.new. intros H.
  destruct (DataValidationService.validateData energyData) as [h|e] eqn:Hv;
    simpl in H; [|discriminate].
  inversion H; subst; simpl. repeat split; reflexivity.
Qed.

Lemma new_years_sorted energyData ds hasHeat :
  DataService.new energyData = Ok (ds, hasHeat) ->
  StronglySorted Z.le (DataService.years ds).
Proof.
  intros H. destruct (new_inv _ _ _ H) as (Hd & Hy & _).
  rewrite Hy, Hd. apply js_sort_byYear_sorted.
Qed.

Lemma out_of_range_absent energyData ds hasHeat y :
  DataService.new energyData = Ok (ds, hasHeat) ->
  (y < DataService.firstYear ds \/ DataService.lastYear ds < y)%Z ->
  ~ In y (DataService.years ds).
Proof.
  intros H Hout Hin.
  pose proof (new_years_sorted _ _ _ H) as Hs.
  destruct (new_inv _ _ _ H) as (_ & _ & _ & Hf & Hl & _).
  pose proof (sorted_first_le _ _ Hs Hin). pose proof (sorted_last_ge _ _ Hs Hin).
  lia.
Qed.

Lemma setYear_absent ds y w :
  ~ In y (DataService.years ds) -> AnimationService.setYear ds y w = w.
Proof.
  intros Hn. unfold AnimationService.setYear, DataService.getYearIndex, indexOf.
  now rewrite (indexOf_from_absent _ _ _ Hn).
Qed.

(* ------------------------------------------------------------------ *)
(** ** Navigation *)

(** C5: a call of [setYear] with a year outside [[firstYear, lastYear]] or
    absent from the dataset leaves the animation engine as it was, so
    [getCurrentYear] answers the same before and after; the same holds
    through the facade's [setYear], which forwards to the engine. *)
Theorem setYear_boundary_rejection :
  forall energyData ds hasHeat,
    DataService.new energyData = Ok (ds, hasHeat) ->
    forall y,
      ((y < DataService.firstYear ds)%Z \/ (DataService.lastYear ds < y)%Z
       \/ ~ In y (DataService.years ds)) ->
      (forall w,
          AnimationService.setYear ds y w = w
          /\ AnimationService.getCurrentYear ds (AnimationService.setYear ds y w)
             = AnimationService.getCurrentYear ds w)
      /\ (forall optionsData sys,
             Sankey.getCurrentYear ds optionsData (Sankey.setYear ds y sys)
             = Sankey.getCurrentYear ds optionsData sys).
Proof.
  intros energyData ds hasHeat Hnew y Hy.
  assert (Habs : ~ In y (DataService.years ds)).
  { destruct Hy as [Hy|[Hy|Hy]]; [| |exact Hy];
      eapply out_of_range_absent; eauto. }
  split.
  - intros w. rewrite (setYear_absent _ _ _ Habs). now split.
  - intros optionsData sys. unfold Sankey.setYear, Sankey.onService.
    destruct (Sankey.initialized (Sankey.facade sys)); simpl; [|reflexivity].
    destruct (Sankey.animationService (Sankey.facade sys)) eqn:Ha; [|reflexivity].
    unfold Sankey.getCurrentYear; simpl. rewrite Ha.
    now rewrite (setYear_absent _ _ _ Habs).
Qed.

Lemma setYear_boundary_rejection_witness :
  DataService.new Samples.threeYears = Ok (Samples.ds3, false)
  /\ AnimationService.setYear Samples.ds3 1999 Samples.idle = Samples.idle
  /\ AnimationService.setYear Samples.ds3 2003 Samples.idle = Samples.idle.
Proof.
  assert (Hnew : DataService.new Samples.threeYears = Ok (Samples.ds3, false))
    by (vm_compute; reflexivity).
  assert (Hlo : (1999 < DataService.firstYear Samples.ds3)%Z)
    by (vm_compute; reflexivity).
  assert (Hhi : (DataService.lastYear Samples.ds3 < 2003)%Z)
    by (vm_compute; reflexivity).
  split; [exact Hnew|]. split.
  - apply (proj1 (setYear_boundary_rejection Samples.threeYears _ _ Hnew 1999
                    (or_introl Hlo))).
  - apply (proj1 (setYear_boundary_rejection Samples.threeYears _ _ Hnew 2003
                    (or_intror (or_introl Hhi)))).
Defined.

(* ------------------------------------------------------------------ *)
(** ** Round trip between indices and years *)

Lemma insert_by_perm {A} (lt : A -> A -> bool) x l :
  Permutation (insert_by lt x l) (x :: l).
Proof.
  induction l as [|y l IH]; simpl; [reflexivity|].
  destruct (lt x y); [reflexivity|].
  rewrite IH. apply perm_swap.
Qed.

Lemma js_sort_perm {A} (lt : A -> A -> bool) l : Permutation (js_sort lt l) l.
Proof.
  unfold js_sort.
  assert (H : forall acc,
    Permutation (fold_left (fun acc x => insert_by lt x acc) l acc) (l ++ acc)).
  { induction l as [|x l IH]; simpl; intros acc; [reflexivity|].
    rewrite IH, insert_by_perm. symmetry. apply Permutation_middle. }
  rewrite H, app_nil_r. reflexivity.
Qed.

(** On datasets whose years are pairwise distinct the round trip holds. *)
Lemma round_trip_distinct_years energyData ds hasHeat :
  DataService.new energyData = Ok (ds, hasHeat) ->
  NoDup (map year energyData) ->
  forall i p,
    DataService.getYearDataByIndex ds i = Some p ->
    DataService.getYearIndex ds (year p) = i.
Proof.
  intros Hnew Hnd i p Hget.
  destruct (new_inv _ _ _ Hnew) as (Hd & Hy & _).
  assert (Hnd' : NoDup (DataService.years ds)).
  { rewrite Hy, Hd. eapply Permutation_NoDup; [|exact Hnd].
    apply Permutation_map. symmetry. apply js_sort_perm. }
  unfold DataService.getYearDataByIndex, at_index in Hget.
  destruct (Z.ltb_spec i 0) as [Hneg|Hpos]; simpl in Hget; [discriminate|].
  destruct (i >=? Z.of_nat (length (DataService.data ds)))%Z; [discriminate|].
  unfold DataService.getYearIndex, indexOf.
  rewrite (indexOf_from_nth _ Hnd' (Z.to_nat i) 0%Z (year p)).
  - lia.
  - rewrite Hy. now apply map_nth_error.
Qed.

(** C6: on the two-record dataset [Samples.repeatedYear], which validation
    accepts, the record at index 1 carries a year that [getYearIndex] maps
    to index 0, so the round trip does not return to 1. *)
Theorem round_trip_repeated_year :
  exists ds p,
    DataService.new Samples.repeatedYear = Ok (ds, false)
    /\ DataService.getYearDataByIndex ds 1 = Some p
    /\ DataService.getYearIndex ds (year p) = 0%Z
    /\ DataService.getYearIndex ds (year p) <> 1%Z.
Proof.
  destruct (DataService.new Samples.repeatedYear) as [[ds h]|e] eqn:Hnew;
    [|vm_compute in Hnew; discriminate].
  vm_compute in Hnew. inversion Hnew; subst; clear Hnew.
  eexists; eexists. split; [reflexivity|].
  split; [vm_compute; reflexivity|].
  split; [vm_compute; reflexivity|].
  vm_compute. discriminate.
Qed.

(* ------------------------------------------------------------------ *)
(** ** Playback *)

Section Playback.
Import AnimationService.
Variable ds : DataService.t.

Lemma setYear_keeps y w :
  isAnimating (state (setYear ds y w)) = isAnimating (state w)
  /\ animationTimer (state (setYear ds y w)) = animationTimer (state w)
  /\ speed (state (setYear ds y w)) = speed (state w)
  /\ intervals (setYear ds y w) = intervals w
  /\ timeouts (setYear ds y w) = timeouts w.
Proof.
  unfold setYear.
  destruct (DataService.getYearIndex ds y =? -1)%Z; simpl; repeat split.
Qed.

Lemma nextYear_keeps w :
  isAnimating (state (nextYear ds w)) = isAnimating (state w)
  /\ animationTimer (state (nextYear ds w)) = animationTimer (state w)
  /\ speed (state (nextYear ds w)) = speed (state w)
  /\ intervals (nextYear ds w) = intervals w
  /\ timeouts (nextYear ds w) = timeouts w.
Proof.
  unfold nextYear.
  destruct (currentYearIndex (state w) <? DataService.yearsLength ds - 1)%Z;
    [|repeat split].
  destruct (at_index _ _); [|simpl; repeat split].
  destruct (setYear_keeps z
    (with_state w (set_index (state w) (currentYearIndex (state w) + 1))))
    as (H1 & H2 & H3 & H4 & H5).
  rewrite H1, H2, H3, H4, H5. simpl. repeat split.
Qed.

Lemma pause_stops w :
  isAnimating (state (pause ds w)) = false.
Proof.
  unfold pause. destruct (isAnimating (state w)) eqn:Ha; simpl; [|exact Ha].
  destruct (animationTimer (state w)); reflexivity.
Qed.

Lemma pause_keeps_index w :
  currentYearIndex (state (pause ds w)) = currentYearIndex (state w).
Proof.
  unfold pause. destruct (isAnimating (state w)); simpl; [|reflexivity].
  destruct (animationTimer (state w)); reflexivity.
Qed.

Lemma pause_keeps_speed w :
  speed (state (pause ds w)) = speed (state w).
Proof.
  unfold pause. destruct (isAnimating (state w)); simpl; [|reflexivity].
  destruct (animationTimer (state w)); reflexivity.
Qed.

Lemma pause_clears_timer w h :
  isAnimating (state w) = true ->
  animationTimer (state w) = Some h ->
  animationTimer (state (pause ds w)) = None
  /\ ~ In h (intervals (pause ds w)).
Proof.
  intros Ha Ht. unfold pause. rewrite Ha, Ht; simpl. split; [reflexivity|].
  rewrite filter_In. intros [_ Hh]. rewrite Pos.eqb_refl in Hh. discriminate.
Qed.

(** Playing at the last year without looping: the tick rewinds the year
    index to 0 and pauses. *)
Lemma nextFrame_stops_at_zero (w : World) (h : positive) :
  isAnimating (state w) = true ->
  animationTimer (state w) = Some h ->
  In h (intervals w) ->
  currentYearIndex (state w) = (DataService.yearsLength ds - 1)%Z ->
  let w' := tick ds false h w in
  isPlaying w' = false
  /\ animationTimer (state w') = None
  /\ ~ In h (intervals w')
  /\ currentYearIndex (state w') = 0%Z.
Proof.
  intros Ha Ht Hin Hlast w'.
  assert (Hw' : w' = nextFrame ds false w).
  { subst w'. unfold tick.
    assert (Hex : existsb (Pos.eqb h) (intervals w) = true).
    { apply existsb_exists. exists h. split; [exact Hin|apply Pos.eqb_refl]. }
    now rewrite Hex. }
  assert (Hcond : (currentYearIndex (state w) + 1
                   >=? DataService.yearsLength ds)%Z = true).
  { rewrite Hlast. apply Z.geb_le. lia. }
  unfold nextFrame in Hw'. rewrite Hcond in Hw'. simpl in Hw'. rewrite Hw'.
  set (w1 := with_state w (set_index (state w) 0)).
  assert (Ha1 : isAnimating (state w1) = true) by exact Ha.
  assert (Ht1 : animationTimer (state w1) = Some h) by exact Ht.
  destruct (pause_clears_timer w1 h Ha1 Ht1) as [Hnone Hnot].
  repeat split.
  - apply pause_stops.
  - exact Hnone.
  - exact Hnot.
  - rewrite pause_keeps_index. reflexivity.
Qed.

(** C10: [setSpeed(s)] with [s <= 0] throws "Animation speed must be
    positive" and leaves the engine (stored speed, Playing/Stopped state and
    everything else) as it was; with [s > 0] it returns and the stored speed
    is [s]. *)
Theorem setSpeed_positive_only :
  forall (s : Q) (w : World),
    (s <= 0 ->
       setSpeed ds s w = (w, Some (Error "Animation speed must be positive")))
    /\ (0 < s ->
          snd (setSpeed ds s w) = None
          /\ speed (state (fst (setSpeed ds s w))) = s).
Proof.
  intros s w. unfold setSpeed. split.
  - intros Hs. apply Qle_bool_iff in Hs. now rewrite Hs.
  - intros Hs.
    assert (Hb : Qle_bool s 0 = false).
    { destruct (Qle_bool s 0) eqn:E; [|reflexivity].
      apply Qle_bool_iff in E. exfalso. eapply Qlt_not_le; eauto. }
    rewrite Hb. split; [reflexivity|].
    cbn [fst emit state with_state isAnimating].
    destruct (isAnimating (state w)); cbn [state]; [|reflexivity].
    rewrite pause_keeps_speed. reflexivity.
Qed.

End Playback.

(** C8: on the three-year dataset (2000, 2001, 2002) the engine is Playing
    at the last year (index 2) on timer 1, and the timer fires.  With looping
    the engine stays Playing, but at index 1: the year drawn is 2001, and the
    first year 2000 is skipped.  Without looping the engine stops and its
    timer is cleared, but the year index is 0, no longer the 2 it was before
    the tick, and [getCurrentYear] answers 2000. *)
Theorem last_tick_on_three_years :
  AnimationService.isPlaying Samples.playingAtEnd = true
  /\ AnimationService.currentYearIndex
       (AnimationService.state Samples.playingAtEnd) = 2%Z
  /\ AnimationService.getCurrentYear Samples.ds3 Samples.playingAtEnd = 2002%Z
  /\ DataService.firstYear Samples.ds3 = 2000%Z
  /\ (let looped := AnimationService.tick Samples.ds3 true 1 Samples.playingAtEnd in
      AnimationService.isPlaying looped = true
      /\ AnimationService.intervals looped = [1%positive]
      /\ AnimationService.currentYearIndex (AnimationService.state looped) = 1%Z
      /\ AnimationService.shownYear looped = Some 2001%Z
      /\ AnimationService.getCurrentYear Samples.ds3 looped = 2001%Z)
  /\ (let stopped := AnimationService.tick Samples.ds3 false 1 Samples.playingAtEnd in
      AnimationService.isPlaying stopped = false
      /\ AnimationService.intervals stopped = []
      /\ AnimationService.animationTimer (AnimationService.state stopped) = None
      /\ AnimationService.currentYearIndex (AnimationService.state stopped) = 0%Z
      /\ AnimationService.shownYear stopped = Some 2002%Z
      /\ AnimationService.getCurrentYear Samples.ds3 stopped = 2000%Z).
Proof.
  cbv zeta. repeat split; vm_compute; reflexivity.
Qed.

(** The last-year tick as the specification words it fails on the
    three-year dataset in both modes: without looping the year index moves
    from 2 to 0 instead of staying; with looping the year shown after the
    tick is 2001, not the first year 2000. *)
Lemma last_tick_as_stated_fails :
  ~ Props.last_tick_as_stated Samples.ds3 false 1 Samples.playingAtEnd
  /\ ~ Props.last_tick_as_stated Samples.ds3 true 1 Samples.playingAtEnd.
Proof.
  split; unfold Props.last_tick_as_stated.
  - intros (_ & _ & H). vm_compute in H. discriminate.
  - intros H. vm_compute in H. discriminate.
Qed.

Lemma setSpeed_positive_only_witness :
  AnimationService.setSpeed Samples.ds3 (-5) Samples.idle
  = (Samples.idle, Some (Error "Animation speed must be positive"))
  /\ AnimationService.speed
       (AnimationService.state
          (fst (AnimationService.setSpeed Samples.ds3 100 Samples.playingAtEnd)))
     = 100.
Proof.
  split.
  - apply (proj1 (setSpeed_positive_only Samples.ds3 (-5) Samples.idle)).
    vm_compute. discriminate.
  - apply (proj2 (setSpeed_positive_only Samples.ds3 100 Samples.playingAtEnd)).
    vm_compute. reflexivity.
Defined.

(* ------------------------------------------------------------------ *)
(** ** The facade's [destroy] *)

Lemma destroy_idempotent sys :
  Sankey.destroy (Sankey.destroy sys) = Sankey.destroy sys.
Proof.
  unfold Sankey.destroy.
  destruct (Sankey.destroyed (Sankey.facade sys)) eqn:Hd; simpl.
  - now rewrite Hd.
  - reflexivity.
Qed.

Lemma destroy_releases_subscriptions sys :
  Sankey.destroyed (Sankey.facade sys) = false ->
  Sankey.subscriptions (Sankey.facade (Sankey.destroy sys)) = []
  /\ Sankey.busHandlers (Sankey.facade (Sankey.destroy sys)) = []
  /\ Sankey.destroyed (Sankey.facade (Sankey.destroy sys)) = true.
Proof.
  intros Hd. unfold Sankey.destroy. rewrite Hd. simpl. repeat split.
Qed.


(** C9: on an initialised three-year system, [play()] followed by
    [destroy()] leaves the facade destroyed (and a second [destroy()] changes
    nothing), but the engine is still Playing and its interval timer is still
    registered with the host; when that timer fires, the year index advances
    from 0 to 1. *)
Theorem destroy_while_playing :
  Sankey.destroyed (Sankey.facade Samples.sysDestroyed) = true
  /\ Sankey.destroy Samples.sysDestroyed = Samples.sysDestroyed
  /\ AnimationService.isAnimating
       (AnimationService.state (Sankey.world Samples.sysDestroyed)) = true
  /\ AnimationService.intervals (Sankey.world Samples.sysDestroyed) = [1%positive]
  /\ AnimationService.currentYearIndex
       (AnimationService.state (Sankey.world Samples.sysDestroyed)) = 0%Z
  /\ AnimationService.currentYearIndex
       (AnimationService.state
          (Sankey.world (Sankey.tick Samples.ds3 false 1 Samples.sysDestroyed)))
     = 1%Z.
Proof.
  repeat split; vm_compute; reflexivity.
Qed.

(* ------------------------------------------------------------------ *)
(** ** Totals *)


(* ------------------------------------------------------------------ *)
(** ** Totals *)

(** To prove [P t] from [H : e = Ok t], evaluate [e] inside
    [match e with Ok t' => P t' | Throw _ => True end]: the totals object is
    then only ever looked up at concrete keys. *)
Ltac by_totals H :=
  match type of H with
  | ?e = Ok ?t =>
      pattern t;
      match goal with
      | |- ?P t =>
          cut (match e with Ok t' => P t' | Throw _ => True end);
          [ rewrite H; exact (fun x => x) | clear H ]
      end
  end.

Ltac eval_totals :=
  lazy -[Qplus Qmult Qminus Qdiv Qopp Qinv Qeq Qle Qlt
         sb_elec sb_res sb_ag sb_indus sb_trans sb_heat].

(** The per-fuel total of every primary fuel is the sum of the fuel's
    entries over all participating sectors, electricity generation included. *)
Lemma yearTotals_fuel hasHeat p t f o :
  SummaryService.yearTotals hasHeat p = Ok t ->
  In f Props.primaryFuels ->
  dp_get p f = Some o ->
  SummaryService.tget t (SummaryService.key_of_fuel f)
  == Props.sumOver o (Props.activeBoxes hasHeat).
Proof.
  intros Ht Hf Ho.
  destruct p as [yr ms pe pw p1 p2 p3 p4 p5 p6 p7 p8 p9 ph].
  simpl in Hf.
  repeat (destruct Hf as [<-|Hf];
          [ simpl in Ho; inversion Ho; subst; clear Ho;
            destruct hasHeat; [destruct ph as [h|]|];
            by_totals Ht; eval_totals; try exact I; ring
          | ]).
  contradiction.
Qed.

(** Conservation over all participating sectors. *)
Lemma yearTotals_conservation hasHeat p t :
  SummaryService.yearTotals hasHeat p = Ok t ->
  Props.sectorTotals t (Props.activeBoxes hasHeat)
  == Props.fuelTotals t + Props.electricityConsumption hasHeat p
     + Props.wasteTotal t + Props.heatConsumption hasHeat p.
Proof.
  intros Ht.
  destruct p as [yr ms pe pw p1 p2 p3 p4 p5 p6 p7 p8 p9 ph].
  destruct hasHeat; [destruct ph as [h|]|];
    by_totals Ht; eval_totals; try exact I; ring.
Qed.

(** The records handed to the aggregator are those of the input. *)
Lemma new_data_In energyData ds hasHeat p :
  DataService.new energyData = Ok (ds, hasHeat) ->
  (In p (DataService.data ds) <-> In p energyData).
Proof.
  intros H. destruct (new_inv _ _ _ H) as (Hd & _). rewrite Hd.
  apply js_sort_In.
Qed.

(** C1 (as the code has it): for every year of a validated dataset, the
    totals of all participating sectors -- the four end-use sectors, the
    electricity sector, and the heat sector when heat data is present -- add
    up to the sum of the per-fuel totals of the nine primary fuels plus the
    electricity delivered to the consuming sectors plus the waste-heat total
    (plus, with heat data, the heat delivered to the other sectors). *)
Theorem totals_conservation :
  forall energyData ds hasHeat ts,
    DataService.new energyData = Ok (ds, hasHeat) ->
    SummaryService.buildTotals hasHeat (DataService.data ds) = Ok ts ->
    Forall2
      (fun p t =>
         Props.sectorTotals t (Props.activeBoxes hasHeat)
         == Props.fuelTotals t + Props.electricityConsumption hasHeat p
            + Props.wasteTotal t + Props.heatConsumption hasHeat p)
      (DataService.data ds) ts.
Proof.
  intros energyData ds hasHeat ts _ Hts.
  apply mapM_Ok_Forall2 in Hts.
  induction Hts as [|p t ps ts' Hpt _ IH]; constructor; [|exact IH].
  now apply yearTotals_conservation.
Qed.

(** C1, as stated, fails on the validated one-year dataset in which coal
    feeds one unit into electricity generation: the end-use sector totals add
    up to 0, the right-hand side to 1. *)
Lemma conservation_as_stated_fails :
  exists ds t,
    DataService.new [Samples.coalToElec] = Ok (ds, false)
    /\ SummaryService.buildTotals false (DataService.data ds) = Ok [t]
    /\ ~ Props.conservation_as_stated Samples.coalToElec t.
Proof.
  destruct (SummaryService.yearTotals false Samples.coalToElec) as [t|e] eqn:Ht;
    [|vm_compute in Ht; discriminate].
  exists {| DataService.data := [Samples.coalToElec];
            DataService.years := [1990%Z]; DataService.yearsLength := 1;
            DataService.firstYear := 1990; DataService.lastYear := 1990 |}, t.
  split; [vm_compute; reflexivity|]. split.
  - unfold SummaryService.buildTotals. cbn [DataService.data mapM].
    rewrite Ht. reflexivity.
  - by_totals Ht. vm_compute. intros H. discriminate H.
Qed.

Lemma totals_conservation_witness :
  exists ds ts,
    DataService.new Samples.twoYears = Ok (ds, false)
    /\ SummaryService.buildTotals false (DataService.data ds) = Ok ts
    /\ Forall2
         (fun p t =>
            Props.sectorTotals t (Props.activeBoxes false)
            == Props.fuelTotals t + Props.electricityConsumption false p
               + Props.wasteTotal t + Props.heatConsumption false p)
         (DataService.data ds) ts.
Proof.
  destruct (DataService.new Samples.twoYears) as [[ds h]|e] eqn:Hnew;
    [|vm_compute in Hnew; discriminate].
  assert (Hh : h = false).
  { vm_compute in Hnew. inversion Hnew; reflexivity. }
  subst h.
  destruct (SummaryService.buildTotals false (DataService.data ds)) as [ts|e] eqn:Hts.
  - exists ds, ts. split; [reflexivity|]. split; [exact Hts|].
    exact (totals_conservation Samples.twoYears ds false ts Hnew Hts).
  - exfalso. vm_compute in Hnew. inversion Hnew; subst; clear Hnew.
    vm_compute in Hts. discriminate Hts.
Defined.

(** C2 (as the code has it): in the totals of a year, the per-fuel total of
    each of the nine primary fuels -- the electricity-only fuels and gas,
    coal, bio and petro alike -- is the sum of that fuel's entries over all
    participating sectors, the electricity-generation sector included (and
    the heat sector when heat data is present). *)
Theorem fuel_totals_all_sectors :
  forall energyData ds hasHeat ts,
    DataService.new energyData = Ok (ds, hasHeat) ->
    SummaryService.buildTotals hasHeat (DataService.data ds) = Ok ts ->
    Forall2
      (fun p t =>
         forall f o, In f Props.primaryFuels -> dp_get p f = Some o ->
           SummaryService.tget t (SummaryService.key_of_fuel f)
           == Props.sumOver o (Props.activeBoxes hasHeat))
      (DataService.data ds) ts.
Proof.
  intros energyData ds hasHeat ts _ Hts.
  apply mapM_Ok_Forall2 in Hts.
  induction Hts as [|p t ps ts' Hpt _ IH]; constructor; [|exact IH].
  intros f o Hf Ho. now apply yearTotals_fuel with (p := p).
Qed.

(** C2, as stated, fails on the validated one-year dataset in which gas
    feeds one unit into electricity generation: the total of gas is 1, the
    sum over the end-use sectors is 0. *)
Lemma fuel_totals_as_stated_fails :
  exists ds t,
    DataService.new [Samples.gasToElec] = Ok (ds, false)
    /\ SummaryService.buildTotals false (DataService.data ds) = Ok [t]
    /\ ~ Props.fuel_totals_as_stated Samples.gasToElec t.
Proof.
  destruct (SummaryService.yearTotals false Samples.gasToElec) as [t|e] eqn:Ht;
    [|vm_compute in Ht; discriminate].
  exists {| DataService.data := [Samples.gasToElec];
            DataService.years := [1990%Z]; DataService.yearsLength := 1;
            DataService.firstYear := 1990; DataService.lastYear := 1990 |}, t.
  split; [vm_compute; reflexivity|]. split.
  - unfold SummaryService.buildTotals. cbn [DataService.data mapM].
    rewrite Ht. reflexivity.
  - intros [_ Hfossil].
    specialize (Hfossil Fuel.gas (dp_gas Samples.gasToElec)
                        (or_introl eq_refl) eq_refl).
    revert Hfossil. by_totals Ht. vm_compute. intros H. discriminate H.
Qed.

Lemma fuel_totals_all_sectors_witness :
  exists ds ts,
    DataService.new [Samples.gasToElec] = Ok (ds, false)
    /\ SummaryService.buildTotals false (DataService.data ds) = Ok ts
    /\ Forall2
         (fun p t =>
            forall f o, In f Props.primaryFuels -> dp_get p f = Some o ->
              SummaryService.tget t (SummaryService.key_of_fuel f)
              == Props.sumOver o (Props.activeBoxes false))
         (DataService.data ds) ts.
Proof.
  destruct (DataService.new [Samples.gasToElec]) as [[ds h]|e] eqn:Hnew;
    [|vm_compute in Hnew; discriminate].
  assert (Hh : h = false).
  { vm_compute in Hnew. inversion Hnew; reflexivity. }
  subst h.
  destruct (SummaryService.buildTotals false (DataService.data ds)) as [ts|e] eqn:Hts.
  - exists ds, ts. split; [reflexivity|]. split; [exact Hts|].
    exact (fuel_totals_all_sectors [Samples.gasToElec] ds false ts Hnew Hts).
  - exfalso. vm_compute in Hnew. inversion Hnew; subst; clear Hnew.
    vm_compute in Hts. discriminate Hts.
Defined.

(* ------------------------------------------------------------------ *)
(** ** Maxima and box tops *)

Lemma fold_Qmax_ge (xs : list Q) (x : Q) : x <= fold_left Qmax xs x.
Proof.
  revert x; induction xs as [|y xs IH]; intros x; simpl.
  - apply Qle_refl.
  - eapply Qle_trans; [|apply IH]. apply Q.le_max_l.
Qed.

Lemma math_max_nonneg xs m :
  SummaryService.math_max xs = Some m ->
  (forall x, In x xs -> 0 <= x) -> 0 <= m.
Proof.
  destruct xs as [|x xs]; simpl; intros H Hall; [discriminate|].
  inversion H; subst. eapply Qle_trans; [|apply fold_Qmax_ge].
  apply Hall. now left.
Qed.

Lemma all_defined_Some (xs : list Q) :
  SummaryService.all_defined (map Some xs) = Some xs.
Proof.
  induction xs as [|x xs IH]; simpl; [reflexivity|]. now rewrite IH.
Qed.

(** For a sector other than [heat] the maximum ranges over the sector
    totals of all years. *)
Lemma buildMaxes_non_heat ts b :
  b <> Box.heat ->
  SummaryService.buildMaxes ts b
  = SummaryService.math_max
      (map (fun t => SummaryService.tget t (SummaryService.KBox b)) ts).
Proof.
  intros Hb. unfold SummaryService.buildMaxes.
  assert (Hmap : map (fun yearTotal => SummaryService.total_of_box yearTotal b) ts
                 = map Some (map (fun t => SummaryService.tget t (SummaryService.KBox b)) ts)).
  { rewrite map_map. apply map_ext. intros t. destruct b; try reflexivity.
    congruence. }
  rewrite Hmap, all_defined_Some. reflexivity.
Qed.

(** On non-negative data the end-use sector totals are non-negative. *)
Lemma yearTotals_sector_nonneg hasHeat p t b :
  SummaryService.yearTotals hasHeat p = Ok t ->
  Props.dp_nonneg p ->
  In b [Box.res; Box.ag; Box.indus] ->
  0 <= SummaryService.tget t (SummaryService.KBox b).
Proof.
  intros Ht Hnn Hb.
  destruct p as [yr ms pe pw p1 p2 p3 p4 p5 p6 p7 p8 p9 ph].
  pose proof (Hnn Fuel.elec _ eq_refl) as (? & ? & ? & ? & ? & ?).
  pose proof (Hnn Fuel.waste _ eq_refl) as (? & ? & ? & ? & ? & ?).
  pose proof (Hnn Fuel.solar _ eq_refl) as (? & ? & ? & ? & ? & ?).
  pose proof (Hnn Fuel.nuclear _ eq_refl) as (? & ? & ? & ? & ? & ?).
  pose proof (Hnn Fuel.hydro _ eq_refl) as (? & ? & ? & ? & ? & ?).
  pose proof (Hnn Fuel.wind _ eq_refl) as (? & ? & ? & ? & ? & ?).
  pose proof (Hnn Fuel.geo _ eq_refl) as (? & ? & ? & ? & ? & ?).
  pose proof (Hnn Fuel.gas _ eq_refl) as (? & ? & ? & ? & ? & ?).
  pose proof (Hnn Fuel.coal _ eq_refl) as (? & ? & ? & ? & ? & ?).
  pose proof (Hnn Fuel.bio _ eq_refl) as (? & ? & ? & ? & ? & ?).
  pose proof (Hnn Fuel.petro _ eq_refl) as (? & ? & ? & ? & ? & ?).
  simpl in *.
  destruct hasHeat; [destruct ph as [h|]|].
  - pose proof (Hnn Fuel.heat _ eq_refl) as (? & ? & ? & ? & ? & ?).
    clear Hnn.
    repeat (destruct Hb as [<-|Hb]; [by_totals Ht; eval_totals; lra|]);
      contradiction.
  - by_totals Ht; eval_totals; exact I.
  - clear Hnn.
    repeat (destruct Hb as [<-|Hb]; [by_totals Ht; eval_totals; lra|]);
      contradiction.
Qed.

(** C4 (as the code has it): for every validated dataset, whatever the
    sign of its values, each later box top is the previous top plus the
    previous sector's maximum total times SCALE plus RIGHT_GAP; and when the
    energy quantities of the dataset are all non-negative, the box tops are
    strictly increasing in the stacking order res < ag < indus < trans. *)
Theorem box_tops_increasing :
  forall energyData ds hasHeat sm,
    DataService.new energyData = Ok (ds, hasHeat) ->
    SummaryService.buildSummary hasHeat ds = Ok sm ->
    (exists m_res m_ag m_indus,
         SummaryService.maxes sm Box.res = Some m_res
         /\ SummaryService.maxes sm Box.ag = Some m_ag
         /\ SummaryService.maxes sm Box.indus = Some m_indus
         /\ SummaryService.bt_ag (SummaryService.boxTops sm)
            = SummaryService.bt_res (SummaryService.boxTops sm)
              + m_res * ConfigurationService.SCALE + ConfigurationService.RIGHT_GAP
         /\ SummaryService.bt_indus (SummaryService.boxTops sm)
            = SummaryService.bt_ag (SummaryService.boxTops sm)
              + m_ag * ConfigurationService.SCALE + ConfigurationService.RIGHT_GAP
         /\ SummaryService.bt_trans (SummaryService.boxTops sm)
            = SummaryService.bt_indus (SummaryService.boxTops sm)
              + m_indus * ConfigurationService.SCALE + ConfigurationService.RIGHT_GAP)
    /\ ((forall p, In p energyData -> Props.dp_nonneg p) ->
        Props.increasing (SummaryService.boxTops sm)).
Proof.
  intros energyData ds hasHeat sm Hnew Hsm.
  unfold SummaryService.buildSummary in Hsm.
  destruct (SummaryService.buildTotals hasHeat (DataService.data ds)) as [ts|e] eqn:Hts;
    simpl in Hsm; [|discriminate].
  unfold SummaryService.buildBoxTops in Hsm.
  destruct (SummaryService.buildMaxes ts Box.res) as [m_res|] eqn:Hres;
    simpl in Hsm; [|discriminate].
  destruct (SummaryService.buildMaxes ts Box.ag) as [m_ag|] eqn:Hag;
    simpl in Hsm; [|discriminate].
  destruct (SummaryService.buildMaxes ts Box.indus) as [m_indus|] eqn:Hindus;
    simpl in Hsm; [|discriminate].
  inversion Hsm; subst sm; clear Hsm. cbn [SummaryService.boxTops SummaryService.maxes].
  split.
  - (* the stacking equations need nothing of the data *)
    exists m_res, m_ag, m_indus.
    repeat split; assumption || reflexivity.
  - intros Hnn.
    assert (Hsec : forall b, In b [Box.res; Box.ag; Box.indus] ->
              forall x, In x (map (fun t => SummaryService.tget t (SummaryService.KBox b)) ts)
                        -> 0 <= x).
    { intros b Hb x Hx. apply in_map_iff in Hx. destruct Hx as [t [<- Hin]].
      apply mapM_Ok_Forall2 in Hts.
      assert (Hex : exists p, In p (DataService.data ds)
                              /\ SummaryService.yearTotals hasHeat p = Ok t).
      { clear -Hts Hin. induction Hts as [|p t' ps ts' Hpt _ IH]; [contradiction|].
        destruct Hin as [->|Hin].
        - exists p. split; [now left|exact Hpt].
        - destruct (IH Hin) as [p' [Hp' Ht']]. exists p'. split; [now right|exact Ht']. }
      destruct Hex as [p [Hp Hpt]].
      eapply yearTotals_sector_nonneg; eauto.
      apply Hnn. now apply (new_data_In _ _ _ p Hnew). }
    rewrite buildMaxes_non_heat in Hres, Hag, Hindus by discriminate.
    assert (H1 : 0 <= m_res).
    { eapply math_max_nonneg; [exact Hres|]. apply Hsec. simpl; auto. }
    assert (H2 : 0 <= m_ag).
    { eapply math_max_nonneg; [exact Hag|]. apply Hsec. simpl; auto. }
    assert (H3 : 0 <= m_indus).
    { eapply math_max_nonneg; [exact Hindus|]. apply Hsec. simpl; auto. }
    unfold Props.increasing; cbn [SummaryService.bt_res SummaryService.bt_ag
      SummaryService.bt_indus SummaryService.bt_trans].
    unfold ConfigurationService.SCALE, ConfigurationService.RIGHT_GAP,
      ConfigurationService.LEFT_GAP, ConfigurationService.ELEC_BOX_Y.
    repeat split; lra.
Qed.

Lemma twoYears_nonneg : forall p, In p Samples.twoYears -> Props.dp_nonneg p.
Proof.
  intros p [<-|[<-|[]]] f o Ho; destruct f; simpl in Ho; inversion Ho; subst;
    unfold Props.sb_nonneg; simpl; repeat split; intro Hc; discriminate Hc.
Qed.

Lemma box_tops_increasing_witness :
  (exists ds sm,
     DataService.new Samples.twoYears = Ok (ds, false)
     /\ SummaryService.buildSummary false ds = Ok sm
     /\ Props.increasing (SummaryService.boxTops sm)
     /\ exists m_res m_ag m_indus,
          SummaryService.maxes sm Box.res = Some m_res
          /\ SummaryService.maxes sm Box.ag = Some m_ag
          /\ SummaryService.maxes sm Box.indus = Some m_indus
          /\ SummaryService.bt_ag (SummaryService.boxTops sm)
             = SummaryService.bt_res (SummaryService.boxTops sm)
               + m_res * ConfigurationService.SCALE + ConfigurationService.RIGHT_GAP
          /\ SummaryService.bt_indus (SummaryService.boxTops sm)
             = SummaryService.bt_ag (SummaryService.boxTops sm)
               + m_ag * ConfigurationService.SCALE + ConfigurationService.RIGHT_GAP
          /\ SummaryService.bt_trans (SummaryService.boxTops sm)
             = SummaryService.bt_indus (SummaryService.boxTops sm)
               + m_indus * ConfigurationService.SCALE
               + ConfigurationService.RIGHT_GAP)
  /\ (exists ds sm m_res m_ag m_indus,
        DataService.new [Samples.negativeRes] = Ok (ds, false)
        /\ SummaryService.buildSummary false ds = Ok sm
        /\ SummaryService.maxes sm Box.res = Some m_res
        /\ SummaryService.maxes sm Box.ag = Some m_ag
        /\ SummaryService.maxes sm Box.indus = Some m_indus
        /\ SummaryService.bt_ag (SummaryService.boxTops sm)
           = SummaryService.bt_res (SummaryService.boxTops sm)
             + m_res * ConfigurationService.SCALE + ConfigurationService.RIGHT_GAP
        /\ SummaryService.bt_indus (SummaryService.boxTops sm)
           = SummaryService.bt_ag (SummaryService.boxTops sm)
             + m_ag * ConfigurationService.SCALE + ConfigurationService.RIGHT_GAP
        /\ SummaryService.bt_trans (SummaryService.boxTops sm)
           = SummaryService.bt_indus (SummaryService.boxTops sm)
             + m_indus * ConfigurationService.SCALE
             + ConfigurationService.RIGHT_GAP).
Proof.
  split.
  - destruct (DataService.new Samples.twoYears) as [[ds h]|e] eqn:Hnew;
      [|vm_compute in Hnew; discriminate].
    assert (Hh : h = false).
    { vm_compute in Hnew. inversion Hnew; reflexivity. }
    subst h.
    destruct (SummaryService.buildSummary false ds) as [sm|e] eqn:Hsm.
    + exists ds, sm. split; [reflexivity|]. split; [exact Hsm|].
      destruct (box_tops_increasing Samples.twoYears ds false sm Hnew Hsm)
        as [Heq Hinc].
      split; [exact (Hinc twoYears_nonneg)|exact Heq].
    + exfalso. vm_compute in Hnew. inversion Hnew; subst; clear Hnew.
      vm_compute in Hsm. discriminate Hsm.
  - destruct (DataService.new [Samples.negativeRes]) as [[ds h]|e] eqn:Hnew;
      [|vm_compute in Hnew; discriminate].
    assert (Hh : h = false).
    { vm_compute in Hnew. inversion Hnew; reflexivity. }
    subst h.
    destruct (SummaryService.buildSummary false ds) as [sm|e] eqn:Hsm.
    + destruct (box_tops_increasing [Samples.negativeRes] ds false sm Hnew Hsm)
        as [(m_res & m_ag & m_indus & Heq) _].
      exists ds, sm, m_res, m_ag, m_indus.
      split; [reflexivity|]. split; [exact Hsm|exact Heq].
    + exfalso. vm_compute in Hnew. inversion Hnew; subst; clear Hnew.
      vm_compute in Hsm. discriminate Hsm.
Defined.

(** C4, as stated, fails on a dataset that validation accepts: with a coal
    entry of -4000 for the residential sector the agricultural box top (153)
    lies above the residential one (170). *)
Lemma box_tops_as_stated_fails :
  exists ds sm,
    DataService.new [Samples.negativeRes] = Ok (ds, false)
    /\ SummaryService.buildSummary false ds = Ok sm
    /\ ~ Props.increasing (SummaryService.boxTops sm).
Proof.
  set (ds := {| DataService.data := [Samples.negativeRes];
                DataService.years := [1990%Z]; DataService.yearsLength := 1;
                DataService.firstYear := 1990; DataService.lastYear := 1990 |}).
  destruct (SummaryService.buildSummary false ds) as [sm|e] eqn:Hsm;
    [|vm_compute in Hsm; discriminate].
  exists ds, sm. split; [vm_compute; reflexivity|]. split; [exact Hsm|].
  by_totals Hsm. vm_compute. intros [H _]. discriminate H.
Qed.

(* ------------------------------------------------------------------ *)
(** ** The stroke-value law through the four geometry passes *)

Section StrokeLaw.
Import GraphService.
Local Open Scope Q_scope.

Local Abbreviation law := Props.stroke_law.

Lemma law_fresh (v : Q) f bx pa pb pc pd pcc :
  law {| fuel := f; box := bx; value := v;
         stroke := v * ConfigurationService.SCALE / 2 * 2;
         a := pa; b := pb; c := pc; d := pd; cc := pcc |}.
Proof. unfold Props.stroke_law; simpl. field. Qed.

(** Updates that leave [stroke] and [value] alone keep the law. *)
Lemma law_same g g' :
  stroke g' = stroke g -> value g' = value g -> law g -> law g'.
Proof. unfold Props.stroke_law. intros -> ->. auto. Qed.

Lemma forEach_inv {St : Type} (I : St -> Prop) (f : St -> nat -> nat -> St) :
  (forall s pos j, I s -> I (f s pos j)) ->
  forall sel j s, I s -> I (forEach f sel j s).
Proof.
  intros Hf sel; induction sel as [|pos sel IH]; intros j s Hs; simpl; auto.
Qed.

Lemma update_at_const_Forall (P : GraphStroke -> Prop) pos g' gr :
  P g' -> Forall P gr -> Forall P (update_at pos (fun _ => g') gr).
Proof. intros Hg. apply update_at_Forall. auto. Qed.

Lemma nth_error_Forall (P : GraphStroke -> Prop) gr pos g :
  Forall P gr -> nth_error gr pos = Some g -> P g.
Proof.
  intros Hall Hn. rewrite Forall_forall in Hall. apply Hall.
  eapply nth_error_In; eauto.
Qed.

(** *** Pass 1 *)

Lemma wasteClone_law cfg wasteObj g fuelName lastBox elecY0 offs :
  law g -> law (fst (fst (wasteClone cfg wasteObj g fuelName lastBox elecY0 offs))).
Proof.
  intros Hg. unfold wasteClone.
  repeat match goal with
         | |- context [if ?cnd then _ else _] => destruct cnd
         end; simpl; try exact Hg;
    unfold Props.stroke_law; simpl; field.
Qed.

Lemma boxStep_law cfg bt totals0 wasteObj j fuelName fuelObj st boxName :
  Forall law (ys_graph st) ->
  Forall law (ys_graph (boxStep cfg bt totals0 wasteObj j fuelName fuelObj st boxName)).
Proof.
  intros Hst. unfold boxStep.
  destruct (same_name fuelName boxName); [exact Hst|].
  destruct (negb (ConfigurationService.hasHeatData cfg) && Box.eqb boxName Box.heat);
    [exact Hst|].
  destruct (Nat.eqb j 0) eqn:Hj0.
  - (* an electricity flow and its clone *)
    destruct (Box.eqb boxName Box.elec); [|destruct (Box.eqb boxName Box.heat)];
      match goal with
      | |- context [wasteClone ?cf ?w ?g ?f ?l ?e ?o] =>
          pose proof (wasteClone_law cf w g f l e o (law_fresh _ _ _ _ _ _ _ _)) as Hc;
          destruct (wasteClone cf w g f l e o) as [[cl e2] o3]
      end; simpl in *;
      (apply Forall_app; split;
       [apply Forall_app; split; [exact Hst|repeat constructor; apply law_fresh]
       |repeat constructor; exact Hc]).
  - destruct (Nat.eqb j 1);
      (destruct (Box.eqb boxName Box.elec); [|destruct (Box.eqb boxName Box.heat)]);
      simpl; (apply Forall_app; split;
              [exact Hst|repeat constructor; apply law_fresh]).
Qed.

Lemma boxes_law cfg bt totals0 wasteObj j fuelName fuelObj boxes st :
  Forall law (ys_graph st) ->
  Forall law (ys_graph (fold_left (boxStep cfg bt totals0 wasteObj j fuelName fuelObj)
                                  boxes st)).
Proof.
  revert st; induction boxes as [|bx boxes IH]; intros st Hst; simpl; [exact Hst|].
  apply IH. now apply boxStep_law.
Qed.

Lemma fuelStep_law cfg bt totals0 wasteObj st j fuelName st' :
  GraphService.fuelStep cfg bt totals0 wasteObj st j fuelName = Ok st' ->
  Forall law (ys_graph st) -> Forall law (ys_graph st').
Proof.
  unfold GraphService.fuelStep. intros H Hst.
  destruct (negb (ConfigurationService.hasHeatData cfg) && Fuel.eqb fuelName Fuel.heat).
  - inversion H; subst; exact Hst.
  - destruct (dp_get (ys_point st) fuelName) as [fuelObj0|]; [|discriminate].
    inversion H; subst; clear H.
    match goal with
    | |- context [fold_left ?f ?l ?s] =>
        assert (Hfold : Forall law (ys_graph (fold_left f l s)))
          by (apply boxes_law; exact Hst)
    end.
    destruct (Nat.ltb 1 j); simpl; exact Hfold.
Qed.

Lemma fuelsLoop_law cfg bt totals0 wasteObj fuels :
  forall j st st',
    GraphService.fuelsLoop cfg bt totals0 wasteObj j fuels st = Ok st' ->
    Forall law (ys_graph st) -> Forall law (ys_graph st').
Proof.
  induction fuels as [|f fuels IH]; intros j st st' H Hst; simpl in H.
  - inversion H; subst; exact Hst.
  - destruct (GraphService.fuelStep cfg bt totals0 wasteObj st j f) as [st1|e] eqn:H1;
      simpl in H; [|discriminate].
    eapply IH; [exact H|]. eapply fuelStep_law; eauto.
Qed.

Lemma graphYear_law cfg summary i point gd point' :
  graphYear cfg summary i point = Ok (gd, point') ->
  Forall law (graph gd).
Proof.
  unfold graphYear. intros H.
  destruct (nth_error (SummaryService.totals summary) i); [|discriminate].
  destruct (find _ (SummaryService.totals summary)); [|discriminate].
  match type of H with
  | context [GraphService.fuelsLoop ?c ?b ?t ?w ?j ?fs ?s] =>
      destruct (GraphService.fuelsLoop c b t w j fs s) as [st|e] eqn:Hloop;
        simpl in H; [|discriminate];
        pose proof (fuelsLoop_law c b t w fs j s st Hloop (Forall_nil _)) as Hlaw
  end.
  inversion H; subst; simpl. exact Hlaw.
Qed.

Lemma calculateGraphY_law cfg summary data graphs data' :
  calculateGraphY cfg summary data = Ok (graphs, data') ->
  Forall (fun gd => Forall law (graph gd)) graphs.
Proof.
  unfold calculateGraphY. generalize 0%nat as i.
  revert graphs data'; induction data as [|p data IH]; intros graphs data' i H;
    simpl in H.
  - inversion H; constructor.
  - destruct (graphYear cfg summary i p) as [[gd p']|e] eqn:Hy; simpl in H;
      [|discriminate].
    destruct (graphYears cfg summary (S i) data) as [[gs ps]|e] eqn:Hrest;
      simpl in H; [|discriminate].
    inversion H; subst. constructor.
    + eapply graphYear_law; eauto.
    + eapply IH; eauto.
Qed.

(** *** Pass 2 *)

Lemma upStep_law cfg totals0 s pos j : Props.xlaw s -> Props.xlaw (upStep cfg totals0 s pos j).
Proof.
  destruct s as [[gr offs] cur]. unfold Props.xlaw, upStep; simpl. intros Hgr.
  destruct (nth_error gr pos) as [g|] eqn:Hn; [|exact Hgr].
  pose proof (nth_error_Forall _ _ _ _ Hgr Hn) as Hg.
  destruct (negb (same_box cur (box g))); simpl;
    (apply update_at_const_Forall; [|exact Hgr]);
    (eapply law_same; [| |exact Hg]; reflexivity).
Qed.

Lemma downStep_law cfg s pos j : Props.xlaw s -> Props.xlaw (downStep cfg s pos j).
Proof.
  destruct s as [[gr offs] cur]. unfold Props.xlaw, downStep; simpl. intros Hgr.
  destruct (nth_error gr pos) as [g|] eqn:Hn; [|exact Hgr].
  pose proof (nth_error_Forall _ _ _ _ Hgr Hn) as Hg.
  destruct (negb (same_box cur (box g))); simpl;
    (apply update_at_const_Forall; [|exact Hgr]);
    (eapply law_same; [| |exact Hg]; reflexivity).
Qed.

Lemma upsYear_law cfg gd : Forall law (graph gd) -> Forall law (graph (upsYear cfg gd)).
Proof.
  intros H. unfold upsYear.
  match goal with
  | |- context [forEach ?f ?sel ?j ?s] =>
      pose proof (forEach_inv Props.xlaw f (fun s0 pos0 j0 => upStep_law cfg _ s0 pos0 j0)
                    sel j s H) as Hinv;
      destruct (forEach f sel j s) as [[gr offs] cur]
  end.
  exact Hinv.
Qed.

Lemma downsYear_law cfg gd :
  Forall law (graph gd) -> Forall law (graph (downsYear cfg gd)).
Proof.
  intros H. unfold downsYear.
  match goal with
  | |- context [forEach ?f ?sel ?j ?s] =>
      pose proof (forEach_inv Props.xlaw f (fun s0 pos0 j0 => downStep_law cfg s0 pos0 j0)
                    sel j s H) as Hinv;
      destruct (forEach f sel j s) as [[gr offs] cur]
  end.
  exact Hinv.
Qed.

(** *** Pass 3 *)

Lemma spaceStep_law cfg s pos j : Props.plaw s -> Props.plaw (spaceStep cfg s pos j).
Proof.
  destruct s as [gr prev]. unfold Props.plaw, spaceStep; simpl. intros Hgr.
  destruct (Nat.eqb j 0); [exact Hgr|].
  destruct (nth_error gr pos) as [g|] eqn:Hn; [|exact Hgr].
  destruct prev as [ppos|]; [|exact Hgr].
  destruct (nth_error gr ppos) as [pg|]; [|exact Hgr].
  pose proof (nth_error_Forall _ _ _ _ Hgr Hn) as Hg. simpl.
  apply update_at_const_Forall; [|exact Hgr].
  eapply law_same; [| |exact Hg]; reflexivity.
Qed.

Lemma anchorStep_law cfg max_cc gr pos j :
  Forall law gr -> Forall law (anchorStep cfg max_cc gr pos j).
Proof.
  intros Hgr. unfold anchorStep. apply update_at_Forall; [|exact Hgr].
  intros g Hg. eapply law_same; [| |exact Hg]; reflexivity.
Qed.

Lemma spaceYear_law cfg gd gd' :
  spaceYear cfg gd = Ok gd' -> Forall law (graph gd) -> Forall law (graph gd').
Proof.
  unfold spaceYear. intros H Hgd.
  match type of H with
  | context [forEach ?f ?sel ?j ?s] =>
      assert (Hinv : Props.plaw (forEach f sel j s))
        by (apply forEach_inv;
            [intros; now apply spaceStep_law
            |unfold Props.plaw; simpl; now apply js_sort_Forall]);
      destruct (forEach f sel j s) as [gr2 prev]
  end.
  unfold Props.plaw in Hinv; simpl in Hinv.
  destruct (SummaryService.math_max (map (fun o => x (cc o)) gr2)) as [m|];
    simpl in H; [|discriminate].
  inversion H; subst; simpl.
  apply forEach_inv; [|exact Hinv].
  intros; now apply anchorStep_law.
Qed.

(** *** Pass 4 *)

Lemma wasteStep_law s pos j : Props.plaw s -> Props.plaw (wasteStep s pos j).
Proof.
  destruct s as [gr prev]. unfold Props.plaw, wasteStep; cbv beta iota.
  cbn [fst]. intros Hgr.
  destruct (negb (Nat.eqb (Nat.modulo j 2) 0)); [|exact Hgr].
  destruct (nth_error gr pos) as [g|] eqn:Hn; [|exact Hgr].
  pose proof (nth_error_Forall _ _ _ _ Hgr Hn) as Hg. cbn [fst].
  apply update_at_const_Forall; [|exact Hgr].
  destruct prev as [ppos|]; [destruct (nth_error gr ppos) as [pg|]|];
    (eapply law_same; [| |exact Hg]; reflexivity).
Qed.

Lemma wasteYear_law gd : Forall law (graph gd) -> Forall law (graph (wasteYear gd)).
Proof.
  intros H. unfold wasteYear.
  match goal with
  | |- context [forEach ?f ?sel ?j ?s] =>
      pose proof (forEach_inv Props.plaw f wasteStep_law sel j s H) as Hinv;
      destruct (forEach f sel j s) as [gr prev]
  end.
  exact Hinv.
Qed.

(** *** The pipeline *)

Lemma Forall_map_law (f : GraphData -> GraphData) graphs :
  (forall gd, Forall law (graph gd) -> Forall law (graph (f gd))) ->
  Forall (fun gd => Forall law (graph gd)) graphs ->
  Forall (fun gd => Forall law (graph gd)) (map f graphs).
Proof.
  intros Hf H; induction H; simpl; constructor; auto.
Qed.

Lemma spaceUpsAndDowns_law cfg graphs graphs' :
  spaceUpsAndDowns cfg graphs = Ok graphs' ->
  Forall (fun gd => Forall law (graph gd)) graphs ->
  Forall (fun gd => Forall law (graph gd)) graphs'.
Proof.
  intros H Hall. apply mapM_Ok_Forall2 in H.
  induction H as [|gd gd' gs gs' Hgd _ IH]; [constructor|].
  inversion Hall; subst. constructor; [|now apply IH].
  eapply spaceYear_law; eauto.
Qed.

Lemma buildGraphs_law cfg summary data graphs data' :
  buildGraphs cfg summary data = Ok (graphs, data') ->
  Forall (fun gd => Forall law (graph gd)) graphs.
Proof.
  unfold buildGraphs. intros H.
  destruct (calculateGraphY cfg summary data) as [[g1 d1]|e] eqn:H1;
    simpl in H; [|discriminate].
  destruct (spaceUpsAndDowns cfg (calculateGraphX cfg g1)) as [g2|e] eqn:H2;
    simpl in H; [|discriminate].
  inversion H; subst; clear H.
  unfold processWasteHeatFlows. apply Forall_map_law; [apply wasteYear_law|].
  eapply spaceUpsAndDowns_law; [exact H2|].
  unfold calculateGraphX, calculateGraphXDowns, calculateGraphXUps.
  apply Forall_map_law; [apply downsYear_law|].
  apply Forall_map_law; [apply upsYear_law|].
  eapply calculateGraphY_law; eauto.
Qed.

End StrokeLaw.

(** C3: for every stroke of every year's graph, as the four passes
    (Y-assignment with waste-heat cloning, X-refinement, global spacing,
    waste split) leave it, [stroke == value * SCALE] with [SCALE = 0.02];
    this covers the ordinary fuel-to-sector strokes and the waste-heat
    clones alike. *)
Theorem stroke_value_law :
  forall cfg0 energyData sv,
    Services.create cfg0 energyData = Ok sv ->
    ConfigurationService.SCALE == 2 # 100
    /\ Forall (fun gd => Forall Props.stroke_law (GraphService.graph gd))
              (Services.graphs sv).
Proof.
  intros cfg0 energyData sv H. split; [reflexivity|].
  unfold Services.create in H.
  destruct (DataService.new energyData) as [[ds h]|e]; simpl in H; [|discriminate].
  destruct (SummaryService.buildSummary h ds) as [sm|e]; simpl in H; [|discriminate].
  destruct (GraphService.buildGraphs (Services.with_hasHeatData cfg0 h) sm
              (DataService.data ds)) as [[gs d']|e] eqn:Hg; simpl in H; [|discriminate].
  inversion H; subst; simpl.
  eapply buildGraphs_law; eauto.
Qed.

Lemma create_oneYear_ok :
  isOk (Services.create Samples.cfg [Samples.p2000]) = true.
Proof. vm_cast_no_check (eq_refl true). Qed.

Lemma stroke_value_law_witness :
  exists sv,
    Services.create Samples.cfg [Samples.p2000] = Ok sv
    /\ Forall (fun gd => Forall Props.stroke_law (GraphService.graph gd))
              (Services.graphs sv).
Proof.
  destruct (Services.create Samples.cfg [Samples.p2000]) as [sv|e] eqn:Hsv.
  - exists sv. split; [reflexivity|].
    exact (proj2 (stroke_value_law Samples.cfg [Samples.p2000] sv Hsv)).
  - exfalso. pose proof create_oneYear_ok as H. rewrite Hsv in H.
    discriminate H.
Defined.

(* ------------------------------------------------------------------ *)
(** ** What graph precomputation does to the records *)

Section Records.
Import GraphService.

Lemma dp_get_dp_put p f o g :
  dp_get (dp_put p f o) g = if Fuel.eqb f g then Some o else dp_get p g.
Proof. destruct f, g; reflexivity. Qed.

Lemma same_values_refl p : Props.same_values p p.
Proof.
  repeat split. intros f. destruct (dp_get p f); [intros b; reflexivity|exact I].
Qed.

Lemma same_values_put p q f o :
  Props.same_values p q ->
  dp_get q f = Some o ->
  Props.same_values p (dp_put q f (sb_set_total o 0)).
Proof.
  intros (Hy & Hm & Hv) Ho. split; [exact Hy|]. split; [exact Hm|].
  intros g. rewrite dp_get_dp_put. specialize (Hv g).
  destruct (Fuel.eqb f g) eqn:Hfg; [|exact Hv].
  assert (f = g) by (destruct f, g; simpl in Hfg; congruence). subst g.
  rewrite Ho in Hv. destruct (dp_get p f); [|contradiction].
  intros bx. rewrite <- (Hv bx). destruct bx; reflexivity.
Qed.

Lemma boxStep_point cfg bt totals0 wasteObj j fuelName fuelObj st boxName :
  ys_point (boxStep cfg bt totals0 wasteObj j fuelName fuelObj st boxName)
  = ys_point st.
Proof.
  unfold boxStep.
  repeat match goal with
         | |- context [wasteClone ?cf ?w ?g ?f ?l ?e ?o] =>
             destruct (wasteClone cf w g f l e o) as [[? ?] ?]
         | |- context [if ?cnd then _ else _] => destruct cnd
         end; reflexivity.
Qed.

Lemma boxes_point cfg bt totals0 wasteObj j fuelName fuelObj boxes st :
  ys_point (fold_left (boxStep cfg bt totals0 wasteObj j fuelName fuelObj) boxes st)
  = ys_point st.
Proof.
  revert st; induction boxes as [|bx boxes IH]; intros st; simpl; [reflexivity|].
  rewrite IH. apply boxStep_point.
Qed.

Lemma fuelStep_same_values cfg bt totals0 wasteObj st j fuelName st' p :
  GraphService.fuelStep cfg bt totals0 wasteObj st j fuelName = Ok st' ->
  Props.same_values p (ys_point st) -> Props.same_values p (ys_point st').
Proof.
  unfold GraphService.fuelStep. intros H Hp.
  destruct (negb (ConfigurationService.hasHeatData cfg) && Fuel.eqb fuelName Fuel.heat).
  - inversion H; subst; exact Hp.
  - destruct (dp_get (ys_point st) fuelName) as [fuelObj0|] eqn:Hget; [|discriminate].
    inversion H; subst; clear H.
    match goal with
    | |- context [fold_left ?f ?l ?s] =>
        assert (Hpt : ys_point (fold_left f l s) = ys_point s) by apply boxes_point
    end.
    simpl in Hpt.
    destruct (Nat.ltb 1 j); simpl; rewrite Hpt; now apply same_values_put.
Qed.

Lemma fuelsLoop_same_values cfg bt totals0 wasteObj fuels p :
  forall j st st',
    GraphService.fuelsLoop cfg bt totals0 wasteObj j fuels st = Ok st' ->
    Props.same_values p (ys_point st) -> Props.same_values p (ys_point st').
Proof.
  induction fuels as [|f fuels IH]; intros j st st' H Hp; simpl in H.
  - inversion H; subst; exact Hp.
  - destruct (GraphService.fuelStep cfg bt totals0 wasteObj st j f) as [st1|e] eqn:H1;
      simpl in H; [|discriminate].
    eapply IH; [exact H|]. eapply fuelStep_same_values; eauto.
Qed.

(** Graph precomputation leaves the year, the milestone and every
    (fuel, sector) energy value of every record as they were. *)
Lemma calculateGraphY_same_values cfg summary data graphs data' :
  calculateGraphY cfg summary data = Ok (graphs, data') ->
  Forall2 Props.same_values data data'.
Proof.
  unfold calculateGraphY. generalize 0%nat as i.
  revert graphs data'; induction data as [|p data IH]; intros graphs data' i H;
    simpl in H.
  - inversion H; constructor.
  - destruct (graphYear cfg summary i p) as [[gd p']|e] eqn:Hy; simpl in H;
      [|discriminate].
    destruct (graphYears cfg summary (S i) data) as [[gs ps]|e] eqn:Hrest;
      simpl in H; [|discriminate].
    inversion H; subst. constructor; [|eapply IH; eauto].
    unfold graphYear in Hy.
    destruct (nth_error (SummaryService.totals summary) i); [|discriminate].
    destruct (find _ (SummaryService.totals summary)); [|discriminate].
    match type of Hy with
    | context [GraphService.fuelsLoop ?c ?b ?t ?w ?j ?fs ?s] =>
        destruct (GraphService.fuelsLoop c b t w j fs s) as [st|e] eqn:Hloop;
          simpl in Hy; [|discriminate];
          pose proof (fuelsLoop_same_values c b t w fs p j s st Hloop
                        (same_values_refl p)) as Hsv
    end.
    inversion Hy; subst. exact Hsv.
Qed.

End Records.

(** C7: on the validated one-year dataset [[Samples.p2000]] the graph
    precomputation [calculateGraphY] returns, and the record it leaves behind
    differs from the stored one: the coal breakdown, which had no [total]
    property, now carries [total = 0]. *)
Theorem calculateGraphY_writes_total :
  exists sm r p',
    DataService.new [Samples.p2000] = Ok (Samples.ds1, false)
    /\ SummaryService.buildSummary false Samples.ds1 = Ok sm
    /\ GraphService.calculateGraphY Samples.cfg sm (DataService.data Samples.ds1) = Ok r
    /\ snd r = [p']
    /\ sb_total (dp_coal Samples.p2000) = None
    /\ sb_total (dp_coal p') = Some 0
    /\ p' <> Samples.p2000.
Proof.
  assert (Hmain :
    match SummaryService.buildSummary false Samples.ds1 with
    | Ok sm =>
        match GraphService.calculateGraphY Samples.cfg sm
                (DataService.data Samples.ds1) with
        | Ok r => exists p', snd r = [p']
                             /\ sb_total (dp_coal p') = Some 0
                             /\ p' <> Samples.p2000
        | Throw _ => False
        end
    | Throw _ => False
    end).
  { vm_compute. eexists. split; [reflexivity|]. split; [reflexivity|].
    intros Heq. discriminate Heq. }
  revert Hmain.
  destruct (SummaryService.buildSummary false Samples.ds1) as [sm|e] eqn:Hsm;
    [|contradiction].
  destruct (GraphService.calculateGraphY Samples.cfg sm
              (DataService.data Samples.ds1)) as [r|e] eqn:Hr; [|contradiction].
  intros [p' (H1 & H2 & H3)].
  exists sm, r, p'. split; [vm_compute; reflexivity|].
  split; [reflexivity|]. split; [exact Hr|].
  repeat split; assumption || reflexivity.
Qed.

(* ------------------------------------------------------------------ *)
(** ** Construction returns on validated, heat-uniform datasets *)

Lemma dp_get_None p f : dp_get p f = None -> f = Fuel.heat /\ dp_heat p = None.
Proof. destruct f; simpl; intros H; try discriminate H. now split. Qed.

Lemma sectorStep_total hasHeat p j f o total b :
  (hasHeat = true -> dp_heat p <> None) ->
  exists total',
    SummaryService.sectorStep hasHeat p j f o total b = Ok total'
    /\ SummaryService.t_year total' = SummaryService.t_year total.
Proof.
  intros Hh. unfold SummaryService.sectorStep.
  destruct (negb hasHeat && Box.eqb b Box.heat); [eauto|].
  destruct (Nat.eqb j 2 && negb (Box.eqb b Box.heat) && hasHeat) eqn:Hc.
  - assert (Ht : hasHeat = true).
    { destruct hasHeat; [reflexivity|]. rewrite andb_false_r in Hc. discriminate Hc. }
    destruct (dp_heat p) as [h|] eqn:Hp; [|exfalso; now apply Hh].
    eexists; split; [reflexivity|].
    destruct (Nat.eqb j 2 && negb (Box.eqb b Box.elec)); reflexivity.
  - eexists; split; [reflexivity|].
    destruct (Nat.eqb j 2 && negb (Box.eqb b Box.elec)); reflexivity.
Qed.

Lemma sectorsLoop_total hasHeat p j f o boxes :
  (hasHeat = true -> dp_heat p <> None) ->
  forall total,
  exists total',
    SummaryService.sectorsLoop hasHeat p j f o boxes total = Ok total'
    /\ SummaryService.t_year total' = SummaryService.t_year total.
Proof.
  intros Hh. induction boxes as [|b boxes IH]; intros total; simpl.
  - eauto.
  - destruct (sectorStep_total hasHeat p j f o total b Hh) as [t1 [H1 Hy1]].
    rewrite H1; simpl.
    destruct (IH t1) as [t2 [H2 Hy2]]. exists t2. split; [exact H2|congruence].
Qed.

Lemma summary_fuelStep_total hasHeat p total j f :
  (hasHeat = true -> dp_heat p <> None) ->
  exists total',
    SummaryService.fuelStep hasHeat p total j f = Ok total'
    /\ SummaryService.t_year total' = SummaryService.t_year total.
Proof.
  intros Hh. unfold SummaryService.fuelStep.
  destruct (dp_get p f) as [o|] eqn:Hget.
  - destruct (negb hasHeat && Fuel.eqb f Fuel.heat); [eauto|].
    destruct (sectorsLoop_total hasHeat p j f o ConfigurationService.BOX_NAMES Hh total)
      as [t1 [H1 Hy1]].
    rewrite H1; simpl. eexists; split; [reflexivity|]. exact Hy1.
  - destruct (dp_get_None _ _ Hget) as [-> Hnone].
    destruct hasHeat; simpl; [|eauto].
    exfalso. now apply Hh.
Qed.

Lemma summary_fuelsLoop_total hasHeat p fuels :
  (hasHeat = true -> dp_heat p <> None) ->
  forall j total,
  exists total',
    SummaryService.fuelsLoop hasHeat p j fuels total = Ok total'
    /\ SummaryService.t_year total' = SummaryService.t_year total.
Proof.
  intros Hh. induction fuels as [|f fuels IH]; intros j total; simpl.
  - eauto.
  - destruct (summary_fuelStep_total hasHeat p total j f Hh) as [t1 [H1 Hy1]].
    rewrite H1; simpl.
    destruct (IH (S j) t1) as [t2 [H2 Hy2]]. exists t2. split; [exact H2|congruence].
Qed.

Lemma yearTotals_total hasHeat p :
  (hasHeat = true -> dp_heat p <> None) ->
  exists t, SummaryService.yearTotals hasHeat p = Ok t
            /\ SummaryService.t_year t = year p.
Proof.
  intros Hh. unfold SummaryService.yearTotals.
  destruct (summary_fuelsLoop_total hasHeat p
              (skipn 2 ConfigurationService.FUELS) Hh 2%nat
              (SummaryService.initTotal hasHeat p)) as [t1 [H1 Hy1]].
  rewrite H1; simpl. eexists; split; [reflexivity|].
  destruct hasHeat; simpl; exact Hy1.
Qed.

Lemma buildTotals_total hasHeat data :
  Props.heat_uniform hasHeat data ->
  exists ts,
    SummaryService.buildTotals hasHeat data = Ok ts
    /\ Forall2 (fun p t => SummaryService.t_year t = year p) data ts.
Proof.
  unfold Props.heat_uniform, SummaryService.buildTotals.
  induction data as [|p data IH]; intros Hu; simpl.
  - exists []. split; [reflexivity|constructor].
  - destruct (yearTotals_total hasHeat p) as [t [Ht Hy]].
    { intros Hh. apply Hu; [exact Hh|now left]. }
    destruct IH as [ts [Hts Hys]].
    { intros Hh q Hq. apply Hu; [exact Hh|now right]. }
    rewrite Ht; simpl. rewrite Hts; simpl.
    exists (t :: ts). split; [reflexivity|]. constructor; assumption.
Qed.

Lemma math_max_defined x xs : exists m, SummaryService.math_max (x :: xs) = Some m.
Proof. simpl. eauto. Qed.

Lemma buildSummary_total hasHeat ds :
  DataService.data ds <> [] ->
  Props.heat_uniform hasHeat (DataService.data ds) ->
  exists sm,
    SummaryService.buildSummary hasHeat ds = Ok sm
    /\ Forall2 (fun p t => SummaryService.t_year t = year p)
               (DataService.data ds) (SummaryService.totals sm).
Proof.
  intros Hne Hu. unfold SummaryService.buildSummary.
  destruct (buildTotals_total hasHeat (DataService.data ds) Hu) as [ts [Hts Hys]].
  rewrite Hts; simpl.
  assert (Hts_ne : exists t ts', ts = t :: ts').
  { inversion Hys; subst; [congruence|eauto]. }
  destruct Hts_ne as [t [ts' ->]].
  unfold SummaryService.buildBoxTops.
  rewrite !buildMaxes_non_heat by discriminate. simpl.
  eexists. split; [reflexivity|]. exact Hys.
Qed.

(** *** The graph passes return *)

Section GraphsReturn.
Import GraphService.

Lemma boxStep_grows cfg bt totals0 wasteObj j fuelName fuelObj st boxName :
  exists extra,
    ys_graph (boxStep cfg bt totals0 wasteObj j fuelName fuelObj st boxName)
    = ys_graph st ++ extra
    /\ (same_name fuelName boxName = false ->
        (negb (ConfigurationService.hasHeatData cfg) && Box.eqb boxName Box.heat) = false ->
        extra <> []).
Proof.
  unfold boxStep.
  destruct (same_name fuelName boxName).
  { exists []. rewrite app_nil_r. split; [reflexivity|discriminate]. }
  destruct (negb (ConfigurationService.hasHeatData cfg) && Box.eqb boxName Box.heat).
  { exists []. rewrite app_nil_r. split; [reflexivity|discriminate]. }
  repeat match goal with
         | |- context [wasteClone ?cf ?w ?g ?f ?l ?e ?o] =>
             destruct (wasteClone cf w g f l e o) as [[? ?] ?]
         | |- context [if ?cnd then _ else _] => destruct cnd
         end; cbn [ys_graph];
    match goal with
    | |- exists extra, (?l ++ ?u) ++ ?v = ?l ++ extra /\ _ =>
        exists (u ++ v); split;
        [ symmetry; apply app_assoc
        | intros _ _ Habs; apply app_eq_nil in Habs; destruct Habs as [Habs _];
          discriminate Habs ]
    | |- exists extra, ?l ++ ?u = ?l ++ extra /\ _ =>
        exists u; split; [ reflexivity | intros _ _ Habs; discriminate Habs ]
    end.
Qed.

Lemma boxes_grows cfg bt totals0 wasteObj j fuelName fuelObj boxes :
  forall st,
  exists extra,
    ys_graph (fold_left (boxStep cfg bt totals0 wasteObj j fuelName fuelObj) boxes st)
    = ys_graph st ++ extra.
Proof.
  induction boxes as [|bx boxes IH]; intros st; simpl.
  - exists []. now rewrite app_nil_r.
  - destruct (IH (boxStep cfg bt totals0 wasteObj j fuelName fuelObj st bx)) as [e2 H2].
    destruct (boxStep_grows cfg bt totals0 wasteObj j fuelName fuelObj st bx) as [e1 [H1 _]].
    exists (e1 ++ e2). rewrite H2, H1. now rewrite app_assoc.
Qed.

Lemma boxesFor_elec :
  boxesFor Fuel.elec = [Box.elec; Box.res; Box.ag; Box.indus; Box.trans; Box.heat].
Proof. vm_compute. reflexivity. Qed.

Lemma fold_left_two {A B : Type} (F : A -> B -> A) x1 x2 rest s :
  fold_left F (x1 :: x2 :: rest) s = fold_left F rest (F (F s x1) x2).
Proof. reflexivity. Qed.

(** The sectors loop of the electricity fuel pushes at least the stroke
    into the residential box. *)
Lemma boxes_elec_nonempty cfg bt totals0 wasteObj fuelObj st :
  ys_graph (fold_left (boxStep cfg bt totals0 wasteObj 0 Fuel.elec fuelObj)
                      (boxesFor Fuel.elec) st) <> [].
Proof.
  rewrite boxesFor_elec, fold_left_two.
  set (st1 := boxStep cfg bt totals0 wasteObj 0 Fuel.elec fuelObj st Box.elec).
  destruct (boxStep_grows cfg bt totals0 wasteObj 0 Fuel.elec fuelObj st1 Box.res)
    as [e1 [H1 Hne]].
  destruct (boxes_grows cfg bt totals0 wasteObj 0 Fuel.elec fuelObj
              [Box.ag; Box.indus; Box.trans; Box.heat]
              (boxStep cfg bt totals0 wasteObj 0 Fuel.elec fuelObj st1 Box.res))
    as [e2 H2].
  rewrite H2, H1. intros Habs.
  apply app_eq_nil in Habs. destruct Habs as [Habs _].
  apply app_eq_nil in Habs. destruct Habs as [_ Habs].
  apply Hne; [reflexivity| |exact Habs].
  now rewrite andb_false_r.
Qed.

Lemma graph_fuelStep_total cfg bt totals0 wasteObj st j fuelName :
  Props.heat_ready cfg st ->
  exists st',
    GraphService.fuelStep cfg bt totals0 wasteObj st j fuelName = Ok st'
    /\ Props.heat_ready cfg st'
    /\ (ys_graph st <> [] -> ys_graph st' <> [])
    /\ (j = 0%nat -> fuelName = Fuel.elec -> ys_graph st' <> []).
Proof.
  intros Hr. unfold GraphService.fuelStep.
  destruct (negb (ConfigurationService.hasHeatData cfg) && Fuel.eqb fuelName Fuel.heat)
    eqn:Hskip.
  - exists st. repeat split; auto.
    intros _ ->. rewrite andb_false_r in Hskip. discriminate Hskip.
  - destruct (dp_get (ys_point st) fuelName) as [fuelObj0|] eqn:Hget.
    + eexists. split; [reflexivity|].
      match goal with
      | |- context [fold_left ?f ?l ?s] =>
          pose proof (boxes_point cfg bt totals0 wasteObj j fuelName
                        (sb_set_total fuelObj0 0) l s) as Hpt;
          destruct (boxes_grows cfg bt totals0 wasteObj j fuelName
                      (sb_set_total fuelObj0 0) l s) as [extra Hgr];
          pose proof (boxes_elec_nonempty cfg bt totals0 wasteObj
                        (sb_set_total fuelObj0 0) s) as Hel
      end.
      cbn [ys_point ys_graph] in Hpt, Hgr.
      split; [|split].
      * unfold Props.heat_ready. intros Hh.
        destruct (Nat.ltb 1 j); cbn [ys_point]; rewrite Hpt;
          (destruct fuelName; simpl; try discriminate; apply Hr; exact Hh).
      * intros Hne. destruct (Nat.ltb 1 j); cbn [ys_graph]; rewrite Hgr;
          intros Habs; apply app_eq_nil in Habs; destruct Habs as [Habs _];
          now apply Hne.
      * intros -> ->. cbn [Nat.ltb Nat.leb]. exact Hel.
    + exfalso. destruct (dp_get_None _ _ Hget) as [-> Hnone].
      destruct (ConfigurationService.hasHeatData cfg) eqn:Hh; simpl in Hskip;
        [|discriminate Hskip].
      now apply Hr.
Qed.

Lemma graph_fuelsLoop_total cfg bt totals0 wasteObj fuels :
  forall j st,
    Props.heat_ready cfg st ->
    exists st',
      GraphService.fuelsLoop cfg bt totals0 wasteObj j fuels st = Ok st'
      /\ (ys_graph st <> [] -> ys_graph st' <> [])
      /\ (j = 0%nat -> hd_error fuels = Some Fuel.elec -> ys_graph st' <> []).
Proof.
  induction fuels as [|f fuels IH]; intros j st Hr; simpl.
  - exists st. repeat split; auto. intros _ H; discriminate H.
  - destruct (graph_fuelStep_total cfg bt totals0 wasteObj st j f Hr)
      as [st1 (H1 & Hr1 & Hk1 & He1)].
    rewrite H1; simpl.
    destruct (IH (S j) st1 Hr1) as [st2 (H2 & Hk2 & _)].
    exists st2. split; [exact H2|]. split.
    + intros Hne. apply Hk2, Hk1, Hne.
    + intros Hj Hf. inversion Hf; subst. apply Hk2, He1; reflexivity.
Qed.

Lemma graphYear_total cfg summary i point totals_i totals0 :
  nth_error (SummaryService.totals summary) i = Some totals_i ->
  find (fun t => (SummaryService.t_year t =? year point)%Z)
       (SummaryService.totals summary) = Some totals0 ->
  (ConfigurationService.hasHeatData cfg = true -> dp_heat point <> None) ->
  exists gd point',
    graphYear cfg summary i point = Ok (gd, point') /\ graph gd <> [].
Proof.
  intros Hi Hf Hh. unfold graphYear. rewrite Hi, Hf.
  match goal with
  | |- context [GraphService.fuelsLoop ?c ?b ?t ?w ?j ?fs ?s] =>
      destruct (graph_fuelsLoop_total c b t w fs j s Hh) as [st (Hst & _ & Hne)]
  end.
  rewrite Hst; simpl. eexists; eexists. split; [reflexivity|].
  simpl. apply Hne; reflexivity.
Qed.

(** Passes 2 to 4 keep the number of strokes. *)

Lemma upStep_length cfg totals0 n (s : XState) pos j :
  length (fst (fst s)) = n -> length (fst (fst (upStep cfg totals0 s pos j))) = n.
Proof.
  destruct s as [[gr offs] cur]. unfold upStep. cbn [fst]. intros Hn.
  destruct (nth_error gr pos) as [g|]; [|exact Hn].
  destruct (negb (same_box cur (box g))); cbn [fst]; now rewrite update_at_length.
Qed.

Lemma downStep_length cfg n (s : XState) pos j :
  length (fst (fst s)) = n -> length (fst (fst (downStep cfg s pos j))) = n.
Proof.
  destruct s as [[gr offs] cur]. unfold downStep. cbn [fst]. intros Hn.
  destruct (nth_error gr pos) as [g|]; [|exact Hn].
  destruct (negb (same_box cur (box g))); cbn [fst]; now rewrite update_at_length.
Qed.

Lemma upsYear_length cfg gd : length (graph (upsYear cfg gd)) = length (graph gd).
Proof.
  unfold upsYear.
  match goal with
  | |- context [forEach ?f ?sel ?j ?s] =>
      pose proof (forEach_inv (fun s0 : XState => length (fst (fst s0)) = length (graph gd))
                    f (fun s0 pos0 j0 => upStep_length cfg _ _ s0 pos0 j0)
                    sel j s eq_refl) as Hinv;
      destruct (forEach f sel j s) as [[gr offs] cur]
  end.
  exact Hinv.
Qed.

Lemma downsYear_length cfg gd : length (graph (downsYear cfg gd)) = length (graph gd).
Proof.
  unfold downsYear.
  match goal with
  | |- context [forEach ?f ?sel ?j ?s] =>
      pose proof (forEach_inv (fun s0 : XState => length (fst (fst s0)) = length (graph gd))
                    f (fun s0 pos0 j0 => downStep_length cfg _ s0 pos0 j0)
                    sel j s eq_refl) as Hinv;
      destruct (forEach f sel j s) as [[gr offs] cur]
  end.
  exact Hinv.
Qed.

Lemma spaceStep_length cfg n (s : list GraphStroke * option nat) pos j :
  length (fst s) = n -> length (fst (spaceStep cfg s pos j)) = n.
Proof.
  destruct s as [gr prev]. unfold spaceStep. cbn [fst]. intros Hn.
  destruct (Nat.eqb j 0); [exact Hn|].
  destruct (nth_error gr pos) as [g|]; [|exact Hn].
  destruct prev as [ppos|]; [|exact Hn].
  destruct (nth_error gr ppos) as [pg|]; [|exact Hn].
  cbn [fst]. now rewrite update_at_length.
Qed.

Lemma wasteStep_length n (s : list GraphStroke * option nat) pos j :
  length (fst s) = n -> length (fst (wasteStep s pos j)) = n.
Proof.
  destruct s as [gr prev]. unfold wasteStep. cbn [fst]. intros Hn.
  destruct (negb (Nat.eqb (Nat.modulo j 2) 0)); [|exact Hn].
  destruct (nth_error gr pos) as [g|]; [|exact Hn].
  cbn [fst]. now rewrite update_at_length.
Qed.

Lemma spaceYear_total cfg gd :
  graph gd <> [] ->
  exists gd', spaceYear cfg gd = Ok gd' /\ length (graph gd') = length (graph gd).
Proof.
  intros Hne. unfold spaceYear.
  match goal with
  | |- context [forEach ?f ?sel ?j (?gr1, None)] =>
      pose proof (forEach_inv
                    (fun s0 : list GraphStroke * option nat =>
                       length (fst s0) = length (graph gd))
                    f (fun s0 pos0 j0 => spaceStep_length cfg _ s0 pos0 j0)
                    sel j (gr1, None) (js_sort_length _ _)) as Hinv;
      destruct (forEach f sel j (gr1, None)) as [gr2 prev]
  end.
  cbn [fst] in Hinv.
  destruct gr2 as [|g0 gr2'].
  { exfalso. destruct (graph gd); [now apply Hne|discriminate Hinv]. }
  cbn [map SummaryService.math_max SummaryService.finite bind].
  eexists. split; [reflexivity|]. cbn [graph with_graph].
  rewrite <- Hinv.
  apply forEach_inv; [|reflexivity].
  intros s0 pos0 j0 Hs. unfold anchorStep. now rewrite update_at_length.
Qed.

Lemma wasteYear_length gd : length (graph (wasteYear gd)) = length (graph gd).
Proof.
  unfold wasteYear.
  match goal with
  | |- context [forEach ?f ?sel ?j ?s] =>
      pose proof (forEach_inv
                    (fun s0 : list GraphStroke * option nat =>
                       length (fst s0) = length (graph gd))
                    f (fun s0 pos0 j0 => wasteStep_length _ s0 pos0 j0)
                    sel j s eq_refl) as Hinv;
      destruct (forEach f sel j s) as [gr prev]
  end.
  exact Hinv.
Qed.

Lemma nonempty_by_length (l l' : list GraphStroke) :
  length l' = length l -> l <> [] -> l' <> [].
Proof. intros Hl Hne ->. destruct l; [now apply Hne|discriminate Hl]. Qed.

Lemma spaceUpsAndDowns_total cfg graphs :
  Forall (fun gd => graph gd <> []) graphs ->
  exists graphs', spaceUpsAndDowns cfg graphs = Ok graphs'.
Proof.
  intros H. unfold spaceUpsAndDowns. apply mapM_total.
  intros gd Hin. rewrite Forall_forall in H.
  destruct (spaceYear_total cfg gd (H gd Hin)) as [gd' [Hgd _]]. eauto.
Qed.

Lemma skipn_cons_inv {A : Type} (l : list A) :
  forall i x rest, skipn i l = x :: rest ->
                   nth_error l i = Some x /\ skipn (S i) l = rest.
Proof.
  induction l as [|y l IH]; intros i x rest H.
  - destruct i; discriminate H.
  - destruct i as [|i]; simpl in H.
    + inversion H; subst. split; reflexivity.
    + destruct (IH i x rest H) as [H1 H2]. split; [exact H1|exact H2].
Qed.

Lemma find_defined {A : Type} (f : A -> bool) (l : list A) x :
  In x l -> f x = true -> exists y, find f l = Some y.
Proof.
  induction l as [|z l IH]; intros Hin Hf; [contradiction|]. simpl.
  destruct (f z) eqn:Hz; [eauto|].
  destruct Hin as [->|Hin]; [congruence|]. now apply IH.
Qed.

Lemma graphYears_total cfg summary data :
  forall i,
    Forall2 (fun p t => SummaryService.t_year t = year p)
            data (skipn i (SummaryService.totals summary)) ->
    (ConfigurationService.hasHeatData cfg = true ->
     forall p, In p data -> dp_heat p <> None) ->
    exists gs ds',
      graphYears cfg summary i data = Ok (gs, ds')
      /\ Forall (fun gd => graph gd <> []) gs.
Proof.
  induction data as [|p data IH]; intros i Hal Hh; simpl.
  - exists [], []. split; [reflexivity|constructor].
  - inversion Hal as [|? t ? rest Hy Hrest Heq1 Heq2]; subst.
    symmetry in Heq2. destruct (skipn_cons_inv _ _ _ _ Heq2) as [Hnth Hskip].
    assert (Hfind : exists t0,
               find (fun t1 => (SummaryService.t_year t1 =? year p)%Z)
                    (SummaryService.totals summary) = Some t0).
    { apply find_defined with (x := t).
      - eapply nth_error_In; eauto.
      - rewrite Hy. apply Z.eqb_refl. }
    destruct Hfind as [t0 Hfind].
    destruct (graphYear_total cfg summary i p t t0 Hnth Hfind) as [gd [p' [Hgd Hne]]].
    { intros Hc. apply Hh; [exact Hc|now left]. }
    rewrite Hgd; simpl.
    destruct (IH (S i)) as [gs [ds' [Hgs Hall]]].
    { rewrite Hskip. exact Hrest. }
    { intros Hc q Hq. apply Hh; [exact Hc|now right]. }
    rewrite Hgs; simpl. eexists; eexists. split; [reflexivity|].
    constructor; assumption.
Qed.

Lemma buildGraphs_total cfg summary data :
  Forall2 (fun p t => SummaryService.t_year t = year p)
          data (SummaryService.totals summary) ->
  Props.heat_uniform (ConfigurationService.hasHeatData cfg) data ->
  exists r, buildGraphs cfg summary data = Ok r.
Proof.
  intros Hal Hu. unfold buildGraphs, calculateGraphY.
  destruct (graphYears_total cfg summary data 0%nat Hal Hu) as [gs [ds' [Hgs Hne]]].
  rewrite Hgs; simpl.
  destruct (spaceUpsAndDowns_total cfg (calculateGraphX cfg gs)) as [gs2 Hgs2].
  { unfold calculateGraphX, calculateGraphXDowns, calculateGraphXUps.
    rewrite Forall_forall in *. intros gd Hin.
    apply in_map_iff in Hin. destruct Hin as [gd1 [<- Hin1]].
    apply in_map_iff in Hin1. destruct Hin1 as [gd0 [<- Hin0]].
    eapply nonempty_by_length; [apply downsYear_length|].
    eapply nonempty_by_length; [apply upsYear_length|].
    now apply Hne. }
  rewrite Hgs2; simpl. eauto.
Qed.

End GraphsReturn.

Lemma validateData_nonempty energyData h :
  DataValidationService.validateData energyData = Ok h -> energyData <> [].
Proof. intros H ->. discriminate H. Qed.

(** Construction returns on every dataset that validation accepts and whose
    heat data is all-or-nothing; the properties stated for constructed
    systems therefore speak about every such dataset. *)
Theorem create_returns :
  forall cfg0 energyData hasHeat,
    DataValidationService.validateData energyData = Ok hasHeat ->
    Props.heat_uniform hasHeat energyData ->
    exists sv, Services.create cfg0 energyData = Ok sv.
Proof.
  intros cfg0 energyData hasHeat Hv Hu.
  unfold Services.create, DataService.new. rewrite Hv. cbn [bind fst snd].
  set (ds := {| DataService.data := js_sort DataService.byYear energyData |}).
  assert (Hne : DataService.data ds <> []).
  { cbn [DataService.data ds]. intros Habs.
    apply (validateData_nonempty _ _ Hv).
    apply length_zero_iff_nil. rewrite <- (js_sort_length DataService.byYear).
    now rewrite Habs. }
  assert (Hu' : Props.heat_uniform hasHeat (DataService.data ds)).
  { intros Hh p Hp. cbn [DataService.data ds] in Hp.
    apply js_sort_In in Hp. now apply Hu. }
  destruct (buildSummary_total hasHeat ds Hne Hu') as [sm [Hsm Hys]].
  rewrite Hsm. cbn [bind].
  destruct (buildGraphs_total (Services.with_hasHeatData cfg0 hasHeat) sm
              (DataService.data ds) Hys Hu') as [r Hr].
  rewrite Hr. cbn [bind]. eauto.
Qed.
(* ------------------------------------------------------------------ *)
(** ** DataService: lookups, navigation and sums *)

Lemma hasYear_In ds y : DataService.hasYear ds y = true <-> In y (DataService.years ds).
Proof.
  unfold DataService.hasYear. rewrite existsb_exists. split.
  - intros (x & Hin & Heq). apply Z.eqb_eq in Heq. now subst.
  - intros Hin. exists y. split; [exact Hin|apply Z.eqb_refl].
Qed.

Lemma indexOf_from_range (x : Z) l i :
  indexOf_from Z.eqb x l i = (-1)%Z
  \/ (i <= indexOf_from Z.eqb x l i < i + Z.of_nat (length l))%Z.
Proof.
  revert i. induction l as [|y l IH]; intros i; simpl; [now left|].
  destruct (Z.eqb y x); [right; lia|].
  destruct (IH (i + 1)%Z) as [H|H]; [now left|right; lia].
Qed.

Lemma indexOf_from_minus_one (x : Z) l i :
  (0 <= i)%Z -> indexOf_from Z.eqb x l i = (-1)%Z -> ~ In x l.
Proof.
  revert i. induction l as [|y l IH]; intros i Hi; simpl; [tauto|].
  destruct (Z.eqb_spec y x) as [->|Hne]; [lia|].
  intros H [Heq|Hin]; [contradiction|].
  exact (IH (i + 1)%Z ltac:(lia) H Hin).
Qed.

(** The element found by [indexOf] sits at the answered position. *)
Lemma indexOf_from_found (x : Z) l i :
  In x l -> nth_error l (Z.to_nat (indexOf_from Z.eqb x l i - i)) = Some x.
Proof.
  revert i. induction l as [|y l IH]; intros i Hin; [contradiction|]. simpl.
  destruct (Z.eqb_spec y x) as [->|Hne].
  - now replace (i - i)%Z with 0%Z by lia.
  - destruct Hin as [Heq|Hin]; [contradiction|].
    pose proof (indexOf_from_present x l (i + 1)%Z Hin) as Hr.
    replace (Z.to_nat (indexOf_from Z.eqb x l (i + 1) - i))
      with (S (Z.to_nat (indexOf_from Z.eqb x l (i + 1) - (i + 1)))) by lia.
    simpl. now apply IH.
Qed.

(** [find] by year and [indexOf] on the year index stop at the same
    record. *)
Lemma find_year_indexOf (l : list EnergyDataPoint) y i :
  (0 <= i)%Z ->
  find (fun d => (year d =? y)%Z) l
  = if (indexOf_from Z.eqb y (map year l) i =? -1)%Z then None
    else nth_error l (Z.to_nat (indexOf_from Z.eqb y (map year l) i - i)).
Proof.
  revert i. induction l as [|d l IH]; intros i Hi; simpl; [reflexivity|].
  destruct (Z.eqb_spec (year d) y) as [Heq|Hne].
  - destruct (Z.eqb_spec i (-1)); [lia|].
    now replace (i - i)%Z with 0%Z by lia.
  - rewrite (IH (i + 1)%Z) by lia.
    destruct (Z.eqb_spec (indexOf_from Z.eqb y (map year l) (i + 1)) (-1)) as [|Hn];
      [reflexivity|].
    destruct (indexOf_from_range y (map year l) (i + 1)) as [H|H]; [contradiction|].
    replace (Z.to_nat (indexOf_from Z.eqb y (map year l) (i + 1) - i))
      with (S (Z.to_nat (indexOf_from Z.eqb y (map year l) (i + 1) - (i + 1)))) by lia.
    reflexivity.
Qed.

Lemma new_nonempty energyData ds hasHeat :
  DataService.new energyData = Ok (ds, hasHeat) ->
  (0 < length (DataService.years ds))%nat.
Proof.
  intros Hnew. destruct (new_inv _ _ _ Hnew) as (Hd & Hy & _ & _ & _ & Hv).
  rewrite Hy, Hd, length_map, js_sort_length.
  destruct energyData; [discriminate Hv|simpl; lia].
Qed.

Lemma new_first_last_In energyData ds hasHeat :
  DataService.new energyData = Ok (ds, hasHeat) ->
  In (DataService.firstYear ds) (DataService.years ds)
  /\ In (DataService.lastYear ds) (DataService.years ds).
Proof.
  intros Hnew. pose proof (new_nonempty _ _ _ Hnew) as Hlen.
  destruct (new_inv _ _ _ Hnew) as (_ & _ & _ & Hf & Hl & _).
  rewrite Hf, Hl. split; apply nth_In; lia.
Qed.

Lemma new_NoDup energyData ds hasHeat :
  DataService.new energyData = Ok (ds, hasHeat) ->
  NoDup (map year energyData) -> NoDup (DataService.years ds).
Proof.
  intros Hnew Hnd. destruct (new_inv _ _ _ Hnew) as (Hd & Hy & _).
  rewrite Hy, Hd. eapply Permutation_NoDup; [|exact Hnd].
  apply Permutation_map. symmetry. apply js_sort_perm.
Qed.

Lemma new_years_range energyData ds hasHeat y :
  DataService.new energyData = Ok (ds, hasHeat) ->
  In y (DataService.years ds) ->
  (DataService.firstYear ds <= y <= DataService.lastYear ds)%Z.
Proof.
  intros Hnew Hin.
  pose proof (new_years_sorted _ _ _ Hnew) as Hs.
  destruct (new_inv _ _ _ Hnew) as (_ & _ & _ & Hf & Hl & _).
  rewrite Hf, Hl. split.
  - now apply sorted_first_le.
  - now apply sorted_last_ge.
Qed.

(** X1: the constructor keeps every record exactly once, orders the
    records by year, and [firstYear] and [lastYear] are the least and the
    greatest year present. *)
Theorem new_keeps_records :
  forall energyData ds hasHeat,
    DataService.new energyData = Ok (ds, hasHeat) ->
    Permutation (DataService.data ds) energyData
    /\ Props.sortedYears (DataService.data ds)
    /\ DataService.years ds = map year (DataService.data ds)
    /\ DataService.getDataCount ds = Z.of_nat (length energyData)
    /\ DataService.yearsLength ds = DataService.getDataCount ds
    /\ DataService.hasYear ds (DataService.firstYear ds) = true
    /\ DataService.hasYear ds (DataService.lastYear ds) = true
    /\ forall y, DataService.hasYear ds y = true ->
         (DataService.firstYear ds <= y <= DataService.lastYear ds)%Z.
Proof.
  intros energyData ds hasHeat Hnew.
  pose proof (new_years_sorted _ _ _ Hnew) as Hs.
  destruct (new_first_last_In _ _ _ Hnew) as (Hfi & Hli).
  destruct (new_inv _ _ _ Hnew) as (Hd & Hy & Hn & Hf & Hl & _).
  split; [rewrite Hd; apply js_sort_perm|].
  split; [rewrite Hd; apply js_sort_byYear_sorted|].
  split; [exact Hy|].
  split; [unfold DataService.getDataCount; now rewrite Hd, js_sort_length|].
  split; [unfold DataService.getDataCount; now rewrite Hn, Hy, length_map|].
  split; [now apply hasYear_In|].
  split; [now apply hasYear_In|].
  intros y Hy'. apply hasYear_In in Hy'.
  exact (new_years_range _ _ _ _ Hnew Hy').
Qed.

Lemma new_keeps_records_witness :
  Permutation (DataService.data Samples.ds3) Samples.threeYears
  /\ DataService.getDataCount Samples.ds3 = 3%Z.
Proof.
  assert (Hnew : DataService.new Samples.threeYears = Ok (Samples.ds3, false))
    by (vm_compute; reflexivity).
  pose proof (new_keeps_records _ _ _ Hnew) as (Hp & _ & _ & Hc & _).
  split; [exact Hp|exact Hc].
Defined.

(** X2: on a constructed data service the range test of [isValidYear] is
    redundant: a year is valid exactly when it is present. *)
Theorem isValidYear_hasYear :
  forall energyData ds hasHeat,
    DataService.new energyData = Ok (ds, hasHeat) ->
    forall y, DataService.isValidYear ds y = DataService.hasYear ds y.
Proof.
  intros energyData ds hasHeat Hnew y.
  unfold DataService.isValidYear.
  destruct (DataService.hasYear ds y) eqn:Hh; [|apply andb_false_r].
  apply hasYear_In in Hh.
  destruct (new_years_range _ _ _ _ Hnew Hh) as [H1 H2].
  rewrite andb_true_r. apply andb_true_intro. split.
  - apply Z.geb_le. lia.
  - now apply Z.leb_le.
Qed.

Lemma isValidYear_hasYear_witness :
  DataService.isValidYear Samples.ds3 2001 = DataService.hasYear Samples.ds3 2001.
Proof.
  assert (Hnew : DataService.new Samples.threeYears = Ok (Samples.ds3, false))
    by (vm_compute; reflexivity).
  exact (isValidYear_hasYear _ _ _ Hnew 2001%Z).
Defined.

(** X3: looking a record up by year agrees with going through the year
    index: [getYearData(y)] is [getYearDataByIndex(getYearIndex(y))], and
    both are undefined exactly when the year is absent. *)
Theorem getYearData_by_index :
  forall energyData ds hasHeat,
    DataService.new energyData = Ok (ds, hasHeat) ->
    forall y,
      DataService.getYearData ds y
      = DataService.getYearDataByIndex ds (DataService.getYearIndex ds y)
      /\ (DataService.getYearData ds y = None <-> DataService.hasYear ds y = false)
      /\ (DataService.getYearIndex ds y = (-1)%Z <-> DataService.hasYear ds y = false)
      /\ (forall p, DataService.getYearData ds y = Some p ->
                    year p = y /\ In p energyData).
Proof.
  intros energyData ds hasHeat Hnew y.
  destruct (new_inv _ _ _ Hnew) as (Hd & Hy & _).
  assert (Hidx : DataService.getYearIndex ds y = (-1)%Z
                 <-> DataService.hasYear ds y = false).
  { unfold DataService.getYearIndex, indexOf. split.
    - intros H. apply (indexOf_from_minus_one _ _ 0%Z) in H; [|lia].
      destruct (DataService.hasYear ds y) eqn:Hh; [|reflexivity].
      apply hasYear_In in Hh. contradiction.
    - intros Hh. apply indexOf_from_absent. intros Hin.
      apply hasYear_In in Hin. congruence. }
  assert (Hfind : DataService.getYearData ds y
                  = DataService.getYearDataByIndex ds (DataService.getYearIndex ds y)).
  { unfold DataService.getYearData, DataService.getYearDataByIndex,
      DataService.getYearIndex, indexOf, at_index.
    rewrite (find_year_indexOf _ y 0%Z) by lia. rewrite Hy.
    destruct (indexOf_from_range y (map year (DataService.data ds)) 0) as [H|H].
    - rewrite H. reflexivity.
    - rewrite length_map in H.
      destruct (Z.eqb_spec (indexOf_from Z.eqb y (map year (DataService.data ds)) 0) (-1));
        [lia|].
      destruct (Z.ltb_spec (indexOf_from Z.eqb y (map year (DataService.data ds)) 0) 0);
        [lia|].
      destruct (Z.geb_spec (indexOf_from Z.eqb y (map year (DataService.data ds)) 0)
                           (Z.of_nat (length (DataService.data ds)))); [lia|].
      simpl. now rewrite Z.sub_0_r. }
  split; [exact Hfind|].
  split.
  - rewrite <- Hidx. split.
    + intros Hn. unfold DataService.getYearData in Hn.
      rewrite (find_year_indexOf _ y 0%Z) in Hn by lia.
      unfold DataService.getYearIndex, indexOf. rewrite Hy.
      destruct (Z.eqb_spec (indexOf_from Z.eqb y (map year (DataService.data ds)) 0) (-1))
        as [|Hne]; [assumption|].
      exfalso.
      destruct (indexOf_from_range y (map year (DataService.data ds)) 0) as [H|H];
        [contradiction|].
      rewrite length_map in H.
      apply nth_error_None in Hn. lia.
    + intros Hm. rewrite Hfind, Hm. reflexivity.
  - split; [exact Hidx|].
    intros p Hp. unfold DataService.getYearData in Hp.
    apply find_some in Hp. destruct Hp as [Hin Heq].
    apply Z.eqb_eq in Heq. split; [exact Heq|].
    now apply (new_data_In _ _ _ p Hnew).
Qed.

Lemma getYearData_by_index_witness :
  DataService.getYearData Samples.ds3 2001
  = DataService.getYearDataByIndex Samples.ds3 (DataService.getYearIndex Samples.ds3 2001).
Proof.
  assert (Hnew : DataService.new Samples.threeYears = Ok (Samples.ds3, false))
    by (vm_compute; reflexivity).
  exact (proj1 (getYearData_by_index _ _ _ Hnew 2001%Z)).
Defined.

(** *** Navigation between neighbouring years *)

Lemma sorted_nth_le (ys : list Z) :
  StronglySorted Z.le ys ->
  forall i j a b, (i < j)%nat ->
    nth_error ys i = Some a -> nth_error ys j = Some b -> (a <= b)%Z.
Proof.
  induction 1 as [|x l Hs IH Hall]; intros i j a b Hij Hi Hj.
  - destruct i; discriminate.
  - destruct j as [|j]; [lia|]. simpl in Hj.
    destruct i as [|i]; simpl in Hi.
    + inversion Hi; subst. rewrite Forall_forall in Hall.
      apply Hall. eapply nth_error_In; eassumption.
    + eapply (IH i j); try eassumption. lia.
Qed.

Lemma sorted_NoDup_nth_lt (ys : list Z) :
  StronglySorted Z.le ys -> NoDup ys ->
  forall i j a b, (i < j)%nat ->
    nth_error ys i = Some a -> nth_error ys j = Some b -> (a < b)%Z.
Proof.
  intros Hs Hnd i j a b Hij Hi Hj.
  pose proof (sorted_nth_le ys Hs i j a b Hij Hi Hj) as Hle.
  assert (a <> b).
  { intros ->. rewrite <- Hj in Hi.
    apply (proj1 (NoDup_nth_error ys) Hnd) in Hi.
    - lia.
    - apply nth_error_Some. rewrite Hi, Hj. discriminate. }
  lia.
Qed.

Lemma at_index_nth {A} (l : list A) (i : Z) :
  (0 <= i)%Z -> at_index l i = nth_error l (Z.to_nat i).
Proof.
  intros Hi. unfold at_index. destruct (Z.ltb_spec i 0); [lia|reflexivity].
Qed.

Lemma getYearIndex_nth ds n y :
  NoDup (DataService.years ds) ->
  nth_error (DataService.years ds) n = Some y ->
  DataService.getYearIndex ds y = Z.of_nat n.
Proof.
  intros Hnd Hn. unfold DataService.getYearIndex, indexOf.
  now rewrite (indexOf_from_nth _ Hnd n 0%Z y Hn).
Qed.

Lemma getYearIndex_found ds y :
  In y (DataService.years ds) ->
  (0 <= DataService.getYearIndex ds y < Z.of_nat (length (DataService.years ds)))%Z
  /\ nth_error (DataService.years ds) (Z.to_nat (DataService.getYearIndex ds y)) = Some y.
Proof.
  intros Hin. unfold DataService.getYearIndex, indexOf. split.
  - pose proof (indexOf_from_present y _ 0%Z Hin). lia.
  - pose proof (indexOf_from_found y _ 0%Z Hin) as H.
    now rewrite Z.sub_0_r in H.
Qed.

Lemma getYearIndex_absent ds y :
  ~ In y (DataService.years ds) -> DataService.getYearIndex ds y = (-1)%Z.
Proof. intros H. now apply indexOf_from_absent. Qed.

Lemma getYearIndex_cases ds y :
  (DataService.getYearIndex ds y = (-1)%Z /\ ~ In y (DataService.years ds))
  \/ (In y (DataService.years ds)
      /\ (0 <= DataService.getYearIndex ds y
          < Z.of_nat (length (DataService.years ds)))%Z
      /\ nth_error (DataService.years ds)
           (Z.to_nat (DataService.getYearIndex ds y)) = Some y).
Proof.
  destruct (in_dec Z.eq_dec y (DataService.years ds)) as [Hin|Hout].
  - right. split; [exact Hin|]. now apply getYearIndex_found.
  - left. split; [now apply getYearIndex_absent|exact Hout].
Qed.

(** X4: on a dataset with pairwise distinct years, [getNextYear] and
    [getPreviousYear] are inverse to each other, and the next year is
    strictly later. *)
Theorem next_previous_inverse :
  forall energyData ds hasHeat,
    DataService.new energyData = Ok (ds, hasHeat) ->
    NoDup (map year energyData) ->
    forall y y',
      (DataService.getNextYear ds y = Some y'
       <-> DataService.getPreviousYear ds y' = Some y)
      /\ (DataService.getNextYear ds y = Some y' -> (y < y')%Z).
Proof.
  intros energyData ds hasHeat Hnew Hnd0 y y'.
  pose proof (new_NoDup _ _ _ Hnew Hnd0) as Hnd.
  pose proof (new_years_sorted _ _ _ Hnew) as Hs.
  destruct (new_inv _ _ _ Hnew) as (_ & _ & Hn & _).
  assert (Hnext : DataService.getNextYear ds y = Some y' ->
                  exists i, nth_error (DataService.years ds) i = Some y
                            /\ nth_error (DataService.years ds) (S i) = Some y').
  { unfold DataService.getNextYear. intros H.
    destruct (getYearIndex_cases ds y) as [[Hi _]|(Hin & Hr & Hf)].
    - rewrite Hi in H. discriminate.
    - destruct (Z.eqb_spec (DataService.getYearIndex ds y) (-1)); [lia|].
      destruct (Z.eqb_spec (DataService.getYearIndex ds y)
                           (DataService.yearsLength ds - 1)); [discriminate|].
      simpl in H. rewrite at_index_nth in H by lia.
      exists (Z.to_nat (DataService.getYearIndex ds y)). split; [exact Hf|].
      now replace (S (Z.to_nat (DataService.getYearIndex ds y)))
        with (Z.to_nat (DataService.getYearIndex ds y + 1)) by lia. }
  assert (Hprev : DataService.getPreviousYear ds y' = Some y ->
                  exists i, nth_error (DataService.years ds) i = Some y
                            /\ nth_error (DataService.years ds) (S i) = Some y').
  { unfold DataService.getPreviousYear. intros H.
    destruct (getYearIndex_cases ds y') as [[Hi _]|(Hin & Hr & Hf)].
    - rewrite Hi in H. discriminate.
    - destruct (Z.leb_spec (DataService.getYearIndex ds y') 0); [discriminate|].
      rewrite at_index_nth in H by lia.
      exists (Z.to_nat (DataService.getYearIndex ds y' - 1)). split; [exact H|].
      now replace (S (Z.to_nat (DataService.getYearIndex ds y' - 1)))
        with (Z.to_nat (DataService.getYearIndex ds y')) by lia. }
  assert (Hback : forall i, nth_error (DataService.years ds) i = Some y ->
                            nth_error (DataService.years ds) (S i) = Some y' ->
                            DataService.getNextYear ds y = Some y'
                            /\ DataService.getPreviousYear ds y' = Some y).
  { intros i Hi Hi'.
    assert (Hlt : (S i < length (DataService.years ds))%nat)
      by (apply nth_error_Some; rewrite Hi'; discriminate).
    unfold DataService.getNextYear, DataService.getPreviousYear.
    rewrite (getYearIndex_nth ds i y Hnd Hi), (getYearIndex_nth ds (S i) y' Hnd Hi').
    destruct (Z.eqb_spec (Z.of_nat i) (-1)); [lia|].
    destruct (Z.eqb_spec (Z.of_nat i) (DataService.yearsLength ds - 1)); [lia|].
    destruct (Z.leb_spec (Z.of_nat (S i)) 0); [lia|].
    simpl orb. cbv iota.
    rewrite !at_index_nth by lia.
    replace (Z.to_nat (Z.of_nat i + 1)) with (S i) by lia.
    replace (Z.to_nat (Z.of_nat (S i) - 1)) with i by lia.
    split; assumption. }
  split; [split|].
  - intros H. destruct (Hnext H) as (i & Hi & Hi'). now apply (Hback i).
  - intros H. destruct (Hprev H) as (i & Hi & Hi'). now apply (Hback i).
  - intros H. destruct (Hnext H) as (i & Hi & Hi').
    apply (sorted_NoDup_nth_lt _ Hs Hnd i (S i)); [lia|assumption|assumption].
Qed.

Lemma next_previous_inverse_witness :
  DataService.getNextYear Samples.ds3 2000 = Some 2001%Z
  /\ DataService.getPreviousYear Samples.ds3 2001 = Some 2000%Z.
Proof.
  assert (Hnew : DataService.new Samples.threeYears = Ok (Samples.ds3, false))
    by (vm_compute; reflexivity).
  assert (Hnd : NoDup (map year Samples.threeYears)).
  { simpl. repeat constructor; simpl; intuition discriminate. }
  assert (Hn : DataService.getNextYear Samples.ds3 2000 = Some 2001%Z)
    by (vm_compute; reflexivity).
  split; [exact Hn|].
  exact (proj1 (proj1 (next_previous_inverse _ _ _ Hnew Hnd 2000%Z 2001%Z)) Hn).
Defined.

(** X5: at the ends of the timeline.  [getPreviousYear] answers [null]
    exactly for an absent year and for the first year; on a dataset with
    pairwise distinct years [getNextYear] answers [null] exactly for an
    absent year and for the last year. *)
Theorem navigation_ends :
  forall energyData ds hasHeat,
    DataService.new energyData = Ok (ds, hasHeat) ->
    forall y,
      (DataService.getPreviousYear ds y = None
       <-> DataService.hasYear ds y = false \/ y = DataService.firstYear ds)
      /\ (NoDup (map year energyData) ->
          (DataService.getNextYear ds y = None
           <-> DataService.hasYear ds y = false \/ y = DataService.lastYear ds)).
Proof.
  intros energyData ds hasHeat Hnew y.
  pose proof (new_nonempty _ _ _ Hnew) as Hlen.
  destruct (new_inv _ _ _ Hnew) as (_ & _ & Hn & Hf & Hl & _).
  assert (Habs : DataService.hasYear ds y = false <-> ~ In y (DataService.years ds)).
  { rewrite <- hasYear_In. destruct (DataService.hasYear ds y); split; congruence. }
  split.
  - unfold DataService.getPreviousYear. split.
    + intros H.
      destruct (getYearIndex_cases ds y) as [[_ Hout]|(Hin & Hr & Hfd)];
        [left; now apply Habs|].
      destruct (Z.leb_spec (DataService.getYearIndex ds y) 0) as [Hle|Hgt].
      * right. rewrite Hf.
        replace (DataService.getYearIndex ds y) with 0%Z in Hfd by lia.
        simpl in Hfd. destruct (DataService.years ds); [discriminate|].
        simpl in *. congruence.
      * rewrite at_index_nth in H by lia.
        apply nth_error_None in H. lia.
    + intros [Hh|Hy].
      * apply Habs in Hh. now rewrite (getYearIndex_absent _ _ Hh).
      * subst y. rewrite Hf. unfold DataService.getYearIndex, indexOf.
        destruct (DataService.years ds) as [|y0 ys]; [simpl in Hlen; lia|].
        simpl. now rewrite Z.eqb_refl.
  - intros Hnd0. pose proof (new_NoDup _ _ _ Hnew Hnd0) as Hnd.
    unfold DataService.getNextYear. split.
    + intros H.
      destruct (getYearIndex_cases ds y) as [[_ Hout]|(Hin & Hr & Hfd)];
        [left; now apply Habs|].
      destruct (Z.eqb_spec (DataService.getYearIndex ds y) (-1)); [lia|].
      destruct (Z.eqb_spec (DataService.getYearIndex ds y)
                           (DataService.yearsLength ds - 1)) as [He|Hne].
      * right. rewrite Hl.
        replace (length (DataService.years ds) - 1)%nat
          with (Z.to_nat (DataService.getYearIndex ds y)) by lia.
        symmetry. now apply nth_error_nth.
      * simpl in H. rewrite at_index_nth in H by lia.
        apply nth_error_None in H. lia.
    + intros [Hh|Hy].
      * apply Habs in Hh. now rewrite (getYearIndex_absent _ _ Hh).
      * assert (Hnth : nth_error (DataService.years ds)
                         (length (DataService.years ds) - 1) = Some y).
        { subst y. rewrite Hl. apply nth_error_nth'. lia. }
        rewrite (getYearIndex_nth ds _ y Hnd Hnth).
        destruct (Z.eqb_spec (Z.of_nat (length (DataService.years ds) - 1))
                             (DataService.yearsLength ds - 1)); [|lia].
        now rewrite orb_true_r.
Qed.

Lemma navigation_ends_witness :
  DataService.getPreviousYear Samples.ds3 2000 = None
  /\ DataService.getNextYear Samples.ds3 2002 = None.
Proof.
  assert (Hnew : DataService.new Samples.threeYears = Ok (Samples.ds3, false))
    by (vm_compute; reflexivity).
  assert (Hnd : NoDup (map year Samples.threeYears)).
  { simpl. repeat constructor; simpl; intuition discriminate. }
  split.
  - apply (proj1 (navigation_ends _ _ _ Hnew 2000%Z)). right. reflexivity.
  - apply (proj2 (navigation_ends _ _ _ Hnew 2002%Z) Hnd). right. reflexivity.
Defined.

(** *** Sums read from the records, against the summary *)

Lemma orZero_eq v : DataService.orZero v == v.
Proof.
  unfold DataService.orZero, DataService.truthy.
  destruct (Qeq_bool v 0) eqn:H; simpl; [|reflexivity].
  apply Qeq_bool_iff in H. now rewrite H.
Qed.

Lemma find_year_NoDup (l : list EnergyDataPoint) p :
  NoDup (map year l) -> In p l ->
  find (fun d => (year d =? year p)%Z) l = Some p.
Proof.
  induction l as [|d l IH]; intros Hnd Hin; [contradiction|].
  simpl in Hnd. inversion Hnd as [|? ? Hnotin Hnd']; subst. simpl.
  destruct Hin as [->|Hin]; [now rewrite Z.eqb_refl|].
  destruct (Z.eqb_spec (year d) (year p)) as [Heq|Hne]; [|now apply IH].
  exfalso. apply Hnotin. rewrite Heq. now apply in_map.
Qed.

Lemma getYearData_NoDup energyData ds hasHeat p :
  DataService.new energyData = Ok (ds, hasHeat) ->
  NoDup (map year energyData) ->
  In p (DataService.data ds) ->
  DataService.getYearData ds (year p) = Some p.
Proof.
  intros Hnew Hnd Hin. unfold DataService.getYearData.
  apply find_year_NoDup; [|exact Hin].
  destruct (new_inv _ _ _ Hnew) as (_ & Hy & _).
  rewrite <- Hy. exact (new_NoDup _ _ _ Hnew Hnd).
Qed.

Lemma Forall2_impl_In {A B} (R S : A -> B -> Prop) (l : list A) (l' : list B) :
  (forall a b, In a l -> R a b -> S a b) -> Forall2 R l l' -> Forall2 S l l'.
Proof.
  intros H HF. induction HF as [|a b l l' Hab HF IH]; constructor.
  - apply H; [now left|exact Hab].
  - apply IH. intros a' b' Hin. apply H. now right.
Qed.

Lemma buildSummary_totals hasHeat ds sm :
  SummaryService.buildSummary hasHeat ds = Ok sm ->
  Forall2 (fun p t => SummaryService.yearTotals hasHeat p = Ok t)
          (DataService.data ds) (SummaryService.totals sm).
Proof.
  unfold SummaryService.buildSummary. intros H.
  destruct (SummaryService.buildTotals hasHeat (DataService.data ds))
    as [ts|e] eqn:Hts; [|discriminate H].
  simpl in H.
  destruct (SummaryService.buildBoxTops (SummaryService.buildMaxes ts))
    as [bt|e]; [|discriminate H].
  simpl in H. inversion H; subst; simpl.
  now apply mapM_Ok_Forall2.
Qed.

Lemma getYearTotalForFuel_sum ds y p f o :
  DataService.getYearData ds y = Some p ->
  dp_get p f = Some o ->
  DataService.getYearTotalForFuel ds y f
  == sb_elec o + sb_res o + sb_ag o + sb_indus o + sb_trans o.
Proof.
  intros Hp Ho. unfold DataService.getYearTotalForFuel.
  rewrite Hp, Ho. now rewrite !orZero_eq.
Qed.

(** X6: [DataService.getYearTotalForFuel] and the per-fuel total of the
    summary agree on the five sectors they share: for each of the nine
    primary fuels the summary total is the data-service total, plus the
    fuel's entry for the heat sector when heat data is present. *)
Theorem fuel_total_agrees :
  forall energyData ds hasHeat sm,
    DataService.new energyData = Ok (ds, hasHeat) ->
    NoDup (map year energyData) ->
    SummaryService.buildSummary hasHeat ds = Ok sm ->
    Forall2
      (fun p t =>
         forall f o, In f Props.primaryFuels -> dp_get p f = Some o ->
           SummaryService.tget t (SummaryService.key_of_fuel f)
           == DataService.getYearTotalForFuel ds (year p) f
              + (if hasHeat then sb_heat o else 0))
      (DataService.data ds) (SummaryService.totals sm).
Proof.
  intros energyData ds hasHeat sm Hnew Hnd Hsm.
  eapply Forall2_impl_In; [|exact (buildSummary_totals _ _ _ Hsm)].
  intros p t Hin Ht f o Hf Ho. simpl in Ht.
  rewrite (yearTotals_fuel _ _ _ _ _ Ht Hf Ho).
  rewrite (getYearTotalForFuel_sum ds (year p) p f o
             (getYearData_NoDup _ _ _ _ Hnew Hnd Hin) Ho).
  destruct hasHeat; unfold Props.sumOver, Props.Qsum; simpl; ring.
Qed.

Lemma fuel_total_agrees_witness :
  exists ds sm,
    DataService.new Samples.twoYears = Ok (ds, false)
    /\ SummaryService.buildSummary false ds = Ok sm
    /\ Forall2
         (fun p t =>
            forall f o, In f Props.primaryFuels -> dp_get p f = Some o ->
              SummaryService.tget t (SummaryService.key_of_fuel f)
              == DataService.getYearTotalForFuel ds (year p) f + 0)
         (DataService.data ds) (SummaryService.totals sm).
Proof.
  destruct (DataService.new Samples.twoYears) as [[ds h]|e] eqn:Hnew;
    [|vm_compute in Hnew; discriminate].
  assert (Hh : h = false).
  { vm_compute in Hnew. inversion Hnew; reflexivity. }
  subst h.
  assert (Hnd : NoDup (map year Samples.twoYears)).
  { simpl. repeat constructor; simpl; intuition discriminate. }
  destruct (SummaryService.buildSummary false ds) as [sm|e] eqn:Hsm.
  - exists ds, sm. split; [reflexivity|]. split; [exact Hsm|].
    exact (fuel_total_agrees Samples.twoYears ds false sm Hnew Hnd Hsm).
  - exfalso. vm_compute in Hnew. inversion Hnew; subst; clear Hnew.
    vm_compute in Hsm. discriminate Hsm.
Defined.

(** *** Statistics *)

Lemma fold_gap (ys : list Z) k :
  fold_left (fun totalGap i => (totalGap + (nth i ys 0 - nth (i - 1) ys 0))%Z)
            (seq 1 k) 0%Z
  = (nth k ys 0 - nth 0 ys 0)%Z.
Proof.
  induction k as [|k IH]; [simpl; lia|].
  rewrite seq_S, fold_left_app, IH. simpl.
  rewrite Nat.sub_0_r. lia.
Qed.

Lemma totalGap_telescopes energyData ds hasHeat :
  DataService.new energyData = Ok (ds, hasHeat) ->
  DataService.totalGap ds = (DataService.lastYear ds - DataService.firstYear ds)%Z.
Proof.
  intros Hnew. destruct (new_inv _ _ _ Hnew) as (_ & _ & Hn & Hf & Hl & _).
  unfold DataService.totalGap. rewrite fold_gap, Hf, Hl, Hn.
  now rewrite Nat2Z.id.
Qed.

Lemma strict_nth_gap (ys : list Z) :
  StronglySorted Z.le ys -> NoDup ys ->
  forall k, (k < length ys)%nat -> (Z.of_nat k <= nth k ys 0 - nth 0 ys 0)%Z.
Proof.
  intros Hs Hnd. induction k as [|k IH]; intros Hk; [simpl; lia|].
  assert (Hk' : (k < length ys)%nat) by lia. specialize (IH Hk').
  pose proof (sorted_NoDup_nth_lt ys Hs Hnd k (S k) (nth k ys 0%Z) (nth (S k) ys 0%Z)
                ltac:(lia) (nth_error_nth' ys 0%Z Hk') (nth_error_nth' ys 0%Z Hk)).
  lia.
Qed.

(** X8: the year gaps that [getDataStatistics] adds up telescope: their
    total is [lastYear - firstYear], an integer like the years themselves.
    The total is never negative and, on a dataset with pairwise distinct
    years, at least the number of gaps; so the average year gap, the total
    divided by the number of gaps, is never negative, is at least 1 when the
    dataset has two or more pairwise distinct years, and is 0 for a dataset
    of one record. *)
Theorem year_gaps_telescope :
  forall energyData ds hasHeat,
    DataService.new energyData = Ok (ds, hasHeat) ->
    DataService.totalGap ds = (DataService.lastYear ds - DataService.firstYear ds)%Z
    /\ (0 <= DataService.totalGap ds)%Z
    /\ 0 <= DataService.st_averageYearGap (DataService.getDataStatistics ds)
    /\ (DataService.yearsLength ds = 1%Z ->
        DataService.st_averageYearGap (DataService.getDataStatistics ds) = 0)
    /\ (NoDup (map year energyData) ->
        (DataService.yearsLength ds - 1 <= DataService.totalGap ds)%Z
        /\ ((1 < DataService.yearsLength ds)%Z ->
            1 <= DataService.st_averageYearGap (DataService.getDataStatistics ds))).
Proof.
  intros energyData ds hasHeat Hnew.
  pose proof (totalGap_telescopes _ _ _ Hnew) as Hgap.
  pose proof (new_nonempty _ _ _ Hnew) as Hlen.
  pose proof (new_years_sorted _ _ _ Hnew) as Hs.
  destruct (new_first_last_In _ _ _ Hnew) as (_ & Hli).
  pose proof (new_years_range _ _ _ _ Hnew Hli) as [Hfl _].
  destruct (new_inv _ _ _ Hnew) as (_ & _ & Hn & Hf & Hl & _).
  assert (Hdist : NoDup (map year energyData) ->
                  (DataService.yearsLength ds - 1 <= DataService.totalGap ds)%Z).
  { intros Hnd0. pose proof (new_NoDup _ _ _ Hnew Hnd0) as Hnd.
    pose proof (strict_nth_gap _ Hs Hnd (length (DataService.years ds) - 1)
                  ltac:(lia)) as Hg.
    rewrite <- Hf, <- Hl in Hg. lia. }
  split; [exact Hgap|]. split; [lia|].
  cbn [DataService.getDataStatistics DataService.st_averageYearGap].
  unfold DataService.averageYearGap.
  destruct (Z.gtb_spec (DataService.yearsLength ds) 1) as [Hgt|Hle].
  - assert (Hpos : 0 < inject_Z (DataService.yearsLength ds - 1)).
    { rewrite <- (Zlt_Qlt 0). lia. }
    split; [|split].
    + apply Qle_shift_div_l; [exact Hpos|]. rewrite Qmult_0_l.
      rewrite <- (Zle_Qle 0). lia.
    + intros Hone. lia.
    + intros Hnd0. split; [exact (Hdist Hnd0)|]. intros _.
      apply Qle_shift_div_l; [exact Hpos|]. rewrite Qmult_1_l.
      rewrite <- Zle_Qle. exact (Hdist Hnd0).
  - split; [apply Qle_refl|]. split; [reflexivity|].
    intros Hnd0. split; [exact (Hdist Hnd0)|]. intros Hc. lia.
Qed.

Lemma year_gaps_telescope_witness :
  DataService.totalGap Samples.ds3 = 2%Z
  /\ 1 <= DataService.st_averageYearGap (DataService.getDataStatistics Samples.ds3).
Proof.
  assert (Hnew : DataService.new Samples.threeYears = Ok (Samples.ds3, false))
    by (vm_compute; reflexivity).
  assert (Hnd : NoDup (map year Samples.threeYears)).
  { simpl. repeat constructor; simpl; intuition discriminate. }
  assert (Hlt : (1 < DataService.yearsLength Samples.ds3)%Z) by reflexivity.
  destruct (year_gaps_telescope _ _ _ Hnew) as (Hgap & _ & _ & _ & Hdist).
  split; [exact Hgap|exact (proj2 (Hdist Hnd) Hlt)].
Defined.

(** *** Milestones *)

Lemma sorted_filter_years (f : EnergyDataPoint -> bool) l :
  Props.sortedYears l -> StronglySorted Z.le (map year (filter f l)).
Proof.
  unfold Props.sortedYears. induction l as [|d l IH]; intros Hs; simpl; [constructor|].
  simpl in Hs. inversion Hs as [|? ? Hs' Hall]; subst.
  destruct (f d); [|now apply IH]. simpl. constructor; [now apply IH|].
  rewrite Forall_forall in *. intros y Hy. apply Hall.
  apply in_map_iff in Hy. destruct Hy as (d' & <- & Hd').
  apply filter_In in Hd'. apply in_map. tauto.
Qed.

Lemma hasMilestone_spec d :
  DataService.hasMilestone d = true
  <-> exists s, milestone d = Some s /\ s <> EmptyString.
Proof.
  unfold DataService.hasMilestone. destruct (milestone d) as [[|c s]|]; split.
  - discriminate.
  - intros (s & Hs & Hne). inversion Hs; subst. contradiction.
  - intros _. eexists. split; [reflexivity|discriminate].
  - reflexivity.
  - discriminate.
  - intros (s & Hs & _). discriminate.
Qed.

(** X9: [getYearsWithMilestones] lists years of the dataset in ascending
    order; every year whose record (as [getMilestoneForYear] finds it) has a
    non-empty milestone is listed, and on a dataset with pairwise distinct
    years nothing else is. *)
Theorem milestone_years :
  forall energyData ds hasHeat,
    DataService.new energyData = Ok (ds, hasHeat) ->
    StronglySorted Z.le (DataService.getYearsWithMilestones ds)
    /\ (forall y, In y (DataService.getYearsWithMilestones ds) ->
                  DataService.hasYear ds y = true)
    /\ (forall y s, DataService.getMilestoneForYear ds y = Some s ->
                    s <> EmptyString ->
                    In y (DataService.getYearsWithMilestones ds))
    /\ (NoDup (map year energyData) ->
        forall y, In y (DataService.getYearsWithMilestones ds) ->
                  exists s, DataService.getMilestoneForYear ds y = Some s
                            /\ s <> EmptyString).
Proof.
  intros energyData ds hasHeat Hnew.
  destruct (new_inv _ _ _ Hnew) as (Hd & Hy & _).
  unfold DataService.getYearsWithMilestones, DataService.getMilestoneForYear.
  split; [|split; [|split]].
  - apply sorted_filter_years. rewrite Hd. apply js_sort_byYear_sorted.
  - intros y Hin. apply hasYear_In. rewrite Hy.
    apply in_map_iff in Hin. destruct Hin as (d & <- & Hd').
    apply filter_In in Hd'. apply in_map. tauto.
  - intros y s Hm Hne.
    destruct (DataService.getYearData ds y) as [p|] eqn:Hp; [|discriminate].
    unfold DataService.getYearData in Hp. apply find_some in Hp.
    destruct Hp as [Hin Heq]. apply Z.eqb_eq in Heq. subst y.
    apply in_map. apply filter_In. split; [exact Hin|].
    apply hasMilestone_spec. now exists s.
  - intros Hnd y Hin.
    apply in_map_iff in Hin. destruct Hin as (d & <- & Hd').
    apply filter_In in Hd'. destruct Hd' as [Hin Hm].
    rewrite (getYearData_NoDup _ _ _ _ Hnew Hnd Hin).
    now apply hasMilestone_spec.
Qed.

Lemma milestone_years_witness :
  In 2000%Z (DataService.getYearsWithMilestones Samples.ds3).
Proof.
  assert (Hnew : DataService.new Samples.threeYears = Ok (Samples.ds3, false))
    by (vm_compute; reflexivity).
  apply (proj1 (proj2 (proj2 (milestone_years _ _ _ Hnew))) 2000%Z
           "turn of the century"%string).
  - vm_compute; reflexivity.
  - discriminate.
Defined.

(* ------------------------------------------------------------------ *)
(** ** Playback: what holds along every history *)

Section Histories.
Import AnimationService.
Variable ds : DataService.t.
Variable loop : bool.

Lemma timer_ok_same w w' :
  isAnimating (state w') = isAnimating (state w) ->
  animationTimer (state w') = animationTimer (state w) ->
  intervals w' = intervals w ->
  Props.timer_ok w -> Props.timer_ok w'.
Proof.
  unfold Props.timer_ok. intros -> -> ->. exact (fun H => H).
Qed.

Lemma previousYear_keeps w :
  isAnimating (state (previousYear ds w)) = isAnimating (state w)
  /\ animationTimer (state (previousYear ds w)) = animationTimer (state w)
  /\ speed (state (previousYear ds w)) = speed (state w)
  /\ intervals (previousYear ds w) = intervals w
  /\ timeouts (previousYear ds w) = timeouts w.
Proof.
  unfold previousYear.
  destruct (currentYearIndex (state w) >? 0)%Z; [|repeat split].
  destruct (at_index _ _); [|simpl; repeat split].
  destruct (setYear_keeps ds z
    (with_state w (set_index (state w) (currentYearIndex (state w) - 1))))
    as (H1 & H2 & H3 & H4 & H5).
  rewrite H1, H2, H3, H4, H5. simpl. repeat split.
Qed.

Lemma timer_ok_setYear y w : Props.timer_ok w -> Props.timer_ok (setYear ds y w).
Proof.
  destruct (setYear_keeps ds y w) as (H1 & H2 & _ & H4 & _).
  now apply timer_ok_same.
Qed.

Lemma timer_ok_nextYear w : Props.timer_ok w -> Props.timer_ok (nextYear ds w).
Proof.
  destruct (nextYear_keeps ds w) as (H1 & H2 & _ & H4 & _).
  now apply timer_ok_same.
Qed.

Lemma timer_ok_previousYear w :
  Props.timer_ok w -> Props.timer_ok (previousYear ds w).
Proof.
  destruct (previousYear_keeps w) as (H1 & H2 & _ & H4 & _).
  now apply timer_ok_same.
Qed.

Lemma timer_ok_play w : Props.timer_ok w -> Props.timer_ok (play ds w).
Proof.
  unfold Props.timer_ok, play. destruct (isAnimating (state w)) eqn:Ha.
  - rewrite Ha. exact (fun H => H).
  - intros [_ Hi]. simpl. rewrite Hi. eexists. split; reflexivity.
Qed.

Lemma timer_ok_pause w : Props.timer_ok w -> Props.timer_ok (pause ds w).
Proof.
  unfold Props.timer_ok, pause. destruct (isAnimating (state w)) eqn:Ha; simpl.
  - intros (h & Ht & Hi). rewrite Ht. simpl. rewrite Hi. simpl.
    now rewrite Pos.eqb_refl.
  - rewrite Ha. exact (fun H => H).
Qed.

Lemma timer_ok_nextFrame w : Props.timer_ok w -> Props.timer_ok (nextFrame ds loop w).
Proof.
  intros H. unfold nextFrame.
  destruct (currentYearIndex (state w) + 1 >=? DataService.yearsLength ds)%Z;
    [|now apply timer_ok_nextYear].
  assert (H0 : Props.timer_ok (with_state w (set_index (state w) 0)))
    by (revert H; apply timer_ok_same; reflexivity).
  destruct loop; simpl; [now apply timer_ok_nextYear|now apply timer_ok_pause].
Qed.

Lemma timer_ok_tick h w : Props.timer_ok w -> Props.timer_ok (tick ds loop h w).
Proof.
  intros H. unfold tick. destruct (existsb _ _); [|exact H].
  now apply timer_ok_nextFrame.
Qed.

Lemma timer_ok_setSpeed s w :
  Props.timer_ok w -> Props.timer_ok (fst (setSpeed ds s w)).
Proof.
  intros H. unfold setSpeed. destruct (Qle_bool s 0); [exact H|].
  cbn [fst].
  set (w1 := with_state w _).
  assert (H1 : Props.timer_ok w1)
    by (revert H; apply timer_ok_same; reflexivity).
  destruct (isAnimating (state w1)).
  - apply timer_ok_pause in H1. revert H1. apply timer_ok_same; reflexivity.
  - revert H1. apply timer_ok_same; reflexivity.
Qed.

Lemma timer_ok_stopped w :
  Props.timer_ok w -> isAnimating (state w) = false ->
  animationTimer (state w) = None /\ intervals w = [].
Proof. unfold Props.timer_ok. intros H Ha. now rewrite Ha in H. Qed.

Lemma timer_ok_cleanup w : Props.timer_ok w -> Props.timer_ok (cleanup ds w).
Proof.
  intros H. apply timer_ok_pause in H.
  destruct (timer_ok_stopped _ H (pause_stops ds w)) as [Ht Hi].
  unfold cleanup, Props.timer_ok. simpl. now rewrite Ht, Hi.
Qed.

Lemma timer_ok_runTimeout w : Props.timer_ok w -> Props.timer_ok (runTimeout ds w).
Proof.
  intros H. unfold runTimeout. destruct (timeouts w) as [|cb rest]; [exact H|].
  destruct cb. simpl. apply timer_ok_play.
  revert H. apply timer_ok_same; reflexivity.
Qed.

Lemma timer_ok_step a w : Props.timer_ok w -> Props.timer_ok (Props.step ds loop a w).
Proof.
  destruct a; simpl.
  - apply timer_ok_play.
  - apply timer_ok_pause.
  - apply timer_ok_setYear.
  - apply timer_ok_nextYear.
  - apply timer_ok_previousYear.
  - apply timer_ok_setSpeed.
  - apply timer_ok_cleanup.
  - apply timer_ok_tick.
  - apply timer_ok_runTimeout.
Qed.

Lemma timer_ok_run history :
  forall w, Props.timer_ok w -> Props.timer_ok (Props.run ds loop history w).
Proof.
  unfold Props.run. induction history as [|a history IH]; intros w H; [exact H|].
  simpl. apply IH. now apply timer_ok_step.
Qed.

Lemma timer_ok_setup speed0 : Props.timer_ok (setupAnimation ds speed0).
Proof.
  unfold setupAnimation. apply timer_ok_setYear.
  unfold Props.timer_ok. simpl. split; reflexivity.
Qed.

(** X10: timer discipline.  After set-up, along every history of public
    calls, timer firings and queued callbacks, the service is either
    playing with exactly one interval timer registered (the one it
    remembers) or stopped with none: [play] never stacks a second timer and
    no timer survives [pause] or [cleanup]. *)
Theorem timer_discipline :
  forall (speed0 : Q) (history : list Props.Step),
    let w := Props.run ds loop history (setupAnimation ds speed0) in
    (isPlaying w = true ->
       exists h, animationTimer (state w) = Some h /\ intervals w = [h])
    /\ (isPlaying w = false ->
          animationTimer (state w) = None /\ intervals w = []).
Proof.
  intros speed0 history w.
  pose proof (timer_ok_run history _ (timer_ok_setup speed0)) as H.
  fold w in H. unfold Props.timer_ok in H. unfold isPlaying.
  destruct (isAnimating (state w)); split; intros Hp; try discriminate; exact H.
Qed.

(** *** The year index *)

Lemma setYear_index y w :
  currentYearIndex (state (setYear ds y w))
  = if (DataService.getYearIndex ds y =? -1)%Z
    then currentYearIndex (state w)
    else DataService.getYearIndex ds y.
Proof.
  unfold setYear. destruct (DataService.getYearIndex ds y =? -1)%Z; reflexivity.
Qed.

Lemma play_keeps_index w :
  currentYearIndex (state (play ds w)) = currentYearIndex (state w).
Proof. unfold play. destruct (isAnimating (state w)); reflexivity. Qed.

Lemma setSpeed_keeps_index s w :
  currentYearIndex (state (fst (setSpeed ds s w))) = currentYearIndex (state w).
Proof.
  unfold setSpeed. destruct (Qle_bool s 0); [reflexivity|].
  cbn [fst emit state]. set (w1 := with_state w _).
  destruct (isAnimating (state w1)); cbn [state]; [|reflexivity].
  now rewrite pause_keeps_index.
Qed.

Section Constructed.
Variable energyData : list EnergyDataPoint.
Variable hasHeat : bool.
Hypothesis Hnew : DataService.new energyData = Ok (ds, hasHeat).

Lemma yearsLength_length :
  DataService.yearsLength ds = Z.of_nat (length (DataService.years ds))
  /\ (0 < DataService.yearsLength ds)%Z.
Proof.
  pose proof (new_nonempty _ _ _ Hnew).
  destruct (new_inv _ _ _ Hnew) as (_ & _ & Hn & _). lia.
Qed.

Lemma index_ok_at w :
  Props.index_ok ds w ->
  exists y, nth_error (DataService.years ds)
              (Z.to_nat (currentYearIndex (state w))) = Some y
            /\ at_index (DataService.years ds) (currentYearIndex (state w)) = Some y.
Proof.
  unfold Props.index_ok. intros H. destruct yearsLength_length as [Hn _].
  destruct (nth_error (DataService.years ds) (Z.to_nat (currentYearIndex (state w))))
    as [y|] eqn:Hy.
  - exists y. split; [reflexivity|]. now rewrite at_index_nth by lia.
  - apply nth_error_None in Hy. lia.
Qed.

Lemma index_ok_same w w' :
  currentYearIndex (state w') = currentYearIndex (state w) ->
  Props.index_ok ds w -> Props.index_ok ds w'.
Proof. unfold Props.index_ok. now intros ->. Qed.

Lemma index_ok_setYear y w : Props.index_ok ds w -> Props.index_ok ds (setYear ds y w).
Proof.
  unfold Props.index_ok. rewrite setYear_index. intros H.
  destruct yearsLength_length as [Hn _].
  destruct (getYearIndex_cases ds y) as [[Hi _]|(_ & Hr & _)].
  - now rewrite Hi.
  - destruct (Z.eqb_spec (DataService.getYearIndex ds y) (-1)); lia.
Qed.

Lemma index_ok_nextYear w : Props.index_ok ds w -> Props.index_ok ds (nextYear ds w).
Proof.
  intros H. unfold nextYear.
  destruct (Z.ltb_spec (currentYearIndex (state w)) (DataService.yearsLength ds - 1));
    [|exact H].
  assert (H1 : Props.index_ok ds
                 (with_state w (set_index (state w) (currentYearIndex (state w) + 1)))).
  { unfold Props.index_ok in *. simpl. lia. }
  destruct (at_index _ _); [now apply index_ok_setYear|exact H1].
Qed.

Lemma index_ok_previousYear w :
  Props.index_ok ds w -> Props.index_ok ds (previousYear ds w).
Proof.
  intros H. unfold previousYear.
  destruct (Z.gtb_spec (currentYearIndex (state w)) 0); [|exact H].
  assert (H1 : Props.index_ok ds
                 (with_state w (set_index (state w) (currentYearIndex (state w) - 1)))).
  { unfold Props.index_ok in *. simpl. lia. }
  destruct (at_index _ _); [now apply index_ok_setYear|exact H1].
Qed.

Lemma index_ok_nextFrame w :
  Props.index_ok ds w -> Props.index_ok ds (nextFrame ds loop w).
Proof.
  intros H. unfold nextFrame.
  destruct (currentYearIndex (state w) + 1 >=? DataService.yearsLength ds)%Z;
    [|now apply index_ok_nextYear].
  assert (H0 : Props.index_ok ds (with_state w (set_index (state w) 0))).
  { unfold Props.index_ok. simpl. destruct yearsLength_length. lia. }
  destruct loop; simpl; [now apply index_ok_nextYear|].
  revert H0. apply index_ok_same. apply pause_keeps_index.
Qed.

Lemma index_ok_step a w : Props.index_ok ds w -> Props.index_ok ds (Props.step ds loop a w).
Proof.
  destruct a; simpl.
  - apply index_ok_same, play_keeps_index.
  - apply index_ok_same, pause_keeps_index.
  - apply index_ok_setYear.
  - apply index_ok_nextYear.
  - apply index_ok_previousYear.
  - apply index_ok_same, setSpeed_keeps_index.
  - intros _. unfold Props.index_ok, cleanup. simpl.
    destruct yearsLength_length. lia.
  - intros H. unfold tick. destruct (existsb _ _); [|exact H].
    now apply index_ok_nextFrame.
  - intros H. unfold runTimeout. destruct (timeouts w) as [|[] rest]; [exact H|].
    simpl. revert H. apply index_ok_same. now rewrite play_keeps_index.
Qed.

Lemma index_ok_run history :
  forall w, Props.index_ok ds w -> Props.index_ok ds (Props.run ds loop history w).
Proof.
  unfold Props.run. induction history as [|a history IH]; intros w H; [exact H|].
  simpl. apply IH. now apply index_ok_step.
Qed.

Lemma index_ok_setup speed0 : Props.index_ok ds (setupAnimation ds speed0).
Proof.
  unfold setupAnimation. apply index_ok_setYear.
  unfold Props.index_ok. simpl. destruct yearsLength_length. lia.
Qed.

Lemma validatePoints_years h i data h' :
  DataValidationService.validatePoints h i data = Ok h' ->
  forall p, In p data -> year p <> 0%Z.
Proof.
  revert h i. induction data as [|d data IH]; intros h i H p Hin; [contradiction|].
  simpl in H. unfold DataValidationService.validatePoint in H.
  destruct (Z.eqb_spec (year d) 0) as [|Hne]; [discriminate H|].
  simpl in H. destruct Hin as [<-|Hin]; [exact Hne|].
  exact (IH _ _ H p Hin).
Qed.

Lemma years_nonzero y : In y (DataService.years ds) -> y <> 0%Z.
Proof.
  destruct (new_inv _ _ _ Hnew) as (Hd & Hy & _ & _ & _ & Hv).
  rewrite Hy, Hd. intros Hin. apply in_map_iff in Hin.
  destruct Hin as (p & <- & Hp). apply js_sort_In in Hp.
  unfold DataValidationService.validateData in Hv.
  destruct energyData as [|d rest]; [discriminate Hv|].
  exact (validatePoints_years _ _ _ _ Hv p Hp).
Qed.

Lemma getCurrentYear_nth w :
  Props.index_ok ds w ->
  nth_error (DataService.years ds) (Z.to_nat (currentYearIndex (state w)))
  = Some (getCurrentYear ds w).
Proof.
  intros H. destruct (index_ok_at w H) as (y & Hy & Hat).
  unfold getCurrentYear. rewrite Hat, Hy.
  destruct (Z.eqb_spec y 0) as [->|]; [|reflexivity].
  exfalso. apply (years_nonzero 0%Z); [|reflexivity].
  eapply nth_error_In; eassumption.
Qed.

(** X11: after set-up on a constructed data service, along every history
    the year index addresses a record, and [getCurrentYear] answers the year
    stored at that index, which is a year of the dataset (the fallback to the
    first year is never taken). *)
Theorem current_year_in_dataset :
  forall (speed0 : Q) (history : list Props.Step),
    let w := Props.run ds loop history (setupAnimation ds speed0) in
    (0 <= currentYearIndex (state w) < DataService.yearsLength ds)%Z
    /\ nth_error (DataService.years ds) (Z.to_nat (currentYearIndex (state w)))
       = Some (getCurrentYear ds w)
    /\ DataService.hasYear ds (getCurrentYear ds w) = true.
Proof.
  intros speed0 history w.
  pose proof (index_ok_run history _ (index_ok_setup speed0)) as H. fold w in H.
  pose proof (getCurrentYear_nth w H) as Hc.
  split; [exact H|]. split; [exact Hc|].
  apply hasYear_In. eapply nth_error_In; eassumption.
Qed.

(** *** Moving through distinct years *)

Hypothesis Hnd : NoDup (map year energyData).

Lemma nextYear_advances w :
  Props.index_ok ds w ->
  (currentYearIndex (state w) < DataService.yearsLength ds - 1)%Z ->
  currentYearIndex (state (nextYear ds w)) = (currentYearIndex (state w) + 1)%Z
  /\ shownYear (nextYear ds w) = Some (getCurrentYear ds (nextYear ds w)).
Proof.
  intros H Hlt. pose proof (index_ok_nextYear w H) as H'.
  pose proof (getCurrentYear_nth _ H') as Hc.
  unfold nextYear in *.
  destruct (Z.ltb_spec (currentYearIndex (state w)) (DataService.yearsLength ds - 1));
    [|lia].
  set (w1 := with_state w (set_index (state w) (currentYearIndex (state w) + 1))) in *.
  assert (H1 : Props.index_ok ds w1) by (unfold Props.index_ok in *; simpl; lia).
  destruct (index_ok_at w1 H1) as (y & Hy & Hat).
  rewrite Hat in *.
  assert (Hi : DataService.getYearIndex ds y = (currentYearIndex (state w) + 1)%Z).
  { rewrite (getYearIndex_nth ds _ y (new_NoDup _ _ _ Hnew Hnd) Hy).
    simpl. unfold Props.index_ok in H. lia. }
  assert (Hidx : currentYearIndex (state (setYear ds y w1))
                 = (currentYearIndex (state w) + 1)%Z).
  { rewrite setYear_index, Hi.
    destruct (Z.eqb_spec (currentYearIndex (state w) + 1) (-1)); [|reflexivity].
    unfold Props.index_ok in H. lia. }
  split; [exact Hidx|].
  assert (Hcy : getCurrentYear ds (setYear ds y w1) = y).
  { rewrite Hidx in Hc. simpl in Hy. congruence. }
  rewrite Hcy. unfold setYear. rewrite Hi.
  destruct (Z.eqb_spec (currentYearIndex (state w) + 1) (-1));
    [unfold Props.index_ok in H; lia|].
  reflexivity.
Qed.

Lemma previousYear_retreats w :
  Props.index_ok ds w ->
  (0 < currentYearIndex (state w))%Z ->
  currentYearIndex (state (previousYear ds w)) = (currentYearIndex (state w) - 1)%Z.
Proof.
  intros H Hlt. unfold previousYear.
  destruct (Z.gtb_spec (currentYearIndex (state w)) 0); [|lia].
  set (w1 := with_state w (set_index (state w) (currentYearIndex (state w) - 1))).
  assert (H1 : Props.index_ok ds w1) by (unfold Props.index_ok in *; simpl; lia).
  destruct (index_ok_at w1 H1) as (y & Hy & Hat).
  rewrite Hat.
  rewrite setYear_index, (getYearIndex_nth ds _ y (new_NoDup _ _ _ Hnew Hnd) Hy).
  simpl. unfold Props.index_ok in H.
  destruct (Z.eqb_spec (Z.of_nat (Z.to_nat (currentYearIndex (state w) - 1))) (-1)); lia.
Qed.

(** X12: on a dataset with pairwise distinct years, [nextYear] moves the
    index forward by exactly one and [previousYear] undoes it; at the last
    year [nextYear] changes nothing, and at the first year [previousYear]
    changes nothing. *)
Theorem nextYear_previousYear :
  forall w,
    Props.index_ok ds w ->
    ((currentYearIndex (state w) < DataService.yearsLength ds - 1)%Z ->
       currentYearIndex (state (nextYear ds w)) = (currentYearIndex (state w) + 1)%Z
       /\ currentYearIndex (state (previousYear ds (nextYear ds w)))
          = currentYearIndex (state w)
       /\ getCurrentYear ds (previousYear ds (nextYear ds w)) = getCurrentYear ds w)
    /\ (currentYearIndex (state w) = (DataService.yearsLength ds - 1)%Z ->
          nextYear ds w = w)
    /\ (currentYearIndex (state w) = 0%Z -> previousYear ds w = w).
Proof.
  intros w H. split; [|split].
  - intros Hlt. destruct (nextYear_advances w H Hlt) as [Hn _].
    pose proof (index_ok_nextYear w H) as H'.
    assert (Hp : currentYearIndex (state (previousYear ds (nextYear ds w)))
                 = currentYearIndex (state w)).
    { rewrite (previousYear_retreats _ H'); unfold Props.index_ok in H; lia. }
    split; [exact Hn|]. split; [exact Hp|].
    unfold getCurrentYear. now rewrite Hp.
  - intros He. unfold nextYear.
    destruct (Z.ltb_spec (currentYearIndex (state w)) (DataService.yearsLength ds - 1));
      [lia|reflexivity].
  - intros He. unfold previousYear. rewrite He. reflexivity.
Qed.

Lemma tick_is_nextYear h w :
  In h (intervals w) ->
  (currentYearIndex (state w) < DataService.yearsLength ds - 1)%Z ->
  tick ds loop h w = nextYear ds w.
Proof.
  intros Hin Hlt. unfold tick.
  assert (He : existsb (Pos.eqb h) (intervals w) = true).
  { apply existsb_exists. exists h. split; [exact Hin|apply Pos.eqb_refl]. }
  rewrite He. unfold nextFrame.
  destruct (Z.geb_spec (currentYearIndex (state w) + 1) (DataService.yearsLength ds));
    [lia|reflexivity].
Qed.

(** With looping, the wrap at the last year goes through index 0 straight
    on to index 1, so no firing of the timer ever shows the first year of a
    dataset of two or more years. *)
Lemma looping_tick_skips_first_year h w :
  loop = true ->
  (2 <= DataService.yearsLength ds)%Z ->
  In h (intervals w) ->
  Props.index_ok ds w ->
  (1 <= currentYearIndex (state (tick ds loop h w)))%Z
  /\ getCurrentYear ds (tick ds loop h w) <> DataService.firstYear ds.
Proof.
  intros Hloop Hlen Hin Hok.
  assert (Hok' : Props.index_ok ds (tick ds loop h w)).
  { unfold tick. destruct (existsb _ _); [now apply index_ok_nextFrame|exact Hok]. }
  assert (Hidx : (1 <= currentYearIndex (state (tick ds loop h w)))%Z).
  { unfold tick.
    assert (He : existsb (Pos.eqb h) (intervals w) = true).
    { apply existsb_exists. exists h. split; [exact Hin|apply Pos.eqb_refl]. }
    rewrite He. unfold nextFrame. rewrite Hloop. cbn [negb].
    destruct (Z.geb_spec (currentYearIndex (state w) + 1) (DataService.yearsLength ds))
      as [Hge|Hlt].
    - set (w1 := with_state w (set_index (state w) 0)).
      assert (H1 : Props.index_ok ds w1) by (unfold Props.index_ok; simpl; lia).
      assert (Hlt1 : (currentYearIndex (state w1) < DataService.yearsLength ds - 1)%Z)
        by (simpl; lia).
      destruct (nextYear_advances w1 H1 Hlt1) as [-> _]. simpl. lia.
    - assert (Hlt1 : (currentYearIndex (state w) < DataService.yearsLength ds - 1)%Z)
        by lia.
      destruct (nextYear_advances w Hok Hlt1) as [-> _].
      unfold Props.index_ok in Hok. lia. }
  split; [exact Hidx|].
  pose proof (getCurrentYear_nth _ Hok') as Hc.
  destruct (new_inv _ _ _ Hnew) as (_ & _ & Hn & Hf & _).
  pose proof (new_NoDup _ _ _ Hnew Hnd) as Hnd'.
  intros Heq. rewrite Heq, Hf in Hc.
  assert (H0 : nth_error (DataService.years ds) 0 = Some (nth 0 (DataService.years ds) 0%Z)).
  { apply nth_error_nth'. lia. }
  rewrite <- H0 in Hc.
  apply (proj1 (NoDup_nth_error _) Hnd') in Hc.
  - unfold Props.index_ok in Hok'. lia.
  - unfold Props.index_ok in Hok'. lia.
Qed.

Lemma ticks_advance h :
  forall (k : nat) w,
    isAnimating (state w) = true ->
    animationTimer (state w) = Some h ->
    In h (intervals w) ->
    Props.index_ok ds w ->
    (currentYearIndex (state w) + Z.of_nat k <= DataService.yearsLength ds - 1)%Z ->
    let w' := Props.ticks ds loop h k w in
    currentYearIndex (state w') = (currentYearIndex (state w) + Z.of_nat k)%Z
    /\ isAnimating (state w') = true
    /\ animationTimer (state w') = Some h
    /\ intervals w' = intervals w
    /\ Props.index_ok ds w'
    /\ ((0 < k)%nat -> shownYear w' = Some (getCurrentYear ds w')).
Proof.
  induction k as [|k IH]; intros w Ha Ht Hin Hok Hle.
  - cbv zeta. simpl. rewrite Z.add_0_r. repeat split; try assumption; try apply Hok. lia.
  - assert (Hle' : (currentYearIndex (state w) + Z.of_nat k
                    <= DataService.yearsLength ds - 1)%Z) by lia.
    destruct (IH w Ha Ht Hin Hok Hle') as (Hi & Ha' & Ht' & Hin' & Hok' & _).
    cbv zeta. unfold Props.ticks in *.
    change (Nat.iter (S k) (tick ds loop h) w)
      with (tick ds loop h (Nat.iter k (tick ds loop h) w)).
    set (wk := Nat.iter k (tick ds loop h) w) in *.
    assert (Hlt : (currentYearIndex (state wk) < DataService.yearsLength ds - 1)%Z)
      by lia.
    rewrite (tick_is_nextYear h wk) by (rewrite ?Hin'; assumption).
    destruct (nextYear_advances wk Hok' Hlt) as [Hn Hs].
    destruct (nextYear_keeps ds wk) as (K1 & K2 & _ & K4 & _).
    split; [rewrite Hn, Hi; lia|].
    split; [now rewrite K1|].
    split; [now rewrite K2|].
    split; [now rewrite K4|].
    split; [now apply index_ok_nextYear|].
    intros _. exact Hs.
Qed.

(** X13: on a dataset with pairwise distinct years, playback shows
    the years one by one: while the end is not reached, [k] timer firings
    move the index forward by exactly [k], the engine keeps playing and the
    year drawn is the current one.  Without looping, the firing that follows
    the last year stops the engine, clears its timer and rewinds the index
    to the first year. *)
Theorem playback_reaches_the_end :
  forall w h,
    isAnimating (state w) = true ->
    animationTimer (state w) = Some h ->
    In h (intervals w) ->
    Props.index_ok ds w ->
    (forall k : nat,
       (currentYearIndex (state w) + Z.of_nat k <= DataService.yearsLength ds - 1)%Z ->
       let w' := Props.ticks ds loop h k w in
       currentYearIndex (state w') = (currentYearIndex (state w) + Z.of_nat k)%Z
       /\ isPlaying w' = true
       /\ ((0 < k)%nat -> shownYear w' = Some (getCurrentYear ds w')))
    /\ (loop = false ->
        let w' := Props.ticks ds loop h
                    (Z.to_nat (DataService.yearsLength ds - currentYearIndex (state w)))
                    w in
        isPlaying w' = false
        /\ animationTimer (state w') = None
        /\ ~ In h (intervals w')
        /\ currentYearIndex (state w') = 0%Z).
Proof.
  intros w h Ha Ht Hin Hok. split.
  - intros k Hle.
    destruct (ticks_advance h k w Ha Ht Hin Hok Hle) as (Hi & Ha' & _ & _ & _ & Hs).
    cbv zeta. unfold isPlaying. repeat split; assumption.
  - intros Hl. cbv zeta.
    assert (Hr : (0 <= currentYearIndex (state w) < DataService.yearsLength ds)%Z)
      by exact Hok.
    set (k0 := Z.to_nat (DataService.yearsLength ds - 1 - currentYearIndex (state w))).
    replace (Z.to_nat (DataService.yearsLength ds - currentYearIndex (state w)))
      with (S k0) by (unfold k0; lia).
    destruct (ticks_advance h k0 w Ha Ht Hin Hok ltac:(unfold k0; lia))
      as (Hi & Ha' & Ht' & Hin' & _ & _).
    unfold Props.ticks in *.
    change (Nat.iter (S k0) (tick ds loop h) w)
      with (tick ds loop h (Nat.iter k0 (tick ds loop h) w)).
    set (wk := Nat.iter k0 (tick ds loop h) w) in *.
    unfold tick.
    assert (He : existsb (Pos.eqb h) (intervals wk) = true).
    { apply existsb_exists. exists h. split; [now rewrite Hin'|apply Pos.eqb_refl]. }
    rewrite He. unfold nextFrame.
    destruct (Z.geb_spec (currentYearIndex (state wk) + 1) (DataService.yearsLength ds));
      [|unfold k0 in Hi; lia].
    rewrite Hl. cbn [negb].
    set (w0 := with_state wk (set_index (state wk) 0)).
    unfold isPlaying. split; [apply pause_stops|].
    destruct (pause_clears_timer ds w0 h Ha' Ht') as [Hc Hn].
    split; [exact Hc|]. split; [exact Hn|].
    now rewrite pause_keeps_index.
Qed.

End Constructed.

Lemma pause_keeps_timeouts w : timeouts (pause ds w) = timeouts w.
Proof.
  unfold pause. destruct (isAnimating (state w)); simpl; [|reflexivity].
  destruct (animationTimer (state w)); reflexivity.
Qed.

(** X14: what [cleanup] stops, and what it does not.  From any state that
    respects the timer discipline it leaves the engine stopped at index 0
    with no interval timer registered and the speed unchanged, so that no
    interval firing changes the state any more.  It does not cancel a restart
    that [setSpeed] queued with [setTimeout]: the queue is left as it was.
    With an empty queue the host has nothing left to run; a queued restart,
    once the host runs it, starts playback again on a fresh timer. *)
Theorem cleanup_leaves_queued_restart :
  forall w,
    Props.timer_ok w ->
    let w' := cleanup ds w in
    isPlaying w' = false
    /\ animationTimer (state w') = None
    /\ intervals w' = []
    /\ currentYearIndex (state w') = 0%Z
    /\ speed (state w') = speed (state w)
    /\ timeouts w' = timeouts w
    /\ (forall h, tick ds loop h w' = w')
    /\ (timeouts w = [] -> runTimeout ds w' = w')
    /\ (timeouts w <> [] ->
        isPlaying (runTimeout ds w') = true
        /\ exists h', animationTimer (state (runTimeout ds w')) = Some h'
                      /\ intervals (runTimeout ds w') = [h']).
Proof.
  intros w H. cbv zeta.
  pose proof (timer_ok_pause w H) as Hp.
  destruct (timer_ok_stopped _ Hp (pause_stops ds w)) as [Ht Hi].
  pose proof (pause_keeps_timeouts w) as Hq.
  unfold cleanup, isPlaying, tick, runTimeout.
  cbn [state with_state intervals isAnimating animationTimer currentYearIndex
       speed timeouts].
  rewrite Ht, Hi, Hq, pause_keeps_speed.
  split; [reflexivity|]. split; [reflexivity|]. split; [reflexivity|].
  split; [reflexivity|]. split; [reflexivity|]. split; [reflexivity|].
  split; [reflexivity|]. split.
  - intros ->. reflexivity.
  - intros Hne. destruct (timeouts w) as [|cb rest]; [contradiction|].
    destruct cb. unfold runCallback, play. cbn [state isAnimating].
    cbn [emit state isAnimating animationTimer intervals].
    split; [reflexivity|]. eexists. split; reflexivity.
Qed.

Lemma play_keeps_speed w : speed (state (play ds w)) = speed (state w).
Proof. unfold play. destruct (isAnimating (state w)); reflexivity. Qed.

(** X15: changing the speed while playing restarts playback: [setSpeed]
    stops the engine, clears its timer and queues one callback; when the
    host runs it, the engine plays again on a single fresh timer with the new
    speed, at the year index it had. *)
Theorem setSpeed_restarts_playback :
  forall s w,
    Props.timer_ok w ->
    isPlaying w = true ->
    0 < s ->
    timeouts w = [] ->
    let w1 := fst (setSpeed ds s w) in
    let w2 := runTimeout ds w1 in
    snd (setSpeed ds s w) = None
    /\ isPlaying w1 = false
    /\ intervals w1 = []
    /\ timeouts w1 = [CallPlay]
    /\ isPlaying w2 = true
    /\ speed (state w2) = s
    /\ (exists h', animationTimer (state w2) = Some h' /\ intervals w2 = [h'])
    /\ timeouts w2 = []
    /\ currentYearIndex (state w2) = currentYearIndex (state w).
Proof.
  intros s w H Hp Hs Hq. cbv zeta. unfold isPlaying in *.
  assert (Hb : Qle_bool s 0 = false).
  { destruct (Qle_bool s 0) eqn:Hb; [|reflexivity].
    apply Qle_bool_iff in Hb. exfalso. exact (Qlt_not_le _ _ Hs Hb). }
  unfold setSpeed. rewrite Hb. cbn [fst snd].
  set (w0 := with_state w _).
  assert (H0 : Props.timer_ok w0) by (revert H; apply timer_ok_same; reflexivity).
  assert (Ha0 : isAnimating (state w0) = true) by exact Hp.
  rewrite Ha0.
  pose proof (timer_ok_pause w0 H0) as Hp0.
  destruct (timer_ok_stopped _ Hp0 (pause_stops ds w0)) as [Ht Hi].
  assert (Hto : timeouts (pause ds w0) = []).
  { unfold pause. rewrite Ha0. simpl. destruct (animationTimer (state w)); exact Hq. }
  split; [reflexivity|].
  split; [cbn [emit state]; apply pause_stops|].
  split; [cbn [emit intervals]; exact Hi|].
  split; [cbn [emit timeouts]; now rewrite Hto|].
  unfold runTimeout. cbn [emit timeouts state intervals nextHandle shownYear emitted].
  rewrite Hto. cbn [app runCallback].
  unfold play. cbn [state isAnimating]. rewrite (pause_stops ds w0).
  cbn [emit state isAnimating speed intervals timeouts animationTimer currentYearIndex].
  rewrite Hi, pause_keeps_speed, pause_keeps_index.
  repeat split. eexists. split; reflexivity.
Qed.

End Histories.

Lemma idle_index_ok : Props.index_ok Samples.ds3 Samples.idle.
Proof. unfold Props.index_ok. simpl. lia. Qed.

Lemma threeYears_new : DataService.new Samples.threeYears = Ok (Samples.ds3, false).
Proof. vm_compute. reflexivity. Qed.

Lemma threeYears_NoDup : NoDup (map year Samples.threeYears).
Proof. simpl. repeat constructor; simpl; intuition discriminate. Qed.

Lemma current_year_in_dataset_witness :
  DataService.hasYear Samples.ds3
    (AnimationService.getCurrentYear Samples.ds3
       (Props.run Samples.ds3 false
          [Props.DoPlay; Props.Fire 1; Props.DoSetYear 2002; Props.Fire 1]
          (AnimationService.setupAnimation Samples.ds3 200))) = true.
Proof.
  exact (proj2 (proj2 (current_year_in_dataset Samples.ds3 false Samples.threeYears
                         false threeYears_new 200
                         [Props.DoPlay; Props.Fire 1; Props.DoSetYear 2002;
                          Props.Fire 1]))).
Defined.

Lemma nextYear_previousYear_witness :
  AnimationService.currentYearIndex
    (AnimationService.state
       (AnimationService.previousYear Samples.ds3
          (AnimationService.nextYear Samples.ds3 Samples.idle))) = 0%Z.
Proof.
  assert (Hlt : (AnimationService.currentYearIndex (AnimationService.state Samples.idle)
                 < DataService.yearsLength Samples.ds3 - 1)%Z) by (simpl; lia).
  exact (proj1 (proj2 (proj1 (nextYear_previousYear Samples.ds3 Samples.threeYears
                                false threeYears_new threeYears_NoDup Samples.idle
                                idle_index_ok) Hlt))).
Defined.

Lemma playback_reaches_the_end_witness :
  AnimationService.isPlaying
    (Props.ticks Samples.ds3 false 1 3
       (AnimationService.play Samples.ds3 Samples.idle)) = false.
Proof.
  assert (Hok : Props.index_ok Samples.ds3 (AnimationService.play Samples.ds3 Samples.idle))
    by (unfold Props.index_ok; simpl; lia).
  assert (Hin : In 1%positive
                  (AnimationService.intervals
                     (AnimationService.play Samples.ds3 Samples.idle)))
    by (simpl; left; reflexivity).
  exact (proj1 (proj2 (playback_reaches_the_end Samples.ds3 false Samples.threeYears
                         false threeYears_new threeYears_NoDup
                         (AnimationService.play Samples.ds3 Samples.idle) 1%positive
                         eq_refl eq_refl Hin Hok) eq_refl)).
Defined.

Lemma playingAtEnd_timer_ok : Props.timer_ok Samples.playingAtEnd.
Proof. unfold Props.timer_ok. simpl. eexists. split; reflexivity. Qed.

Lemma cleanup_leaves_queued_restart_witness :
  AnimationService.intervals
    (AnimationService.cleanup Samples.ds3
       (fst (AnimationService.setSpeed Samples.ds3 100 Samples.playingAtEnd))) = []
  /\ AnimationService.isPlaying
       (AnimationService.runTimeout Samples.ds3
          (AnimationService.cleanup Samples.ds3
             (fst (AnimationService.setSpeed Samples.ds3 100 Samples.playingAtEnd))))
     = true.
Proof.
  assert (Hok : Props.timer_ok
                  (fst (AnimationService.setSpeed Samples.ds3 100 Samples.playingAtEnd))).
  { unfold Props.timer_ok. vm_compute. split; reflexivity. }
  assert (Hne : AnimationService.timeouts
                  (fst (AnimationService.setSpeed Samples.ds3 100 Samples.playingAtEnd))
                <> []).
  { vm_compute. discriminate. }
  destruct (cleanup_leaves_queued_restart Samples.ds3 false _ Hok)
    as (_ & _ & Hi & _ & _ & _ & _ & _ & Hrestart).
  split; [exact Hi|exact (proj1 (Hrestart Hne))].
Defined.

Lemma setSpeed_restarts_playback_witness :
  AnimationService.isPlaying
    (AnimationService.runTimeout Samples.ds3
       (fst (AnimationService.setSpeed Samples.ds3 100 Samples.playingAtEnd))) = true.
Proof.
  assert (Hs : 0 < 100) by reflexivity.
  exact (proj1 (proj2 (proj2 (proj2 (proj2
           (setSpeed_restarts_playback Samples.ds3 100 Samples.playingAtEnd
              playingAtEnd_timer_ok eq_refl Hs eq_refl)))))).
Defined.

(* ------------------------------------------------------------------ *)
(** ** The facade after [destroy] *)





(* ------------------------------------------------------------------ *)
(** ** SummaryService: flow counters, year sums and maxima *)

Section Rows.
Import SummaryService.
Local Open Scope Q_scope.

(** The totals of [yearRow] are those of [yearTotals]. *)
Lemma sectorsLoopAll_fst hasHeat p j f o boxes :
  forall s,
    match sectorsLoopAll hasHeat p j f o boxes s with
    | Ok s' => sectorsLoop hasHeat p j f o boxes (fst s) = Ok (fst s')
    | Throw e => sectorsLoop hasHeat p j f o boxes (fst s) = Throw e
    end.
Proof.
  induction boxes as [|bx boxes IH]; intros s;
    cbn [sectorsLoopAll sectorsLoop]; [reflexivity|].
  unfold sectorStepAll.
  destruct (negb hasHeat && Box.eqb bx Box.heat) eqn:Hskip.
  - cbn [bind]. unfold sectorStep. rewrite Hskip. cbn [bind]. apply IH.
  - destruct (sectorStep hasHeat p j f o (fst s) bx) as [t|e]; cbn [bind];
      [|reflexivity].
    match goal with |- context [sectorsLoopAll _ _ _ _ _ _ ?s1] => exact (IH s1) end.
Qed.

Lemma fuelsLoopAll_fst hasHeat p fuels :
  forall j s,
    match fuelsLoopAll hasHeat p j fuels s with
    | Ok s' => fuelsLoop hasHeat p j fuels (fst (fst s)) = Ok (fst (fst s'))
    | Throw e => fuelsLoop hasHeat p j fuels (fst (fst s)) = Throw e
    end.
Proof.
  induction fuels as [|f fuels IH]; intros j [[t fl] lb];
    cbn [fuelsLoopAll fuelsLoop fst]; [reflexivity|].
  unfold fuelStepAll, fuelStep.
  destruct (dp_get p f) as [o|];
    destruct (negb hasHeat && Fuel.eqb f Fuel.heat); cbn [bind];
    try reflexivity; try exact (IH (S j) (t, fl, lb)).
  pose proof (sectorsLoopAll_fst hasHeat p j f o ConfigurationService.BOX_NAMES (t, fl))
    as Hs.
  destruct (sectorsLoopAll hasHeat p j f o ConfigurationService.BOX_NAMES (t, fl))
    as [[t' fl']|e]; cbn [fst] in Hs; rewrite Hs; cbn [bind fst snd]; [|reflexivity].
  match goal with |- context [fuelsLoopAll _ _ _ _ ?s1] => exact (IH (S j) s1) end.
Qed.

Lemma yearRow_totals hasHeat p :
  match yearRow hasHeat p with
  | Ok r => yearTotals hasHeat p = Ok (r_total r)
  | Throw e => yearTotals hasHeat p = Throw e
  end.
Proof.
  unfold yearRow, yearTotals.
  pose proof (fuelsLoopAll_fst hasHeat p (skipn 2 ConfigurationService.FUELS) 2
                (initTotal hasHeat p, initFlow hasHeat p, initLabel hasHeat p)) as H.
  destruct (fuelsLoopAll hasHeat p 2 (skipn 2 ConfigurationService.FUELS)
              (initTotal hasHeat p, initFlow hasHeat p, initLabel hasHeat p))
    as [[[t fl] lb]|e]; cbn [fst] in H; rewrite H; reflexivity.
Qed.

Lemma yearRow_returns hasHeat p :
  (hasHeat = true -> dp_heat p <> None) ->
  exists r, yearRow hasHeat p = Ok r /\ yearTotals hasHeat p = Ok (r_total r).
Proof.
  intros Hh. destruct (yearTotals_total hasHeat p Hh) as (t & Ht & _).
  pose proof (yearRow_totals hasHeat p) as H.
  destruct (yearRow hasHeat p) as [r|e]; [|congruence].
  exists r. split; [reflexivity|exact H].
Qed.

Lemma yearRow_year hasHeat p r :
  yearRow hasHeat p = Ok r -> t_year (r_total r) = year p.
Proof.
  intros Hr. pose proof (yearRow_totals hasHeat p) as H. rewrite Hr in H.
  unfold yearTotals in H.
  destruct (fuelsLoop hasHeat p 2 (skipn 2 ConfigurationService.FUELS)
              (initTotal hasHeat p)) as [t|e] eqn:Hloop; [|discriminate H].
  assert (Hy : t_year t = year p).
  { destruct (summary_fuelsLoop_total hasHeat p (skipn 2 ConfigurationService.FUELS))
      with (j := 2%nat) (total := initTotal hasHeat p) as (t' & Ht' & Hy').
    - intros Hh. intros Hn. subst hasHeat.
      destruct p as [yr ms pe pw p1 p2 p3 p4 p5 p6 p7 p8 p9 ph].
      simpl in Hn. subst ph. clear -Hloop.
      revert Hloop. generalize (initTotal true
        {| year := yr; milestone := ms; dp_elec := pe; dp_waste := pw;
           dp_solar := p1; dp_nuclear := p2; dp_hydro := p3; dp_wind := p4;
           dp_geo := p5; dp_gas := p6; dp_coal := p7; dp_bio := p8;
           dp_petro := p9; dp_heat := None |}).
      intros t0. cbn [skipn ConfigurationService.FUELS fuelsLoop].
      unfold fuelStep at 1. cbn [dp_get negb andb].
      unfold ConfigurationService.BOX_NAMES, ConfigurationService.BOXES.
      cbn [sectorsLoop]. unfold sectorStep at 1.
      cbn [negb andb Box.eqb Nat.eqb dp_heat bind]. discriminate.
    - rewrite Hloop in Ht'. inversion Ht'; subst. exact Hy'. }
  cbn [bind] in H. inversion H as [Hrt]. 
  destruct hasHeat; simpl; exact Hy.
Qed.

Lemma yearSums_last rows r y :
  yearSums (rows ++ [r]) y
  = if (t_year (r_total r) =? y)%Z then Some (r_sum r) else yearSums rows y.
Proof. unfold yearSums. now rewrite fold_left_app. Qed.

Lemma yearSums_NoDup rows :
  NoDup (map (fun r => t_year (r_total r)) rows) ->
  forall r, In r rows -> yearSums rows (t_year (r_total r)) = Some (r_sum r).
Proof.
  induction rows as [|r0 rows IH] using rev_ind; intros Hnd r Hin; [contradiction|].
  rewrite yearSums_last. rewrite map_app in Hnd. simpl in Hnd.
  apply in_app_or in Hin. destruct Hin as [Hin|[<-|[]]].
  - destruct (Z.eqb_spec (t_year (r_total r0)) (t_year (r_total r))) as [Heq|Hne].
    + exfalso. apply NoDup_remove_2 in Hnd. apply Hnd. rewrite app_nil_r.
      rewrite Heq. now apply (in_map (fun r => t_year (r_total r))).
    + apply IH; [|exact Hin]. apply NoDup_remove_1 in Hnd.
      now rewrite app_nil_r in Hnd.
  - now rewrite Z.eqb_refl.
Qed.

Lemma yearSums_absent rows y :
  ~ In y (map (fun r => t_year (r_total r)) rows) -> yearSums rows y = None.
Proof.
  induction rows as [|r0 rows IH] using rev_ind; intros Hout; [reflexivity|].
  rewrite yearSums_last. rewrite map_app, in_app_iff in Hout. simpl in Hout.
  destruct (Z.eqb_spec (t_year (r_total r0)) y); [tauto|]. apply IH. tauto.
Qed.

Lemma Forall2_In_r {A B} (R : A -> B -> Prop) l l' :
  Forall2 R l l' -> forall b, In b l' -> exists a, In a l /\ R a b.
Proof.
  induction 1 as [|a b l l' Hab _ IH]; intros b0 Hin; [contradiction|].
  destruct Hin as [<-|Hin].
  - exists a. split; [now left|exact Hab].
  - destruct (IH b0 Hin) as (a0 & Ha0 & Hr). exists a0. split; [now right|exact Hr].
Qed.

Lemma Forall2_impl_In2 {A B} (R S : A -> B -> Prop) (l : list A) (l' : list B) :
  (forall a b, In a l -> In b l' -> R a b -> S a b) ->
  Forall2 R l l' -> Forall2 S l l'.
Proof.
  intros H HF. induction HF as [|a b l l' Hab HF IH]; constructor.
  - apply H; [now left|now left|exact Hab].
  - apply IH. intros a' b' Hin Hin'. apply H; now right.
Qed.

Lemma yearSums_present rows y :
  In y (map (fun r => t_year (r_total r)) rows) -> yearSums rows y <> None.
Proof.
  induction rows as [|r0 rows IH] using rev_ind; intros Hin; [contradiction|].
  rewrite yearSums_last. rewrite map_app, in_app_iff in Hin. simpl in Hin.
  destruct (Z.eqb_spec (t_year (r_total r0)) y) as [Heq|Hne]; [discriminate|].
  apply IH. destruct Hin as [Hin|[Hin|[]]]; [exact Hin|contradiction].
Qed.

Lemma yearRow_sum hasHeat p r :
  yearRow hasHeat p = Ok r ->
  r_sum r
  = tget (r_total r) (KFuel Fuel.bio) + tget (r_total r) (KFuel Fuel.coal)
    + tget (r_total r) (KFuel Fuel.gas) + tget (r_total r) (KFuel Fuel.geo)
    + tget (r_total r) (KFuel Fuel.hydro) + tget (r_total r) (KFuel Fuel.nuclear)
    + tget (r_total r) (KFuel Fuel.petro) + tget (r_total r) (KFuel Fuel.solar)
    + tget (r_total r) (KFuel Fuel.wind).
Proof.
  unfold yearRow. intros Hr.
  destruct (fuelsLoopAll hasHeat p 2 (skipn 2 ConfigurationService.FUELS)
              (initTotal hasHeat p, initFlow hasHeat p, initLabel hasHeat p))
    as [[[t fl] lb]|e]; cbn [bind] in Hr; [|discriminate Hr].
  inversion Hr; subst r; reflexivity.
Qed.

(** X18: [yearSums] is keyed by year.  It has an entry exactly for the
    years of the dataset.  On a dataset with pairwise distinct years the
    entry under a record's year is the sum computed for that very record:
    its nine primary-fuel totals, added in the order in which the code adds
    them. *)
Theorem yearSums_by_year :
  forall hasHeat data rows,
    buildRows hasHeat data = Ok rows ->
    (forall y, yearSums rows y = None <-> ~ In y (map year data))
    /\ (NoDup (map year data) ->
        Forall2
          (fun p r =>
             yearSums rows (year p) = Some (r_sum r)
             /\ r_sum r
                = tget (r_total r) (KFuel Fuel.bio)
                  + tget (r_total r) (KFuel Fuel.coal)
                  + tget (r_total r) (KFuel Fuel.gas)
                  + tget (r_total r) (KFuel Fuel.geo)
                  + tget (r_total r) (KFuel Fuel.hydro)
                  + tget (r_total r) (KFuel Fuel.nuclear)
                  + tget (r_total r) (KFuel Fuel.petro)
                  + tget (r_total r) (KFuel Fuel.solar)
                  + tget (r_total r) (KFuel Fuel.wind))
          data rows).
Proof.
  intros hasHeat data rows Hrows.
  unfold buildRows in Hrows. apply mapM_Ok_Forall2 in Hrows.
  assert (Hyears : map (fun r => t_year (r_total r)) rows = map year data).
  { induction Hrows as [|p r data rows Hpr _ IH]; [reflexivity|].
    simpl. now rewrite IH, (yearRow_year _ _ _ Hpr). }
  split.
  - intros y. split.
    + intros Hnone Hin. apply (yearSums_present rows y); [|exact Hnone].
      now rewrite Hyears.
    + intros Hout. apply yearSums_absent. now rewrite Hyears.
  - intros Hnd. eapply Forall2_impl_In2; [|exact Hrows].
    intros p r _ Hin Hpr. simpl in Hpr.
    split; [|now apply (yearRow_sum hasHeat p)].
    rewrite <- (yearRow_year _ _ _ Hpr).
    apply yearSums_NoDup; [now rewrite Hyears|exact Hin].
Qed.

Lemma yearSums_by_year_witness :
  exists rows,
    buildRows false Samples.twoYears = Ok rows
    /\ Forall2 (fun p r => yearSums rows (year p) = Some (r_sum r))
               Samples.twoYears rows.
Proof.
  assert (Hnd : NoDup (map year Samples.twoYears)).
  { simpl. repeat constructor; simpl; intuition discriminate. }
  destruct (buildRows false Samples.twoYears) as [rows|e] eqn:Hrows.
  - exists rows. split; [reflexivity|].
    eapply Forall2_impl;
      [|exact (proj2 (yearSums_by_year false Samples.twoYears rows Hrows) Hnd)].
    intros p r H. exact (proj1 H).
  - exfalso. vm_compute in Hrows. discriminate Hrows.
Defined.

End Rows.

(** *** Flow counters *)

Section Flows.
Import SummaryService.

Lemma sectorStepAll_flow hasHeat p j f o s bx s' b :
  sectorStepAll hasHeat p j f o s bx = Ok s' ->
  fget (snd s') b
  = (fget (snd s) b
     + if Box.eqb bx b && negb (negb hasHeat && Box.eqb bx Box.heat)
          && Qlt_bool 0 (sb_get o bx)
       then 1 else 0)%Z.
Proof.
  unfold sectorStepAll. intros H.
  destruct (negb hasHeat && Box.eqb bx Box.heat).
  - inversion H; subst. rewrite andb_false_r. simpl. lia.
  - destruct (sectorStep hasHeat p j f o (fst s) bx) as [t|e]; [|discriminate H].
    simpl in H. inversion H; subst; clear H. cbn [snd negb]. rewrite andb_true_r.
    destruct (Qlt_bool 0 (sb_get o bx)).
    + unfold fget, fincr. cbn [f_vals].
      destruct (Box.eqb bx b) eqn:Hb; simpl; [|lia].
      assert (bx = b) by (destruct bx, b; simpl in Hb; congruence). now subst.
    + rewrite andb_false_r. lia.
Qed.

Lemma sectorsLoopAll_flow hasHeat p j f o b boxes :
  forall s s',
    sectorsLoopAll hasHeat p j f o boxes s = Ok s' ->
    fget (snd s') b
    = (fget (snd s) b
       + Z.of_nat
           (length
              (filter (fun bx => Box.eqb bx b
                                 && negb (negb hasHeat && Box.eqb bx Box.heat)
                                 && Qlt_bool 0 (sb_get o bx))
                      boxes)))%Z.
Proof.
  induction boxes as [|bx boxes IH]; intros s s' H; simpl in H.
  - inversion H; subst. simpl. lia.
  - destruct (sectorStepAll hasHeat p j f o s bx) as [s1|e] eqn:H1; [|discriminate H].
    simpl in H. rewrite (IH _ _ H), (sectorStepAll_flow _ _ _ _ _ _ _ _ b H1).
    cbn [filter].
    destruct (Box.eqb bx b && negb (negb hasHeat && Box.eqb bx Box.heat)
              && Qlt_bool 0 (sb_get o bx)); cbn [length]; lia.
Qed.

Lemma fuelStepAll_flow hasHeat p s j f s' b :
  In f Props.primaryFuels ->
  In b (Props.activeBoxes hasHeat) ->
  fuelStepAll hasHeat p s j f = Ok s' ->
  fget (snd (fst s')) b
  = (fget (snd (fst s)) b + if Props.positiveEntry p b f then 1 else 0)%Z.
Proof.
  intros Hf Hb H. destruct s as [[t fl] lb]. unfold fuelStepAll in H.
  unfold Props.positiveEntry.
  assert (Hnh : Fuel.eqb f Fuel.heat = false).
  { simpl in Hf. repeat (destruct Hf as [<-|Hf]; [reflexivity|]). contradiction. }
  rewrite Hnh, andb_false_r in H.
  destruct (dp_get p f) as [o|]; [|discriminate H].
  destruct (sectorsLoopAll hasHeat p j f o ConfigurationService.BOX_NAMES (t, fl))
    as [tf|e] eqn:Hs; [|discriminate H].
  simpl in H. inversion H; subst; clear H. cbn [fst snd].
  rewrite (sectorsLoopAll_flow _ _ _ _ _ b _ _ _ Hs). cbn [snd]. f_equal.
  unfold ConfigurationService.BOX_NAMES, ConfigurationService.BOXES.
  destruct hasHeat; simpl in Hb;
    repeat (destruct Hb as [<-|Hb];
            [cbn [filter Box.eqb andb negb sb_get];
             match goal with
             | |- context [Qlt_bool 0 ?v] => destruct (Qlt_bool 0 v)
             end; reflexivity|]);
    contradiction.
Qed.

Lemma fuelsLoopAll_flow hasHeat p b fuels :
  (forall f, In f fuels -> In f Props.primaryFuels) ->
  In b (Props.activeBoxes hasHeat) ->
  forall j s s',
    fuelsLoopAll hasHeat p j fuels s = Ok s' ->
    fget (snd (fst s')) b
    = (fget (snd (fst s)) b
       + Z.of_nat (length (filter (Props.positiveEntry p b) fuels)))%Z.
Proof.
  intros Hfs Hb. induction fuels as [|f fuels IH]; intros j s s' H; simpl in H.
  - inversion H; subst. simpl. lia.
  - destruct (fuelStepAll hasHeat p s j f) as [s1|e] eqn:H1; [|discriminate H].
    simpl in H.
    rewrite (IH (fun f' Hf' => Hfs f' (or_intror Hf')) _ _ _ H).
    rewrite (fuelStepAll_flow _ _ _ _ _ _ b (Hfs f (or_introl eq_refl)) Hb H1).
    cbn [filter]. destruct (Props.positiveEntry p b f); cbn [length]; lia.
Qed.

(** X19: the flow counter of a sector counts the primary fuels that
    deliver a positive amount to it: it lies between 0 and 9, and the
    deliveries of electricity, waste heat and heat are not counted. *)
Theorem flows_count_positive_entries :
  forall hasHeat p r b,
    yearRow hasHeat p = Ok r ->
    In b (Props.activeBoxes hasHeat) ->
    fget (r_flow r) b
    = Z.of_nat (length (filter (Props.positiveEntry p b) Props.primaryFuels))
    /\ (0 <= fget (r_flow r) b <= 9)%Z.
Proof.
  intros hasHeat p r b Hr Hb. unfold yearRow in Hr.
  destruct (fuelsLoopAll hasHeat p 2 (skipn 2 ConfigurationService.FUELS)
              (initTotal hasHeat p, initFlow hasHeat p, initLabel hasHeat p))
    as [[[t fl] lb]|e] eqn:Hloop; [|discriminate Hr].
  simpl in Hr. inversion Hr; subst; clear Hr. cbn [r_flow].
  pose proof (fuelsLoopAll_flow hasHeat p b (skipn 2 ConfigurationService.FUELS)
                (fun f Hf => Hf) Hb _ _ _ Hloop) as H.
  cbn [fst snd] in H.
  assert (Hfl : fget fl b
                = Z.of_nat (length (filter (Props.positiveEntry p b)
                                           Props.primaryFuels))).
  { rewrite H. unfold initFlow, fget. simpl f_vals. unfold Props.primaryFuels. lia. }
  split; [exact Hfl|]. rewrite Hfl.
  pose proof (filter_length_le (Props.positiveEntry p b) Props.primaryFuels) as Hle.
  change (length Props.primaryFuels) with 9%nat in Hle. lia.
Qed.

Lemma flows_count_positive_entries_witness :
  exists r,
    yearRow false Samples.p2000 = Ok r /\ fget (r_flow r) Box.res = 6%Z.
Proof.
  destruct (yearRow false Samples.p2000) as [r|e] eqn:Hr.
  - exists r. split; [reflexivity|].
    rewrite (proj1 (flows_count_positive_entries false Samples.p2000 r Box.res Hr
                      (or_intror (or_introl eq_refl)))).
    vm_compute. reflexivity.
  - exfalso. vm_compute in Hr. discriminate Hr.
Defined.

End Flows.

(** *** Maxima *)

Lemma fold_Qmax_attained (xs : list Q) (x : Q) :
  exists y, In y (x :: xs) /\ y == fold_left Qmax xs x.
Proof.
  revert x. induction xs as [|z xs IH]; intros x; simpl.
  - exists x. split; [now left|reflexivity].
  - destruct (IH (Qmax x z)) as (y & [Hy|Hy] & He).
    + destruct (Q.max_spec x z) as [[_ Hm]|[_ Hm]].
      * exists z. split; [right; now left|]. rewrite <- He, <- Hy. now symmetry.
      * exists x. split; [now left|]. rewrite <- He, <- Hy. now symmetry.
    + exists y. split; [right; now right|exact He].
Qed.

Lemma fold_Qmax_upper (xs : list Q) (x : Q) :
  forall y, In y (x :: xs) -> y <= fold_left Qmax xs x.
Proof.
  revert x. induction xs as [|z xs IH]; intros x y [<-|Hin]; simpl.
  - apply Qle_refl.
  - contradiction.
  - eapply Qle_trans; [apply Q.le_max_l|]. apply IH. now left.
  - destruct Hin as [<-|Hin].
    + eapply Qle_trans; [apply Q.le_max_r|]. apply IH. now left.
    + apply IH. now right.
Qed.

Lemma yearTotals_has_heat hasHeat p t :
  SummaryService.yearTotals hasHeat p = Ok t -> SummaryService.has_heat t = hasHeat.
Proof.
  intros Ht.
  destruct p as [yr ms pe pw p1 p2 p3 p4 p5 p6 p7 p8 p9 ph].
  destruct hasHeat; [destruct ph as [h|]|];
    by_totals Ht; eval_totals; try exact I; reflexivity.
Qed.

Lemma buildMaxes_active hasHeat ds sm b :
  SummaryService.buildSummary hasHeat ds = Ok sm ->
  In b (Props.activeBoxes hasHeat) ->
  SummaryService.maxes sm b
  = SummaryService.math_max
      (map (fun t => SummaryService.tget t (SummaryService.KBox b))
           (SummaryService.totals sm)).
Proof.
  intros Hsm Hb. pose proof (buildSummary_totals _ _ _ Hsm) as Hts.
  assert (Hmx : SummaryService.maxes sm = SummaryService.buildMaxes (SummaryService.totals sm)).
  { unfold SummaryService.buildSummary in Hsm.
    destruct (SummaryService.buildTotals hasHeat (DataService.data ds)) as [ts|e];
      [|discriminate Hsm].
    simpl in Hsm.
    destruct (SummaryService.buildBoxTops (SummaryService.buildMaxes ts)) as [bt|e];
      [|discriminate Hsm].
    simpl in Hsm. inversion Hsm; subst. reflexivity. }
  rewrite Hmx.
  destruct (Box.eqb b Box.heat) eqn:Hbh.
  - assert (b = Box.heat) by (destruct b; simpl in Hbh; congruence). subst b.
    assert (hasHeat = true).
    { destruct hasHeat; [reflexivity|]. simpl in Hb. intuition discriminate. }
    subst hasHeat.
    unfold SummaryService.buildMaxes.
    replace (map (fun yearTotal => SummaryService.total_of_box yearTotal Box.heat)
                 (SummaryService.totals sm))
      with (map Some (map (fun t => SummaryService.tget t (SummaryService.KBox Box.heat))
                          (SummaryService.totals sm))).
    + now rewrite all_defined_Some.
    + rewrite map_map. apply map_ext_in. intros t Hin.
      destruct (Forall2_In_r _ _ _ Hts t Hin) as (p & _ & Hp). simpl in Hp.
      unfold SummaryService.total_of_box.
      now rewrite (yearTotals_has_heat _ _ _ Hp).
  - apply buildMaxes_non_heat. intros ->. discriminate Hbh.
Qed.

(** X20: the box maxima are maxima.  For every participating sector the
    entry of [maxes] is defined, no year's sector total exceeds it, and some
    year's sector total attains it. *)
Theorem maxes_are_maxima :
  forall hasHeat ds sm b,
    SummaryService.buildSummary hasHeat ds = Ok sm ->
    In b (Props.activeBoxes hasHeat) ->
    exists m,
      SummaryService.maxes sm b = Some m
      /\ (forall t, In t (SummaryService.totals sm) ->
                    SummaryService.tget t (SummaryService.KBox b) <= m)
      /\ (exists t, In t (SummaryService.totals sm)
                    /\ SummaryService.tget t (SummaryService.KBox b) == m).
Proof.
  intros hasHeat ds sm b Hsm Hb.
  rewrite (buildMaxes_active _ _ _ _ Hsm Hb).
  assert (Hne : SummaryService.totals sm <> []).
  { intros Hnil. pose proof (buildMaxes_active _ _ _ Box.res Hsm) as Hres.
    assert (Hin : In Box.res (Props.activeBoxes hasHeat))
      by (destruct hasHeat; simpl; tauto).
    specialize (Hres Hin). rewrite Hnil in Hres. simpl in Hres.
    unfold SummaryService.buildSummary in Hsm.
    destruct (SummaryService.buildTotals hasHeat (DataService.data ds)) as [ts|e];
      [|discriminate Hsm].
    simpl in Hsm. unfold SummaryService.buildBoxTops in Hsm.
    destruct (SummaryService.buildMaxes ts Box.res) as [m|] eqn:Hm.
    - destruct (SummaryService.finite (SummaryService.buildMaxes ts Box.ag));
        simpl in Hsm; [|discriminate Hsm].
      destruct (SummaryService.finite (SummaryService.buildMaxes ts Box.indus));
        simpl in Hsm; [|discriminate Hsm].
      inversion Hsm; subst. simpl in Hres. congruence.
    - simpl in Hsm. discriminate Hsm. }
  destruct (SummaryService.totals sm) as [|t0 ts]; [contradiction|].
  cbn [map SummaryService.math_max].
  eexists. split; [reflexivity|]. split.
  - intros t Hin. apply fold_Qmax_upper.
    apply (in_map (fun t => SummaryService.tget t (SummaryService.KBox b))) in Hin.
    exact Hin.
  - destruct (fold_Qmax_attained
                (map (fun t => SummaryService.tget t (SummaryService.KBox b)) ts)
                (SummaryService.tget t0 (SummaryService.KBox b))) as (y & Hy & He).
    change (SummaryService.tget t0 (SummaryService.KBox b)
            :: map (fun t => SummaryService.tget t (SummaryService.KBox b)) ts)
      with (map (fun t => SummaryService.tget t (SummaryService.KBox b)) (t0 :: ts)) in Hy.
    apply in_map_iff in Hy. destruct Hy as (t & <- & Hin).
    exists t. split; assumption.
Qed.

Lemma maxes_are_maxima_witness :
  exists sm m,
    SummaryService.buildSummary false Samples.ds1 = Ok sm
    /\ SummaryService.maxes sm Box.res = Some m.
Proof.
  destruct (SummaryService.buildSummary false Samples.ds1) as [sm|e] eqn:Hsm.
  - destruct (maxes_are_maxima false Samples.ds1 sm Box.res Hsm
                (or_intror (or_introl eq_refl))) as (m & Hm & _).
    exists sm, m. split; [reflexivity|exact Hm].
  - exfalso. vm_compute in Hsm. discriminate Hsm.
Defined.

(* ------------------------------------------------------------------ *)
(** ** GraphService: which strokes a year's graph holds *)

(** Evaluate a graph of pass 1 on a symbolic record: coordinates stay
    unevaluated unless they are asked for. *)
Ltac eval_graph :=
  lazy -[Qplus Qmult Qminus Qdiv Qopp Qinv Qeq Qle Qlt Qabs
         sb_elec sb_res sb_ag sb_indus sb_trans sb_heat].

(** To prove [P gd] from [H : e = Ok (gd, p')], evaluate [e] inside a
    [match]. *)
Ltac by_graph H :=
  match type of H with
  | ?e = Ok (?gd, ?p') =>
      change gd with (fst (gd, p'));
      pattern (gd, p');
      match goal with
      | |- ?P (gd, p') =>
          cut (match e with Ok r => P r | Throw _ => True end);
          [ rewrite H; exact (fun x => x) | clear H ]
      end
  end.

Section Catalogue.
Import GraphService.
Local Open Scope Q_scope.

Lemma update_at_map_same {A B : Type} (F : A -> B) pos g g' (gr : list A) :
  nth_error gr pos = Some g -> F g' = F g ->
  map F (update_at pos (fun _ => g') gr) = map F gr.
Proof.
  revert pos. induction gr as [|x gr IH]; intros [|pos] Hn Hf; simpl in *;
    try discriminate.
  - inversion Hn; subst. now rewrite Hf.
  - now rewrite (IH pos Hn Hf).
Qed.

Lemma update_at_map_fun {A B : Type} (F : A -> B) pos f (gr : list A) :
  (forall g, F (f g) = F g) -> map F (update_at pos f gr) = map F gr.
Proof.
  intros Hf. revert pos. induction gr as [|x gr IH]; intros [|pos]; simpl;
    rewrite ?Hf, ?IH; reflexivity.
Qed.

Lemma forEach_inv_In {St : Type} (I : St -> Prop) (f : St -> nat -> nat -> St) sel :
  (forall s pos j, In pos sel -> I s -> I (f s pos j)) ->
  forall j s, I s -> I (forEach f sel j s).
Proof.
  induction sel as [|pos sel IH]; intros Hf j s Hs; simpl; [exact Hs|].
  apply IH.
  - intros s0 pos0 j0 Hin. apply Hf. now right.
  - apply Hf; [now left|exact Hs].
Qed.

Lemma combine_seq_In {A : Type} (l : list A) :
  forall s i x, In (i, x) (combine (seq s (length l)) l) ->
                (s <= i)%nat /\ nth_error l (i - s) = Some x.
Proof.
  induction l as [|y l IH]; intros s i x Hin; simpl in Hin; [contradiction|].
  destruct Hin as [Heq|Hin].
  - inversion Heq; subst. split; [lia|]. now rewrite Nat.sub_diag.
  - destruct (IH (S s) i x Hin) as [Hle Hn]. split; [lia|].
    replace (i - s)%nat with (S (i - S s)) by lia. exact Hn.
Qed.

Lemma selected_In cmp sel0 (gr : list GraphStroke) pos :
  In pos (map fst (sortedBy cmp (filtered sel0 gr))) ->
  exists g, nth_error gr pos = Some g /\ sel0 g = true.
Proof.
  intros Hin. apply in_map_iff in Hin. destruct Hin as ([pos' g] & Hp & Hin).
  simpl in Hp. subst pos'. unfold sortedBy in Hin. apply js_sort_In in Hin.
  unfold filtered in Hin. apply filter_In in Hin. destruct Hin as [Hin Hsel].
  unfold numbered in Hin. apply combine_seq_In in Hin.
  exists g. rewrite Nat.sub_0_r in Hin. split; [tauto|exact Hsel].
Qed.

(** *** Pass 1 emits the expected strokes, in order *)

Lemma graphYear_signature cfg summary i p gd p' :
  graphYear cfg summary i p = Ok (gd, p') ->
  map Props.fsig (graph gd)
  = Props.expectedStrokes (ConfigurationService.hasHeatData cfg) p
  /\ length (graph gd)
     = (if ConfigurationService.hasHeatData cfg then 69 else 53)%nat.
Proof.
  intros H. unfold graphYear in H.
  destruct (nth_error (SummaryService.totals summary) i) as [ti|]; [|discriminate H].
  destruct (find _ (SummaryService.totals summary)) as [t0|]; [|discriminate H].
  destruct cfg as [hh W s3 hs3 ex ey ly eg].
  destruct p as [yr ms pe pw p1 p2 p3 p4 p5 p6 p7 p8 p9 ph].
  cbn [ConfigurationService.hasHeatData].
  destruct hh; [destruct ph as [h|]|];
    by_graph H; eval_graph; try exact I; split; reflexivity.
Qed.

Lemma graphYears_signature cfg summary data :
  forall i gs ps,
    graphYears cfg summary i data = Ok (gs, ps) ->
    Forall2
      (fun p gd =>
         map Props.fsig (graph gd)
         = Props.expectedStrokes (ConfigurationService.hasHeatData cfg) p
         /\ length (graph gd)
            = (if ConfigurationService.hasHeatData cfg then 69 else 53)%nat)
      data gs.
Proof.
  induction data as [|p data IH]; intros i gs ps H; simpl in H.
  - inversion H; constructor.
  - destruct (graphYear cfg summary i p) as [[gd p']|e] eqn:Hy; simpl in H;
      [|discriminate].
    destruct (graphYears cfg summary (S i) data) as [[gs' ps']|e] eqn:Hrest;
      simpl in H; [|discriminate].
    inversion H; subst. constructor.
    + eapply graphYear_signature; eauto.
    + eapply IH; eauto.
Qed.

(** *** Passes 2 and 3 move strokes, pass 3 reorders them *)

Lemma upStep_sig cfg totals0 L (s : XState) pos j :
  map Props.fsig (fst (fst s)) = L ->
  map Props.fsig (fst (fst (upStep cfg totals0 s pos j))) = L.
Proof.
  destruct s as [[gr offs] cur]. unfold upStep. cbn [fst]. intros Hgr.
  destruct (nth_error gr pos) as [g|] eqn:Hn; [|exact Hgr].
  destruct (negb (same_box cur (box g))); cbn [fst];
    rewrite (update_at_map_same Props.fsig pos g _ gr Hn); auto.
Qed.

Lemma downStep_sig cfg L (s : XState) pos j :
  map Props.fsig (fst (fst s)) = L ->
  map Props.fsig (fst (fst (downStep cfg s pos j))) = L.
Proof.
  destruct s as [[gr offs] cur]. unfold downStep. cbn [fst]. intros Hgr.
  destruct (nth_error gr pos) as [g|] eqn:Hn; [|exact Hgr].
  destruct (negb (same_box cur (box g))); cbn [fst];
    rewrite (update_at_map_same Props.fsig pos g _ gr Hn); auto.
Qed.

Lemma upsYear_sig cfg gd :
  map Props.fsig (graph (upsYear cfg gd)) = map Props.fsig (graph gd).
Proof.
  unfold upsYear.
  match goal with
  | |- context [forEach ?f ?sel ?j ?s] =>
      pose proof (forEach_inv
                    (fun s0 : XState =>
                       map Props.fsig (fst (fst s0)) = map Props.fsig (graph gd))
                    f (fun s0 pos0 j0 => upStep_sig cfg _ _ s0 pos0 j0)
                    sel j s eq_refl) as Hinv;
      destruct (forEach f sel j s) as [[gr offs] cur]
  end.
  exact Hinv.
Qed.

Lemma downsYear_sig cfg gd :
  map Props.fsig (graph (downsYear cfg gd)) = map Props.fsig (graph gd).
Proof.
  unfold downsYear.
  match goal with
  | |- context [forEach ?f ?sel ?j ?s] =>
      pose proof (forEach_inv
                    (fun s0 : XState =>
                       map Props.fsig (fst (fst s0)) = map Props.fsig (graph gd))
                    f (fun s0 pos0 j0 => downStep_sig cfg _ s0 pos0 j0)
                    sel j s eq_refl) as Hinv;
      destruct (forEach f sel j s) as [[gr offs] cur]
  end.
  exact Hinv.
Qed.

Lemma spaceStep_sig cfg L (s : list GraphStroke * option nat) pos j :
  map Props.fsig (fst s) = L -> map Props.fsig (fst (spaceStep cfg s pos j)) = L.
Proof.
  destruct s as [gr prev]. unfold spaceStep. cbn [fst]. intros Hgr.
  destruct (Nat.eqb j 0); [exact Hgr|].
  destruct (nth_error gr pos) as [g|] eqn:Hn; [|exact Hgr].
  destruct prev as [ppos|]; [|exact Hgr].
  destruct (nth_error gr ppos) as [pg|]; [|exact Hgr].
  cbn [fst]. rewrite (update_at_map_same Props.fsig pos g _ gr Hn); auto.
Qed.

Lemma anchorStep_sig cfg max_cc gr pos j :
  map Props.fsig (anchorStep cfg max_cc gr pos j) = map Props.fsig gr.
Proof. unfold anchorStep. now apply update_at_map_fun. Qed.

Lemma spaceYear_sig cfg gd gd' :
  spaceYear cfg gd = Ok gd' ->
  Permutation (map Props.fsig (graph gd')) (map Props.fsig (graph gd)).
Proof.
  unfold spaceYear. intros H.
  set (gr1 := js_sort _ (graph gd)) in H.
  assert (Hperm : Permutation (map Props.fsig gr1) (map Props.fsig (graph gd)))
    by (apply Permutation_map, js_sort_perm).
  match type of H with
  | context [forEach ?f ?sel ?j ?s] =>
      assert (Hinv : map Props.fsig (fst (forEach f sel j s)) = map Props.fsig gr1)
        by (apply (forEach_inv
                     (fun s0 : list GraphStroke * option nat =>
                        map Props.fsig (fst s0) = map Props.fsig gr1));
            [intros; now apply spaceStep_sig|reflexivity]);
      destruct (forEach f sel j s) as [gr2 prev]
  end.
  cbn [fst] in Hinv.
  destruct (SummaryService.math_max (map (fun o => x (cc o)) gr2)) as [m|];
    simpl in H; [|discriminate].
  inversion H; subst; clear H. cbn [graph with_graph].
  rewrite <- Hperm, <- Hinv.
  match goal with
  | |- Permutation (map _ (forEach ?f ?sel ?j ?s)) _ =>
      rewrite (forEach_inv (fun gr0 => map Props.fsig gr0 = map Props.fsig gr2) f
                 (fun s0 pos0 j0 Hs =>
                    eq_trans (anchorStep_sig cfg m s0 pos0 j0) Hs)
                 sel j s eq_refl)
  end.
  reflexivity.
Qed.

(** *** Pass 4 renames electricity strokes only *)

Lemma coarse_of_fsig g :
  Fuel.eqb (fuel g) Fuel.waste = false -> Props.coarse g = Props.fsig g.
Proof. unfold Props.coarse, Props.fsig. now intros ->. Qed.

Lemma wasteStep_coarse gr0 (s : list GraphStroke * option nat) pos j :
  (exists g0, nth_error gr0 pos = Some g0 /\ fuel g0 = Fuel.elec) ->
  map Props.coarse (fst s) = map Props.coarse gr0 ->
  map Props.coarse (fst (wasteStep s pos j)) = map Props.coarse gr0.
Proof.
  destruct s as [gr prev]. unfold wasteStep; cbv beta iota. cbn [fst].
  intros (g0 & Hn0 & Hf0) Hgr.
  destruct (negb (Nat.eqb (Nat.modulo j 2) 0)); [|exact Hgr].
  destruct (nth_error gr pos) as [g|] eqn:Hn; [|exact Hgr].
  cbn [fst]. rewrite <- Hgr.
  apply (update_at_map_same Props.coarse pos g _ gr Hn).
  assert (Hc : Props.coarse g = Props.coarse g0).
  { apply (map_nth_error Props.coarse) in Hn.
    apply (map_nth_error Props.coarse) in Hn0. congruence. }
  assert (Hfuel : (if Fuel.eqb (fuel g) Fuel.waste then Fuel.elec else fuel g)
                  = Fuel.elec).
  { unfold Props.coarse in Hc. rewrite Hf0 in Hc. simpl in Hc. congruence. }
  destruct prev as [ppos|]; [destruct (nth_error gr ppos) as [pg|]|];
    unfold Props.coarse; simpl; now rewrite Hfuel.
Qed.

Lemma wasteYear_coarse gd :
  map Props.coarse (graph (wasteYear gd)) = map Props.coarse (graph gd).
Proof.
  unfold wasteYear.
  match goal with
  | |- context [forEach ?f ?sel ?j ?s] =>
      assert (Hinv : map Props.coarse (fst (forEach f sel j s))
                     = map Props.coarse (graph gd));
        [|destruct (forEach f sel j s) as [gr prev]; exact Hinv]
  end.
  apply (forEach_inv_In
           (fun s0 : list GraphStroke * option nat =>
              map Props.coarse (fst s0) = map Props.coarse (graph gd)));
    [|reflexivity].
  intros s0 pos0 j0 Hin Hs. apply wasteStep_coarse; [|exact Hs].
  destruct (selected_In _ _ _ _ Hin) as (g & Hg & Hsel).
  exists g. split; [exact Hg|].
  destruct (fuel g); simpl in Hsel; congruence.
Qed.

(** *** The pipeline *)

Lemma expected_no_waste hasHeat p :
  Forall (fun s => Fuel.eqb (Props.sig_fuel s) Fuel.waste = false)
         (Props.expectedStrokes hasHeat p).
Proof.
  destruct p as [yr ms pe pw p1 p2 p3 p4 p5 p6 p7 p8 p9 ph].
  destruct hasHeat; [destruct ph as [h|]|]; eval_graph; repeat constructor.
Qed.

Lemma perm_no_waste hasHeat p gr :
  Permutation (map Props.fsig gr) (Props.expectedStrokes hasHeat p) ->
  map Props.coarse gr = map Props.fsig gr.
Proof.
  intros Hperm. apply map_ext_in. intros g Hin. apply coarse_of_fsig.
  pose proof (expected_no_waste hasHeat p) as Hall. rewrite Forall_forall in Hall.
  apply (Hall (Props.fsig g)).
  eapply Permutation_in; [exact Hperm|]. now apply in_map.
Qed.

Lemma Forall2_map_r {A B : Type} (R R' : A -> B -> Prop) (f : B -> B) l l' :
  (forall a b, R a b -> R' a (f b)) -> Forall2 R l l' -> Forall2 R' l (map f l').
Proof. intros Hf H. induction H; simpl; constructor; auto. Qed.

Lemma Forall2_compose {A B C : Type} (R : A -> B -> Prop) (S : B -> C -> Prop)
    (T : A -> C -> Prop) l l1 l2 :
  (forall a b c, R a b -> S b c -> T a c) ->
  Forall2 R l l1 -> Forall2 S l1 l2 -> Forall2 T l l2.
Proof.
  intros H HR. revert l2. induction HR as [|a b l l1 Hab _ IH]; intros l2 HS;
    inversion HS; subst; constructor; eauto.
Qed.

Lemma Forall2_join {A B C : Type} (R : A -> B -> Prop) (S : A -> C -> Prop)
    (T : B -> C -> Prop) l l1 l2 :
  (forall a b c, R a b -> S a c -> T b c) ->
  Forall2 R l l1 -> Forall2 S l l2 -> Forall2 T l1 l2.
Proof.
  intros H HR. revert l2. induction HR as [|a b l l1 Hab _ IH]; intros l2 HS;
    inversion HS; subst; constructor; eauto.
Qed.

Lemma buildGraphs_catalogue cfg summary data graphs data' :
  buildGraphs cfg summary data = Ok (graphs, data') ->
  Forall2
    (fun p gd =>
       Permutation (map Props.coarse (graph gd))
                   (Props.expectedStrokes (ConfigurationService.hasHeatData cfg) p)
       /\ length (graph gd)
          = (if ConfigurationService.hasHeatData cfg then 69 else 53)%nat)
    data graphs.
Proof.
  unfold buildGraphs. intros H.
  destruct (calculateGraphY cfg summary data) as [[g1 d1]|e] eqn:H1;
    simpl in H; [|discriminate].
  destruct (spaceUpsAndDowns cfg (calculateGraphX cfg g1)) as [g2|e] eqn:H2;
    simpl in H; [|discriminate].
  inversion H; subst; clear H.
  unfold calculateGraphY in H1. apply graphYears_signature in H1.
  unfold spaceUpsAndDowns in H2. apply mapM_Ok_Forall2 in H2.
  set (Req := fun (p : EnergyDataPoint) (gd : GraphData) =>
                map Props.fsig (graph gd)
                = Props.expectedStrokes (ConfigurationService.hasHeatData cfg) p
                /\ length (graph gd)
                   = (if ConfigurationService.hasHeatData cfg then 69 else 53)%nat)
    in *.
  assert (Hx : Forall2 Req data (calculateGraphX cfg g1)).
  { unfold calculateGraphX, calculateGraphXDowns, calculateGraphXUps.
    apply (Forall2_map_r Req Req).
    - intros p gd [Hs Hl].
      split; [now rewrite downsYear_sig|now rewrite downsYear_length].
    - apply (Forall2_map_r Req Req); [|exact H1].
      intros p gd [Hs Hl].
      split; [now rewrite upsYear_sig|now rewrite upsYear_length]. }
  assert (Hs : Forall2
                 (fun p gd =>
                    Permutation (map Props.fsig (graph gd))
                      (Props.expectedStrokes (ConfigurationService.hasHeatData cfg) p)
                    /\ length (graph gd)
                       = (if ConfigurationService.hasHeatData cfg then 69 else 53)%nat)
                 data g2).
  { eapply Forall2_compose; [|exact Hx|exact H2].
    intros p gd gd' [Hsig Hl] Hsp. cbv beta in Hsp.
    pose proof (spaceYear_sig _ _ _ Hsp) as Hperm. split.
    - now rewrite Hperm, Hsig.
    - apply Permutation_length in Hperm. rewrite !length_map in Hperm. congruence. }
  unfold processWasteHeatFlows.
  eapply Forall2_map_r; [|exact Hs].
  intros p gd [Hp Hl]. cbv beta. split.
  - rewrite wasteYear_coarse. rewrite (perm_no_waste _ _ _ Hp). exact Hp.
  - now rewrite wasteYear_length.
Qed.

Lemma create_inv cfg0 energyData sv :
  Services.create cfg0 energyData = Ok sv ->
  DataService.new energyData
  = Ok (Services.dataService sv,
        ConfigurationService.hasHeatData (Services.config sv))
  /\ SummaryService.buildSummary
       (ConfigurationService.hasHeatData (Services.config sv))
       (Services.dataService sv) = Ok (Services.summary sv)
  /\ buildGraphs (Services.config sv) (Services.summary sv)
       (DataService.data (Services.dataService sv))
     = Ok (Services.graphs sv, Services.dataAfter sv).
Proof.
  unfold Services.create. intros H.
  destruct (DataService.new energyData) as [[ds h]|e]; simpl in H; [|discriminate].
  destruct (SummaryService.buildSummary h ds) as [sm|e] eqn:Hsm; simpl in H;
    [|discriminate].
  destruct (buildGraphs (Services.with_hasHeatData cfg0 h) sm (DataService.data ds))
    as [[gs d']|e] eqn:Hg; simpl in H; [|discriminate].
  inversion H; subst; simpl. repeat split; assumption.
Qed.

(** X21: which strokes a year's graph holds.  After the four passes,
    every year's graph holds exactly the strokes pass 1 creates for its
    record: one per fuel and sector other than the fuel's own box (the heat
    fuel and the heat sector only with heat data), each electricity stroke
    followed by a waste-heat clone -- as a multiset, with pass 4's waste
    strokes counted as the electricity strokes they were.  No stroke is
    added or dropped: each graph has 53 strokes without heat data and 69
    with. *)
Theorem strokes_catalogue :
  forall cfg0 energyData sv,
    Services.create cfg0 energyData = Ok sv ->
    Forall2
      (fun p gd =>
         Permutation
           (map Props.coarse (graph gd))
           (Props.expectedStrokes
              (ConfigurationService.hasHeatData (Services.config sv)) p)
         /\ length (graph gd)
            = (if ConfigurationService.hasHeatData (Services.config sv)
               then 69 else 53)%nat)
      (DataService.data (Services.dataService sv)) (Services.graphs sv).
Proof.
  intros cfg0 energyData sv H.
  destruct (create_inv _ _ _ H) as (_ & _ & Hg).
  exact (buildGraphs_catalogue _ _ _ _ _ Hg).
Qed.

Lemma strokes_catalogue_witness :
  exists sv,
    Services.create Samples.cfg [Samples.p2000] = Ok sv
    /\ Forall2 (fun p gd => length (graph gd) = 53%nat)
               (DataService.data (Services.dataService sv)) (Services.graphs sv).
Proof.
  destruct (Services.create Samples.cfg [Samples.p2000]) as [sv|e] eqn:Hsv.
  - exists sv. split; [reflexivity|].
    pose proof (strokes_catalogue Samples.cfg [Samples.p2000] sv Hsv) as H.
    assert (Hh : ConfigurationService.hasHeatData (Services.config sv) = false).
    { destruct (create_inv _ _ _ Hsv) as (Hnew & _).
      assert (Hn : DataService.new [Samples.p2000] = Ok (Samples.ds1, false))
        by (vm_compute; reflexivity).
      rewrite Hn in Hnew. now inversion Hnew. }
    rewrite Hh in H. eapply Forall2_impl; [|exact H]. intros p gd Hp. exact (proj2 Hp).
  - exfalso. pose proof create_oneYear_ok as H. rewrite Hsv in H.
    discriminate H.
Defined.

End Catalogue.

(* ------------------------------------------------------------------ *)
(** ** EventBus: the registry and its statistics *)

Section BusMaps.
Import EventBus.
Context {K V : Type} (eq_dec : forall a b : K, {a = b} + {a <> b}).

Lemma lookup_set_same k (v : V) m : lookup eq_dec k (set eq_dec k v m) = Some v.
Proof.
  induction m as [|[k' v'] m IH]; simpl.
  - destruct (eq_dec k k); [reflexivity|contradiction].
  - destruct (eq_dec k' k) as [->|Hne]; simpl.
    + destruct (eq_dec k k); [reflexivity|contradiction].
    + destruct (eq_dec k' k); [contradiction|exact IH].
Qed.

Lemma lookup_set_other k k' (v : V) m :
  k' <> k -> lookup eq_dec k' (set eq_dec k v m) = lookup eq_dec k' m.
Proof.
  intros Hne. induction m as [|[k0 v0] m IH]; simpl.
  - destruct (eq_dec k k'); [congruence|reflexivity].
  - destruct (eq_dec k0 k) as [->|Hk]; simpl.
    + destruct (eq_dec k k'); [congruence|reflexivity].
    + destruct (eq_dec k0 k'); [reflexivity|exact IH].
Qed.

Lemma lookup_delete_same k (m : list (K * V)) :
  lookup eq_dec k (delete eq_dec k m) = None.
Proof.
  unfold delete. induction m as [|[k' v'] m IH]; simpl; [reflexivity|].
  destruct (eq_dec k' k) as [->|Hne]; simpl; [exact IH|].
  destruct (eq_dec k' k); [contradiction|exact IH].
Qed.

Lemma lookup_delete_other k k' (m : list (K * V)) :
  k' <> k -> lookup eq_dec k' (delete eq_dec k m) = lookup eq_dec k' m.
Proof.
  intros Hne. unfold delete. induction m as [|[k0 v0] m IH]; simpl; [reflexivity|].
  destruct (eq_dec k0 k) as [->|Hk]; simpl.
  - destruct (eq_dec k k'); [congruence|exact IH].
  - destruct (eq_dec k0 k'); [reflexivity|exact IH].
Qed.

Lemma delete_absent k (m : list (K * V)) :
  lookup eq_dec k m = None -> delete eq_dec k m = m.
Proof.
  unfold delete. induction m as [|[k' v'] m IH]; simpl; [reflexivity|].
  destruct (eq_dec k' k); [discriminate|]. intros H. now rewrite IH.
Qed.

Lemma delete_delete k (m : list (K * V)) :
  delete eq_dec k (delete eq_dec k m) = delete eq_dec k m.
Proof. apply delete_absent. apply lookup_delete_same. Qed.

Lemma set_absent k (v : V) m :
  lookup eq_dec k m = None -> set eq_dec k v m = m ++ [(k, v)].
Proof.
  induction m as [|[k' v'] m IH]; simpl; [reflexivity|].
  destruct (eq_dec k' k); [discriminate|]. intros H. now rewrite IH.
Qed.

Lemma delete_set_absent k (v : V) m :
  lookup eq_dec k m = None -> delete eq_dec k (set eq_dec k v m) = m.
Proof.
  intros H. rewrite (set_absent _ _ _ H). unfold delete.
  rewrite filter_app. simpl.
  destruct (eq_dec k k); [|contradiction].
  rewrite app_nil_r. exact (delete_absent _ _ H).
Qed.

Lemma set_set k (v v' : V) m :
  set eq_dec k v' (set eq_dec k v m) = set eq_dec k v' m.
Proof.
  induction m as [|[k0 v0] m IH]; simpl.
  - destruct (eq_dec k k); [reflexivity|contradiction].
  - destruct (eq_dec k0 k) as [->|Hne]; simpl.
    + destruct (eq_dec k k); [reflexivity|contradiction].
    + destruct (eq_dec k0 k); [contradiction|now rewrite IH].
Qed.

Lemma set_present k (v : V) m : lookup eq_dec k m = Some v -> set eq_dec k v m = m.
Proof.
  induction m as [|[k0 v0] m IH]; simpl; [discriminate|].
  destruct (eq_dec k0 k) as [->|Hne].
  - intros H. inversion H. reflexivity.
  - intros H. now rewrite IH.
Qed.

Lemma keys_set k (v : V) m :
  NoDup (map fst m) -> lookup eq_dec k m = None -> NoDup (map fst (set eq_dec k v m)).
Proof.
  intros Hnd Hab. rewrite (set_absent _ _ _ Hab), map_app. simpl.
  apply NoDup_app_remove_l with (l := []). simpl.
  apply Permutation_NoDup with (l := k :: map fst m).
  - apply Permutation_cons_append.
  - constructor; [|exact Hnd].
    clear Hnd. induction m as [|[k0 v0] m IH]; simpl in *; [tauto|].
    destruct (eq_dec k0 k); [discriminate|]. intros [H|H]; [contradiction|].
    now apply IH.
Qed.

Lemma keys_delete k (m : list (K * V)) :
  NoDup (map fst m) -> NoDup (map fst (delete eq_dec k m)).
Proof.
  unfold delete. induction m as [|[k0 v0] m IH]; simpl; intros Hnd; [constructor|].
  inversion Hnd as [|? ? Hnotin Hnd']; subst.
  destruct (eq_dec k0 k); simpl; [now apply IH|].
  constructor; [|now apply IH].
  intros Hin. apply Hnotin. apply in_map_iff in Hin.
  destruct Hin as (e & He & Hin). apply filter_In in Hin.
  apply in_map_iff. exists e. tauto.
Qed.

Lemma lookup_None_notin k (m : list (K * V)) :
  lookup eq_dec k m = None -> ~ In k (map fst m).
Proof.
  induction m as [|[k0 v0] m IH]; simpl; [tauto|].
  destruct (eq_dec k0 k); [discriminate|]. intros H [Heq|Hin]; [contradiction|].
  now apply IH.
Qed.

(** Deleting a present key of a map with distinct keys removes exactly its
    entry. *)
Lemma count_delete (P : K * V -> bool) k v (m : list (K * V)) :
  NoDup (map fst m) -> lookup eq_dec k m = Some v ->
  length (filter P m)
  = ((if P (k, v) then 1 else 0) + length (filter P (delete eq_dec k m)))%nat.
Proof.
  unfold delete. induction m as [|[k0 v0] m IH]; simpl; intros Hnd Hl; [discriminate|].
  inversion Hnd as [|? ? Hnotin Hnd']; subst.
  destruct (eq_dec k0 k) as [->|Hne].
  - inversion Hl; subst. 
    assert (Hrest : filter (fun e => if eq_dec (fst e) k then false else true) m = m).
    { clear -Hnotin. induction m as [|[k1 v1] m IH]; simpl in *; [reflexivity|].
      destruct (eq_dec k1 k) as [->|]; [tauto|]. rewrite IH; tauto. }
    rewrite Hrest. destruct (P (k, v)); reflexivity.
  - simpl. destruct (P (k0, v0)); simpl; rewrite (IH Hnd' Hl); lia.
Qed.
End BusMaps.

Lemma filter_const_true {A : Type} (l : list A) : filter (fun _ => true) l = l.
Proof. induction l; simpl; congruence. Qed.

Section Bus.
Import EventBus.
Local Open Scope Z_scope.

Lemma countOr0_set counts ty v ty' :
  countOr0 (set type_eq_dec ty v counts) ty'
  = if type_eq_dec ty ty' then v else countOr0 counts ty'.
Proof.
  unfold countOr0. destruct (type_eq_dec ty ty') as [<-|Hne].
  - now rewrite lookup_set_same.
  - rewrite lookup_set_other; [reflexivity|congruence].
Qed.

Lemma set_add_nonempty h s : set_add h s <> [].
Proof.
  unfold set_add. destruct (in_dec Nat.eq_dec h s) as [Hin|_].
  - intros ->. contradiction.
  - destruct s; discriminate.
Qed.

Lemma set_delete_idem h s : set_delete h (set_delete h s) = set_delete h s.
Proof.
  unfold set_delete. apply notin_remove. apply remove_In.
Qed.

Lemma set_delete_add h s : ~ In h s -> set_delete h (set_add h s) = s.
Proof.
  intros Hn. unfold set_delete, set_add.
  destruct (in_dec Nat.eq_dec h s); [contradiction|].
  rewrite remove_app. simpl. destruct (Nat.eq_dec h h); [|contradiction].
  rewrite app_nil_r. now apply notin_remove.
Qed.

(** What holds of every reachable bus. *)
Lemma reachable_inv bus :
  reachable bus ->
  NoDup (map fst (subscriptions bus))
  /\ totalSubscriptions (stats bus) = Z.of_nat (length (subscriptions bus))
  /\ (forall ty, countOr0 (subscriptionsByType (stats bus)) ty
                 = Z.of_nat (recordsOf ty bus))
  /\ (forall ty s, lookup type_eq_dec ty (handlers bus) = Some s -> s <> []).
Proof.
  induction 1 as [|bus newId now ty h _ IH Hfresh|bus sub _ IH Hgen|bus _ IH
                  |bus ty _ IH|bus time _ IH].
  - simpl. repeat split; try constructor. intros ty s H. discriminate H.
  - destruct IH as (Hnd & Htot & Hty & Hhs).
    unfold subscribe. cbn [fst subscriptions stats totalSubscriptions
                             subscriptionsByType handlers].
    split; [now apply keys_set|].
    split; [rewrite (set_absent _ _ _ _ Hfresh), length_app; simpl; lia|].
    split.
    + intros ty'. rewrite countOr0_set. unfold recordsOf.
      cbn [subscriptions]. rewrite (set_absent _ _ _ _ Hfresh), filter_app, length_app.
      cbn [filter snd eventType].
      specialize (Hty ty'). unfold recordsOf in Hty.
      destruct (type_eq_dec ty ty') as [<-|Hne].
      * rewrite Hty. simpl. lia.
      * rewrite Hty. simpl. lia.
    + intros ty' s Hl.
      destruct (lookup type_eq_dec ty (handlers bus)) as [s0|] eqn:Hty0.
      * rewrite Hty0 in Hl.
        destruct (type_eq_dec ty ty') as [<-|Hne].
        -- rewrite lookup_set_same in Hl. inversion Hl. apply set_add_nonempty.
        -- rewrite lookup_set_other in Hl by congruence. eapply Hhs; eassumption.
      * rewrite lookup_set_same in Hl.
        destruct (type_eq_dec ty ty') as [<-|Hne].
        -- rewrite lookup_set_same in Hl. inversion Hl. apply set_add_nonempty.
        -- rewrite !lookup_set_other in Hl by congruence. eapply Hhs; eassumption.
  - destruct IH as (Hnd & Htot & Hty & Hhs).
    unfold unsubscribe. cbn [subscriptions stats handlers].
    split; [now apply keys_delete|].
    assert (Hh : forall ty' s,
               lookup type_eq_dec ty'
                 match lookup type_eq_dec (eventType sub) (handlers bus) with
                 | Some s0 =>
                     match set_delete (handler sub) s0 with
                     | [] => delete type_eq_dec (eventType sub) (handlers bus)
                     | _ :: _ =>
                         set type_eq_dec (eventType sub)
                             (set_delete (handler sub) s0) (handlers bus)
                     end
                 | None => handlers bus
                 end = Some s -> s <> []).
    { intros ty' s Hl.
      destruct (lookup type_eq_dec (eventType sub) (handlers bus)) as [s0|] eqn:Hs0;
        [|eapply Hhs; eassumption].
      destruct (set_delete (handler sub) s0) as [|x s'] eqn:Hd.
      - destruct (type_eq_dec (eventType sub) ty') as [<-|Hne].
        + rewrite lookup_delete_same in Hl. discriminate Hl.
        + rewrite lookup_delete_other in Hl by congruence. eapply Hhs; eassumption.
      - destruct (type_eq_dec (eventType sub) ty') as [<-|Hne].
        + rewrite lookup_set_same in Hl. inversion Hl. discriminate.
        + rewrite lookup_set_other in Hl by congruence. eapply Hhs; eassumption. }
    destruct (lookup string_dec (id sub) (subscriptions bus)) as [stored|] eqn:Hst.
    + pose proof (Hgen stored eq_refl) as ->.
      pose proof (count_delete string_dec (fun _ => true) _ _ _ Hnd Hst) as Hlen.
      rewrite !filter_const_true in Hlen.
      cbn [totalSubscriptions subscriptionsByType].
      split; [lia|].
      split; [|exact Hh].
      { intros ty'. rewrite countOr0_set. unfold recordsOf in *. cbn [subscriptions].
        pose proof (count_delete string_dec
                      (fun e => if type_eq_dec (eventType (snd e)) ty'
                                then true else false) _ _ _ Hnd Hst) as Hc.
        cbn [snd] in Hc. specialize (Hty ty') as Hty'.
        destruct (type_eq_dec (eventType sub) ty') as [<-|Hne].
        - destruct (type_eq_dec (eventType sub) (eventType sub)); [|contradiction].
          rewrite Hty', Hc. lia.
        - destruct (type_eq_dec (eventType sub) ty'); [contradiction|].
          rewrite Hty', Hc. lia. }
    + split.
      * rewrite (delete_absent _ _ _ Hst). exact Htot.
      * split; [|exact Hh].
        intros ty'. unfold recordsOf. cbn [subscriptions].
        rewrite (delete_absent _ _ _ Hst). apply Hty.
  - simpl. repeat split; try constructor. intros ty s H. discriminate H.
  - destruct IH as (Hnd & Htot & Hty & Hhs). unfold emit.
    destruct (lookup type_eq_dec ty (handlers bus)) as [[|x s]|];
      repeat split; assumption.
  - exact IH.
Qed.

(** X25: the statistics count the subscriptions.  On every bus a
    program can reach (fresh subscription identifiers; [unsubscribe] called
    with subscription objects that [subscribe] returned),
    [stats.totalSubscriptions] is the number of subscription records and the
    count kept for each event type is the number of records of that type, so
    the bounds [Math.max(0, ...)] in [unsubscribe] never take effect. *)
Theorem stats_count_subscriptions :
  forall bus,
    reachable bus ->
    totalSubscriptions (getStats bus) = Z.of_nat (length (subscriptions bus))
    /\ (forall ty, countOr0 (subscriptionsByType (getStats bus)) ty
                   = Z.of_nat (recordsOf ty bus))
    /\ (forall ty, (recordsOf ty bus <= length (subscriptions bus))%nat).
Proof.
  intros bus H. destruct (reachable_inv bus H) as (_ & Htot & Hty & _).
  split; [exact Htot|]. split; [exact Hty|].
  intros ty. unfold recordsOf. apply filter_length_le.
Qed.

Lemma stats_count_subscriptions_witness :
  totalSubscriptions
    (getStats (fst (subscribe "sub_1"%string 0 year_changed 7 EventBus.new))) = 1.
Proof.
  exact (proj1 (stats_count_subscriptions _
                  (@reach_subscribe EventBus.new "sub_1"%string 0 year_changed 7
                     reach_new eq_refl))).
Defined.

(** X26: [unsubscribe] is idempotent.  On any bus, a second call with
    the same subscription object changes nothing: the handler sets, the
    subscription records and the statistics are as the first call left
    them. *)
Theorem unsubscribe_idempotent :
  forall bus subscription,
    unsubscribe subscription (unsubscribe subscription bus)
    = unsubscribe subscription bus.
Proof.
  intros bus sub. unfold unsubscribe at 1.
  assert (Hsubs : subscriptions (unsubscribe sub bus)
                  = delete string_dec (id sub) (subscriptions bus)) by reflexivity.
  rewrite Hsubs, lookup_delete_same, delete_delete.
  assert (Hh : match lookup type_eq_dec (eventType sub)
                       (handlers (unsubscribe sub bus)) with
               | Some s =>
                   match set_delete (handler sub) s with
                   | [] => delete type_eq_dec (eventType sub)
                             (handlers (unsubscribe sub bus))
                   | _ :: _ =>
                       set type_eq_dec (eventType sub) (set_delete (handler sub) s)
                           (handlers (unsubscribe sub bus))
                   end
               | None => handlers (unsubscribe sub bus)
               end = handlers (unsubscribe sub bus)).
  { unfold unsubscribe. cbn [handlers].
    destruct (lookup type_eq_dec (eventType sub) (handlers bus)) as [s0|] eqn:Hs0.
    - destruct (set_delete (handler sub) s0) as [|x s'] eqn:Hd.
      + now rewrite lookup_delete_same.
      + rewrite lookup_set_same. rewrite <- Hd, set_delete_idem, Hd.
        apply set_set.
    - now rewrite Hs0. }
  rewrite Hh. reflexivity.
Qed.

(** X27: [unsubscribe] undoes [subscribe].  On a reachable bus,
    subscribing a handler that is not yet registered for the event type and
    unsubscribing the returned subscription restores the handler sets and
    the subscription records, the total count and the count of every event
    type. *)
Theorem subscribe_then_unsubscribe :
  forall bus newId now ty h,
    reachable bus ->
    lookup string_dec newId (subscriptions bus) = None ->
    (forall s, lookup type_eq_dec ty (handlers bus) = Some s -> ~ In h s) ->
    let bus1 := fst (subscribe newId now ty h bus) in
    let subscription := snd (subscribe newId now ty h bus) in
    let bus2 := unsubscribe subscription bus1 in
    handlers bus2 = handlers bus
    /\ subscriptions bus2 = subscriptions bus
    /\ totalSubscriptions (getStats bus2) = totalSubscriptions (getStats bus)
    /\ (forall ty', countOr0 (subscriptionsByType (getStats bus2)) ty'
                    = countOr0 (subscriptionsByType (getStats bus)) ty').
Proof.
  intros bus newId now ty h Hr Hfresh Hnew. cbv zeta.
  destruct (reachable_inv bus Hr) as (Hnd & Htot & Hty & Hhs).
  unfold subscribe, unsubscribe.
  cbn [fst snd handlers subscriptions stats id eventType handler getStats
       totalSubscriptions subscriptionsByType].
  rewrite lookup_set_same, (delete_set_absent _ _ _ _ Hfresh).
  split; [|split; [reflexivity|split]].
  - destruct (lookup type_eq_dec ty (handlers bus)) as [s0|] eqn:Hs0.
    + rewrite Hs0, lookup_set_same.
      rewrite (set_delete_add h s0 (Hnew s0 eq_refl)).
      destruct s0 as [|x s0]; [exfalso; now apply (Hhs ty [] Hs0)|].
      rewrite set_set. now apply set_present.
    + rewrite lookup_set_same, lookup_set_same.
      rewrite (set_delete_add h [] (fun H => H)).
      rewrite set_set. now apply delete_set_absent.
  - cbn [totalSubscriptions]. rewrite Htot.
    pose proof (Zle_0_nat (length (subscriptions bus))). lia.
  - intros ty'. cbn [subscriptionsByType]. rewrite !countOr0_set.
    destruct (type_eq_dec ty ty') as [<-|Hne]; [|reflexivity].
    destruct (type_eq_dec ty ty); [|contradiction].
    pose proof (Zle_0_nat (recordsOf ty bus)). rewrite Hty. lia.
Qed.

Lemma subscribe_then_unsubscribe_witness :
  handlers
    (unsubscribe (snd (subscribe "sub_1"%string 0 year_changed 7 EventBus.new))
       (fst (subscribe "sub_1"%string 0 year_changed 7 EventBus.new)))
  = handlers EventBus.new.
Proof.
  exact (proj1 (subscribe_then_unsubscribe EventBus.new "sub_1"%string 0 year_changed 7
                  reach_new eq_refl (fun s H => ltac:(discriminate H)))).
Defined.

End Bus.

(* ------------------------------------------------------------------ *)
(** ** EventBus: the rolling window of handler times *)

Section Window.
Import EventBus.

Lemma lastn_short {A : Type} n (l : list A) :
  (length l <= n)%nat -> Props.lastn n l = l.
Proof.
  intros H. unfold Props.lastn. now replace (length l - n)%nat with 0%nat by lia.
Qed.

Lemma lastn_length {A : Type} n (l : list A) :
  length (Props.lastn n l) = Nat.min n (length l).
Proof. unfold Props.lastn. rewrite length_skipn. lia. Qed.

Lemma lastn_snoc {A : Type} n (l : list A) x :
  Props.lastn n (l ++ [x])
  = if Nat.ltb n (length (Props.lastn n l ++ [x]))
    then tl (Props.lastn n l ++ [x])
    else Props.lastn n l ++ [x].
Proof.
  rewrite length_app, lastn_length. simpl.
  destruct (Nat.ltb_spec n (Nat.min n (length l) + 1)) as [Hlt|Hge].
  - (* the window is full *)
    assert (Hn : (n <= length l)%nat) by lia.
    destruct n as [|n].
    { unfold Props.lastn. rewrite !Nat.sub_0_r.
      rewrite !skipn_all2 by (rewrite ?length_app; simpl; lia). reflexivity. }
    unfold Props.lastn. rewrite length_app. simpl length.
    replace (length l + 1 - S n)%nat with (S (length l - S n)) by lia.
    rewrite skipn_app.
    replace (S (length l - S n) - length l)%nat with 0%nat by lia.
    change (skipn 0 [x]) with [x].
    change (skipn (S (length l - S n)) l) with (skipn (1 + (length l - S n)) l).
    rewrite <- skipn_skipn.
    destruct (skipn (length l - S n) l) as [|y rest] eqn:Hs.
    + assert (Hl : length (skipn (length l - S n) l) = S n) by (rewrite length_skipn; lia).
      rewrite Hs in Hl. discriminate Hl.
    + reflexivity.
  - assert (Hn : (length l < n)%nat) by lia.
    rewrite !lastn_short by (rewrite ?length_app; simpl; lia). reflexivity.
Qed.

Lemma recordAll_window times :
  forall bus,
    handlerTimes (Props.recordAll times bus)
    = fold_left
        (fun buf time =>
           if Nat.ltb MAX_HANDLER_TIMES (length (buf ++ [time]))
           then tl (buf ++ [time]) else buf ++ [time])
        times (handlerTimes bus).
Proof.
  unfold Props.recordAll.
  induction times as [|time times IH]; intros bus; simpl; [reflexivity|].
  now rewrite IH.
Qed.

Lemma fold_window (times : list Q) :
  fold_left
    (fun buf time =>
       if Nat.ltb MAX_HANDLER_TIMES (length (buf ++ [time]))
       then tl (buf ++ [time]) else buf ++ [time])
    times []
  = Props.lastn MAX_HANDLER_TIMES times.
Proof.
  induction times as [|time times IH] using rev_ind; [reflexivity|].
  rewrite fold_left_app. simpl. rewrite IH. symmetry. apply lastn_snoc.
Qed.

(** X29: the buffer of handler times is a rolling window.  Starting
    from an empty buffer (a new or a cleared bus), after any number of
    recordings it holds exactly the most recent ones, oldest first, and never
    more than 100 of them. *)
Theorem handler_times_window :
  forall bus times,
    handlerTimes bus = [] ->
    handlerTimes (Props.recordAll times bus) = Props.lastn MAX_HANDLER_TIMES times
    /\ (length (handlerTimes (Props.recordAll times bus)) <= MAX_HANDLER_TIMES)%nat.
Proof.
  intros bus times Hempty. rewrite recordAll_window, Hempty, fold_window.
  split; [reflexivity|]. rewrite lastn_length. lia.
Qed.

Lemma handler_times_window_witness :
  handlerTimes (Props.recordAll [1; 2; 3] (clear EventBus.new)) = [1; 2; 3].
Proof.
  exact (proj1 (handler_times_window (clear EventBus.new) [1; 2; 3] eq_refl)).
Defined.

End Window.
